(** * kvm-dmesg guest access: QMP socket client and backend dispatch

    A shallow embedding of the two C translation units of the guest-access
    layer (the QMP monitor client and [libvirt_client.c]) together with the
    properties of the design description that were checked against them.

    Conventions.
    - C integers are [Z] with the conversion written out ([u64], [to_int],
      [to_uchar], ...); the target is x86-64 Linux (LP64): [size_t],
      [unsigned long] and [uint64_t] are 64 bits wide, [int] is 32 bits.
    - A C string or a byte buffer is a [list ascii].  A string stops at its
      first NUL; a list handed to a function as a string ends where the
      string ends (its terminator follows the last element).  A block of
      memory is the list of its bytes: where the code hands a block it
      has not terminated to a function that expects a string, a callee
      that reads as far as the terminator leaves a block that holds no
      NUL, which is a fault ([on_block]).
    - The operating system (sockets, files, the libvirt library) is an
      oracle carried in an explicit world record that every call threads
      through; [pr_err]/[pr_warning] append to a log in the same world. *)

From Stdlib Require Import ZArith List String Ascii Bool Lia Sorted.
From Stdlib Require DecimalString HexadecimalString.
From stdpp Require Import base list.
Import ListNotations.

Local Open Scope Z_scope.

(** ** Machine integers *)

Module Machine.

Definition u64 (z : Z) : Z := z mod 2 ^ 64.
Definition u32 (z : Z) : Z := z mod 2 ^ 32.
Definition to_uchar (z : Z) : Z := z mod 2 ^ 8.

(** Conversion to [int] (two's complement, as gcc and clang define it). *)
Definition to_int (z : Z) : Z := (z + 2 ^ 31) mod 2 ^ 32 - 2 ^ 31.

(** Conversion to [long] and [ssize_t]. *)
Definition to_long (z : Z) : Z := (z + 2 ^ 63) mod 2 ^ 64 - 2 ^ 63.

Definition INT_MAX : Z := 2 ^ 31 - 1.
Definition ULONG_MAX : Z := 2 ^ 64 - 1.

End Machine.

(** ** C strings and the scanning primitives of the C library *)

Module CStr.

Definition cstring := list ascii.

Definition NUL : ascii := "000"%char.
Definition dquote : ascii := "034"%char.
Definition backslash : ascii := "\"%char.
Definition CR : ascii := "013"%char.
Definition LF : ascii := "010"%char.

Definition lit (s : string) : cstring := list_ascii_of_string s.

Definition code (c : ascii) : Z := Z.of_nat (nat_of_ascii c).

Definition is_nul (c : ascii) : bool := code c =? 0.

(** [buf[i]]; past the end of the modelled memory the byte reads as NUL. *)
Definition char_at (buf : cstring) (i : nat) : ascii := nth i buf NUL.

(** The characters of the C string that starts at [buf], for a [buf] that
    holds one: up to the first NUL, or all of the list when the list is
    the string without its terminator.  A block that holds no NUL is not
    a string; see [terminated] and [on_block]. *)
Fixpoint until_nul (buf : cstring) : cstring :=
  match buf with
  | [] => []
  | c :: rest => if is_nul c then [] else c :: until_nul rest
  end.

Definition strlen (buf : cstring) : nat := length (until_nul buf).

(** Whether the object holds a NUL at all. *)
Definition terminated (buf : cstring) : bool := existsb is_nul buf.

Fixpoint is_prefix (p s : cstring) : bool :=
  match p, s with
  | [], _ => true
  | _ :: _, [] => false
  | a :: p', b :: s' => (code a =? code b) && is_prefix p' s'
  end.

(** [strstr]: offset of the first occurrence of [needle] in the string. *)
Fixpoint find_from (needle s : cstring) (off : nat) : option nat :=
  if is_prefix needle s then Some off
  else match s with
       | [] => None
       | _ :: s' => find_from needle s' (S off)
       end.

Definition strstr (haystack needle : cstring) : option nat :=
  find_from (until_nul needle) (until_nul haystack) 0%nat.

Definition tolower (c : ascii) : Z :=
  let n := code c in
  if (65 <=? n) && (n <=? 90) then n + 32 else n.

(** [strncasecmp]: difference of the first pair of characters that differ
    ignoring case, within the first [n] characters and up to a NUL. *)
Fixpoint strncasecmp (a b : cstring) (n : nat) : Z :=
  match n with
  | O => 0
  | S n' =>
      let ca := char_at a 0 in
      let cb := char_at b 0 in
      if negb (tolower ca =? tolower cb) then tolower ca - tolower cb
      else if is_nul ca then 0
      else strncasecmp (tl a) (tl b) n'
  end.

(** [isspace] in the C locale. *)
Definition isspace (c : ascii) : bool :=
  let n := code c in
  (n =? 32) || ((9 <=? n) && (n <=? 13)).

Definition hex_value (c : ascii) : option Z :=
  let n := code c in
  if (48 <=? n) && (n <=? 57) then Some (n - 48)
  else if (97 <=? n) && (n <=? 102) then Some (n - 87)
  else if (65 <=? n) && (n <=? 70) then Some (n - 55)
  else None.

Fixpoint skip_space (s : cstring) : cstring :=
  match s with
  | c :: rest => if isspace c then skip_space rest else s
  | [] => []
  end.

Fixpoint skip_nonspace (s : cstring) : cstring :=
  match s with
  | c :: rest => if isspace c then s else skip_nonspace rest
  | [] => []
  end.

(** The run of hexadecimal digits at the head of [s]: its value, how many
    digits it has, and what follows it. *)
Fixpoint hex_run (s : cstring) (acc : Z) (n : nat) : Z * nat * cstring :=
  match s with
  | c :: rest =>
      match hex_value c with
      | Some d => hex_run rest (16 * acc + d) (S n)
      | None => (acc, n, s)
      end
  | [] => (acc, n, [])
  end.

(** Outcome of one scanf directive. *)
Inductive scan (A : Type) : Type :=
| Scanned (v : A) (rest : cstring)
| MatchFail            (* matching failure: the input does not fit *)
| InputFail.           (* input failure: end of the string *)
Arguments Scanned {A} v rest.
Arguments MatchFail {A}.
Arguments InputFail {A}.

Definition is_x (c : ascii) : bool := (code c =? 120) || (code c =? 88).

(** The body of an [%x]-family conversion once white space is skipped:
    an optional sign, an optional [0x] prefix, then hexadecimal digits,
    converted as [strtoul] does (saturating at [ULONG_MAX], a leading
    minus negating modulo 2^64).  As in glibc a bare [0x] counts as the
    number 0. *)
Definition hex_number (s : cstring) : scan Z :=
  let '(neg, s1) :=
    match s with
    | c :: rest =>
        if code c =? 45 then (true, rest)
        else if code c =? 43 then (false, rest)
        else (false, s)
    | [] => (false, [])
    end in
  let '(prefixed, s2) :=
    match s1 with
    | z :: x :: rest =>
        if (code z =? 48) && is_x x then (true, rest) else (false, s1)
    | _ => (false, s1)
    end in
  let '(v, n, rest) := hex_run s2 0 0 in
  if (n =? 0)%nat && negb prefixed then MatchFail
  else if Machine.ULONG_MAX <? v then Scanned Machine.ULONG_MAX rest
  else Scanned (if neg then Machine.u64 (- v) else v) rest.

(** [%lx], [%x], [%hhx]: skip white space, then a hexadecimal number. *)
Definition scan_hex (s : cstring) : scan Z :=
  match skip_space s with
  | [] => InputFail
  | s' => hex_number s'
  end.

(** [%*s]: skip white space, then a non-empty run of non-space
    characters, assigned nowhere. *)
Definition scan_skip_word (s : cstring) : scan unit :=
  match skip_space s with
  | [] => InputFail
  | s' => Scanned tt (skip_nonspace s')
  end.

(** An ordinary character of the format string. *)
Definition scan_char (c : ascii) (s : cstring) : scan unit :=
  match s with
  | [] => InputFail
  | d :: rest => if code d =? code c then Scanned tt rest else MatchFail
  end.

(** [n] repetitions of the directive group [" 0x%x"]; [narrow] is the
    conversion to the width of the receiving object.  [assigned] holds
    the items stored so far, in order. *)
Fixpoint scan_hex_items (narrow : Z -> Z) (n : nat) (s : cstring)
    (assigned : list Z) : scan unit * list Z :=
  match n with
  | O => (Scanned tt s, assigned)
  | S n' =>
      match scan_char "0"%char (skip_space s) with
      | Scanned _ s1 =>
          match scan_char "x"%char s1 with
          | Scanned _ s2 =>
              match scan_hex s2 with
              | Scanned v s3 =>
                  scan_hex_items narrow n' s3 (assigned ++ [narrow v])
              | MatchFail => (MatchFail, assigned)
              | InputFail => (InputFail, assigned)
              end
          | MatchFail => (MatchFail, assigned)
          | InputFail => (InputFail, assigned)
          end
      | MatchFail => (MatchFail, assigned)
      | InputFail => (InputFail, assigned)
      end
  end.

(** What [sscanf] returns: the number of items assigned, or [EOF] (-1)
    when the input ran out before anything was assigned. *)
Definition scanf_return {A} (r : scan A) (assigned : list Z) : Z :=
  match r, assigned with
  | InputFail, [] => -1
  | _, _ => Z.of_nat (length assigned)
  end.

(** [sscanf(line, "%*s 0x%x ... 0x%x", &values[0], ...)] with [n] hex
    items.  Returns the C return value and the array afterwards. *)
Definition sscanf_dump (narrow : Z -> Z) (n : nat) (line : cstring)
    (values : list Z) : Z * list Z :=
  match scan_skip_word (until_nul line) with
  | Scanned _ s1 =>
      let '(r, assigned) := scan_hex_items narrow n s1 [] in
      (scanf_return r assigned,
       assigned ++ skipn (length assigned) values)
  | MatchFail => (0, values)
  | InputFail => (-1, values)
  end.

(** [sscanf(s, "%lx", &reg)]. *)
Definition sscanf_lx (s : cstring) : Z * option Z :=
  match scan_hex (until_nul s) with
  | Scanned v _ => (1, Some v)
  | MatchFail => (0, None)
  | InputFail => (-1, None)
  end.

(** Where the scan of a hexadecimal number at the head of [s] stops: what
    is left behind the sign, the prefix and the digits, whether or not
    they make a number. *)
Definition hex_rest (s : cstring) : cstring :=
  let s1 :=
    match s with
    | c :: rest => if (code c =? 45) || (code c =? 43) then rest else s
    | [] => []
    end in
  let s2 :=
    match s1 with
    | z :: x :: rest => if (code z =? 48) && is_x x then rest else s1
    | _ => s1
    end in
  snd (hex_run s2 0 0).

(** Whether [sscanf(s, "%lx", &reg)] reads as far as the terminator of
    [s]: it does unless a character that cannot continue the number
    stops it before. *)
Definition sscanf_lx_to_end (s : cstring) : bool :=
  match hex_rest (skip_space (until_nul s)) with
  | [] => true
  | _ :: _ => false
  end.

End CStr.

(** ** Undefined behaviour made explicit *)

Module Outcome.

Inductive fault : Type :=
| OutOfBounds      (* an access outside the object a pointer points into *)
| NullPointer      (* a call or access through a null pointer *)
| OutOfFuel.       (* the step budget of a modelled loop ran out *)

Inductive outcome (A : Type) : Type :=
| Ok (a : A)
| Fault (f : fault).
Arguments Ok {A} a.
Arguments Fault {A} f.

#[export] Instance outcome_ret : MRet outcome := fun A a => Ok a.
#[export] Instance outcome_bind : MBind outcome := fun A B k m =>
  match m with
  | Ok a => k a
  | Fault f => Fault f
  end.

End Outcome.

(** ** The world outside the program, and the program's globals *)

Module Env.
Import CStr.

(** What one call of [poll(&pfd, 1, 5)] on the monitor socket returns. *)
Inductive poll_result : Type :=
| PollTimeout                               (* 0: nothing within 5 ms *)
| PollFail                                  (* -1 *)
| PollReady (pollin : bool) (avail : cstring).
    (* > 0; [pollin] tells whether POLLIN is set in [revents]; [avail] is
       what the socket hands to the read that follows, as far as that read
       asks for it (what a later read sees is for a later poll result to
       say) *)

(** A stdio stream on a memory image.  The content is a function of the
    offset so that images of several GiB can be written down. *)
Record FILE : Type := {
  f_len : Z;                  (* size of the file *)
  f_data : Z -> ascii;        (* its bytes *)
  f_bad : option Z;           (* offset of a byte the device fails on *)
  f_seekable : bool;
  f_pos : Z;
  f_eof : bool;               (* the end-of-file indicator *)
  f_err : bool                (* the error indicator *)
}.

Inductive guest_access_t : Type := GUEST_NAME | GUEST_MEMORY | QMP_SOCKET.

(** The functions a [guest_client_t] can point to. *)
Inductive get_registers_fn : Type :=
| libvirt_get_registers_fn | file_get_registers_fn | qmp_get_registers_fn.

Inductive readmem_fn : Type :=
| libvirt_readmem_fn | file_readmem_fn | qmp_readmem_fn.

(** [guest_client_t]; [None] is a null function pointer, which is what
    [xcalloc] leaves in a fresh object. *)
Record guest_client_t : Type := {
  ty : guest_access_t;
  get_registers : option get_registers_fn;
  readmem : option readmem_fn
}.

(** The calls into libvirt that open, look up or release a handle. *)
Inductive libvirt_call : Type :=
| ConnectOpen                                    (* virConnectOpen *)
| DomainLookupByName (conn : Z) (name : cstring) (* virDomainLookupByName *)
| ConnectClose (conn : Z)                        (* virConnectClose *)
| DomainFree (dom : Z).                          (* virDomainFree *)

(** The caller's three register cells. *)
Record registers : Type := { idtr : Z; cr3 : Z; cr4 : Z }.

Record world : Type := {
  (* oracles: the operating system and libvirt *)
  socket_ret : Z;                             (* socket(2) *)
  connect_ret : Z;                            (* connect(2) *)
  polls : list poll_result;                   (* successive poll(2) calls *)
  xwrite_rets : list Z;                       (* successive xwrite calls *)
  virConnectOpen_ret : option Z;              (* virConnectOpen *)
  virDomainLookupByName_ret : cstring -> option Z;   (* by guest name *)
  monitor_replies : list (option cstring);    (* virDomainQemuMonitorCommand *)
  fopen_rb : cstring -> option FILE;
  heap_junk : nat -> ascii;    (* what fresh heap memory holds, by offset *)
  (* observable effects *)
  sent : list cstring;                        (* data handed to xwrite *)
  monitor_sent : list cstring;                (* HMP commands issued *)
  log : list string;                          (* pr_err, pr_warning *)
  libvirt_calls : list libvirt_call;          (* calls into libvirt *)
  (* globals of the two translation units *)
  qmp_fd : Z;
  guest_client : option guest_client_t;
  domain : option Z;
  domain_conn : option Z;
  mem_file : option FILE
}.

Definition set_polls (p : list poll_result) (w : world) : world :=
  {| socket_ret := socket_ret w; connect_ret := connect_ret w; polls := p;
     xwrite_rets := xwrite_rets w;
     virConnectOpen_ret := virConnectOpen_ret w;
     virDomainLookupByName_ret := virDomainLookupByName_ret w;
     monitor_replies := monitor_replies w; fopen_rb := fopen_rb w;
     heap_junk := heap_junk w;
     sent := sent w; monitor_sent := monitor_sent w; log := log w;
     libvirt_calls := libvirt_calls w;
     qmp_fd := qmp_fd w; guest_client := guest_client w;
     domain := domain w; domain_conn := domain_conn w;
     mem_file := mem_file w |}.

Definition set_xwrite (r : list Z) (s : list cstring) (w : world) : world :=
  {| socket_ret := socket_ret w; connect_ret := connect_ret w;
     polls := polls w; xwrite_rets := r;
     virConnectOpen_ret := virConnectOpen_ret w;
     virDomainLookupByName_ret := virDomainLookupByName_ret w;
     monitor_replies := monitor_replies w; fopen_rb := fopen_rb w;
     heap_junk := heap_junk w;
     sent := s; monitor_sent := monitor_sent w; log := log w;
     libvirt_calls := libvirt_calls w;
     qmp_fd := qmp_fd w; guest_client := guest_client w;
     domain := domain w; domain_conn := domain_conn w;
     mem_file := mem_file w |}.

Definition set_monitor (r : list (option cstring)) (s : list cstring)
    (w : world) : world :=
  {| socket_ret := socket_ret w; connect_ret := connect_ret w;
     polls := polls w; xwrite_rets := xwrite_rets w;
     virConnectOpen_ret := virConnectOpen_ret w;
     virDomainLookupByName_ret := virDomainLookupByName_ret w;
     monitor_replies := r; fopen_rb := fopen_rb w;
     heap_junk := heap_junk w;
     sent := sent w; monitor_sent := s; log := log w;
     libvirt_calls := libvirt_calls w;
     qmp_fd := qmp_fd w; guest_client := guest_client w;
     domain := domain w; domain_conn := domain_conn w;
     mem_file := mem_file w |}.

Definition set_log (l : list string) (w : world) : world :=
  {| socket_ret := socket_ret w; connect_ret := connect_ret w;
     polls := polls w; xwrite_rets := xwrite_rets w;
     virConnectOpen_ret := virConnectOpen_ret w;
     virDomainLookupByName_ret := virDomainLookupByName_ret w;
     monitor_replies := monitor_replies w; fopen_rb := fopen_rb w;
     heap_junk := heap_junk w;
     sent := sent w; monitor_sent := monitor_sent w; log := l;
     libvirt_calls := libvirt_calls w;
     qmp_fd := qmp_fd w; guest_client := guest_client w;
     domain := domain w; domain_conn := domain_conn w;
     mem_file := mem_file w |}.

Definition set_qmp_fd (fd : Z) (w : world) : world :=
  {| socket_ret := socket_ret w; connect_ret := connect_ret w;
     polls := polls w; xwrite_rets := xwrite_rets w;
     virConnectOpen_ret := virConnectOpen_ret w;
     virDomainLookupByName_ret := virDomainLookupByName_ret w;
     monitor_replies := monitor_replies w; fopen_rb := fopen_rb w;
     heap_junk := heap_junk w;
     sent := sent w; monitor_sent := monitor_sent w; log := log w;
     libvirt_calls := libvirt_calls w;
     qmp_fd := fd; guest_client := guest_client w;
     domain := domain w; domain_conn := domain_conn w;
     mem_file := mem_file w |}.

Definition set_guest_client (c : option guest_client_t) (w : world) : world :=
  {| socket_ret := socket_ret w; connect_ret := connect_ret w;
     polls := polls w; xwrite_rets := xwrite_rets w;
     virConnectOpen_ret := virConnectOpen_ret w;
     virDomainLookupByName_ret := virDomainLookupByName_ret w;
     monitor_replies := monitor_replies w; fopen_rb := fopen_rb w;
     heap_junk := heap_junk w;
     sent := sent w; monitor_sent := monitor_sent w; log := log w;
     libvirt_calls := libvirt_calls w;
     qmp_fd := qmp_fd w; guest_client := c;
     domain := domain w; domain_conn := domain_conn w;
     mem_file := mem_file w |}.

Definition set_domain (d : option Z) (w : world) : world :=
  {| socket_ret := socket_ret w; connect_ret := connect_ret w;
     polls := polls w; xwrite_rets := xwrite_rets w;
     virConnectOpen_ret := virConnectOpen_ret w;
     virDomainLookupByName_ret := virDomainLookupByName_ret w;
     monitor_replies := monitor_replies w; fopen_rb := fopen_rb w;
     heap_junk := heap_junk w;
     sent := sent w; monitor_sent := monitor_sent w; log := log w;
     libvirt_calls := libvirt_calls w;
     qmp_fd := qmp_fd w; guest_client := guest_client w;
     domain := d; domain_conn := domain_conn w;
     mem_file := mem_file w |}.

Definition set_domain_conn (c : option Z) (w : world) : world :=
  {| socket_ret := socket_ret w; connect_ret := connect_ret w;
     polls := polls w; xwrite_rets := xwrite_rets w;
     virConnectOpen_ret := virConnectOpen_ret w;
     virDomainLookupByName_ret := virDomainLookupByName_ret w;
     monitor_replies := monitor_replies w; fopen_rb := fopen_rb w;
     heap_junk := heap_junk w;
     sent := sent w; monitor_sent := monitor_sent w; log := log w;
     libvirt_calls := libvirt_calls w;
     qmp_fd := qmp_fd w; guest_client := guest_client w;
     domain := domain w; domain_conn := c;
     mem_file := mem_file w |}.

Definition set_mem_file (f : option FILE) (w : world) : world :=
  {| socket_ret := socket_ret w; connect_ret := connect_ret w;
     polls := polls w; xwrite_rets := xwrite_rets w;
     virConnectOpen_ret := virConnectOpen_ret w;
     virDomainLookupByName_ret := virDomainLookupByName_ret w;
     monitor_replies := monitor_replies w; fopen_rb := fopen_rb w;
     heap_junk := heap_junk w;
     sent := sent w; monitor_sent := monitor_sent w; log := log w;
     libvirt_calls := libvirt_calls w;
     qmp_fd := qmp_fd w; guest_client := guest_client w;
     domain := domain w; domain_conn := domain_conn w;
     mem_file := f |}.

Definition set_libvirt_calls (c : list libvirt_call) (w : world) : world :=
  {| socket_ret := socket_ret w; connect_ret := connect_ret w;
     polls := polls w; xwrite_rets := xwrite_rets w;
     virConnectOpen_ret := virConnectOpen_ret w;
     virDomainLookupByName_ret := virDomainLookupByName_ret w;
     monitor_replies := monitor_replies w; fopen_rb := fopen_rb w;
     heap_junk := heap_junk w;
     sent := sent w; monitor_sent := monitor_sent w; log := log w;
     libvirt_calls := c;
     qmp_fd := qmp_fd w; guest_client := guest_client w;
     domain := domain w; domain_conn := domain_conn w;
     mem_file := mem_file w |}.

(** A call into libvirt goes on record. *)
Definition libvirt_called (c : libvirt_call) (w : world) : world :=
  set_libvirt_calls (libvirt_calls w ++ [c]) w.

(** [pr_err(fmt, ...)] and [pr_warning(fmt, ...)]: the format string is
    what the log keeps. *)
Definition pr_err (msg : string) (w : world) : world :=
  set_log (log w ++ [msg]) w.
Definition pr_warning (msg : string) (w : world) : world :=
  set_log (log w ++ [msg]) w.

(** A quiet world: every call succeeds, nothing arrives, nothing is open. *)
Definition calm : world :=
  {| socket_ret := 3; connect_ret := 0; polls := []; xwrite_rets := [];
     virConnectOpen_ret := Some 1;
     virDomainLookupByName_ret := fun _ => Some 1;
     monitor_replies := []; fopen_rb := fun _ => None;
     heap_junk := fun _ => NUL;
     sent := []; monitor_sent := []; log := []; libvirt_calls := [];
     qmp_fd := 0; guest_client := None; domain := None;
     domain_conn := None; mem_file := None |}.

End Env.

(** ** The QMP socket client *)

Module Qmp.
Import Machine CStr Outcome Env.

(** The double quotes inside the protocol strings are written as
    apostrophes below; none of the strings has an apostrophe of its own. *)
Definition q (s : string) : cstring :=
  map (fun c => if code c =? 39 then dquote else c) (lit s).

Definition QMP_GREETING : cstring := q "{'QMP':".
Definition QMP_ENTER_COMMAND_MODE : cstring :=
  q "{ 'execute': 'qmp_capabilities' }".
Definition QMP_COMMAND_MODE_OK : cstring := q "{'return': {}}" ++ [CR; LF].
Definition QMP_COMMAND_INFO_REGS : cstring :=
  q "{'execute': 'human-monitor-command', 'arguments': {'command-line': 'info registers'}}".

Definition decimal (z : Z) : cstring :=
  lit (DecimalString.NilZero.string_of_uint (N.to_uint (Z.to_N z))).
Definition hexadecimal (z : Z) : cstring :=
  lit (HexadecimalString.NilZero.string_of_uint (N.to_hex_uint (Z.to_N z))).

(** [snprintf(cmd, sizeof(cmd), QMP_COMMAND_XP, size, addr)] with
    [char cmd[256]]. *)
Definition QMP_COMMAND_XP (size addr : Z) : cstring :=
  firstn 255
    (q "{'execute': 'human-monitor-command', 'arguments': {'command-line': 'xp /"
       ++ decimal size ++ lit "xb 0x" ++ hexadecimal addr ++ q "'}}").

(** Modelled from the spec: [xread] belongs to xutil, which is outside
    the sources at hand; it is the raw read primitive and hands over at
    most [count] of the bytes the descriptor has to deliver. *)
Definition xread (count : nat) (avail : cstring) : cstring :=
  firstn count avail.

(** Modelled from the spec: [xwrite] belongs to xutil as well; it reports
    how many bytes went out, which the world decides (all of them once
    the oracle is silent).  The data is recorded in [sent]. *)
Definition xwrite (data : cstring) (w : world) : Z * world :=
  match xwrite_rets w with
  | r :: rest => (u64 r, set_xwrite rest (sent w ++ [data]) w)
  | [] => (Z.of_nat (length data), set_xwrite [] (sent w ++ [data]) w)
  end.

(** Modelled from the spec: [xmalloc] (xutil) returns a block that is
    not initialised: its bytes are whatever the heap held there. *)
Definition xmalloc (n : Z) (w : world) : cstring :=
  map (heap_junk w) (seq 0 (Z.to_nat n)).

(** A call that hands [block], memory the code has not terminated, to a
    function that expects a string.  [to_end] tells whether the callee
    reads as far as the terminator of the string at [block]; when it does
    and the block holds no NUL, the read leaves the block. *)
Definition on_block {A : Type} (block : cstring) (to_end : bool)
    (call : outcome A) : outcome A :=
  if to_end && negb (terminated block) then Fault OutOfBounds else call.

(** Memory at [buf] once [written] has been stored from its start. *)
Definition stored (buf written : cstring) : cstring :=
  written ++ skipn (length written) buf.

(** The loop of [qmp_read].  [cap] is the size of the object [buf]
    points into, which the C function is never told; [written] is what has
    been stored from [buf] on, [tread] the running total. *)
Fixpoint qmp_read_loop (cap : nat) (ps : list poll_result) (tread : Z)
    (written : cstring) : outcome (Z * Z * cstring * list poll_result) :=
  match ps with
  | [] => Ok (0, tread, written, [])
  | PollTimeout :: rest => Ok (0, tread, written, rest)
  | PollFail :: rest => Ok (-1, tread, written, rest)
  | PollReady pollin avail :: rest =>
      if pollin then
        (* read at max 1k at a time *)
        let chunk := xread 1024 avail in
        if (cap <? length written + length chunk)%nat then Fault OutOfBounds
        else qmp_read_loop cap rest (u64 (tread + Z.of_nat (length chunk)))
               (written ++ chunk)
      else qmp_read_loop cap rest tread written
  end.

(** [qmp_read(fd, buf, &len)]: the return value, [*len] (meaningful when
    the return value is 0), the buffer afterwards. *)
Definition qmp_read (buf : cstring) (w : world)
    : outcome (Z * Z * cstring * world) :=
  '(r, tread, written, rest) ← qmp_read_loop (length buf) (polls w) 0 [];
  Ok (r, tread, stored buf written, set_polls rest w).

(** [sizeof(saddr.sun_path)] on Linux. *)
Definition SUN_PATH_SIZE : nat := 108.

Definition qmp_establish_conn (sock_path : cstring) (w : world)
    : outcome (Z * world) :=
  let path_len := strlen sock_path in
  if (path_len =? 0)%nat then Ok (-1, w)
  else
    let s := socket_ret w in
    if s <? 0 then Ok (-1, w)
    else if (SUN_PATH_SIZE <=? path_len)%nat then Fault OutOfBounds
    else
      let w := set_qmp_fd s w in
      if connect_ret w =? -1 then
        Ok (-1, pr_err "Failed to connect to '%s' ('%s')" w)
      else
        let buf := repeat NUL 512 in
        '(r, nread, buf, w) ← qmp_read buf w;
        if r =? -1 then Ok (-1, w)
        else if (nread =? 0)
                && negb (strncasecmp buf QMP_GREETING (strlen QMP_GREETING) =? 0)
        then Ok (-1, pr_err "Failed to get QMP greeting message" w)
        else Ok (0, w).

Definition qmp_negotiate (w : world) : outcome (Z * world) :=
  let err_exit w := Ok (-1, pr_err "Failed to enter in command mode" w) in
  let '(nwrite, w) := xwrite QMP_ENTER_COMMAND_MODE w in
  if nwrite =? 0 then err_exit w
  else
    let buf := repeat NUL 512 in
    '(r, nread, buf, w) ← qmp_read buf w;
    if r =? -1 then err_exit w
    else if negb (strncasecmp buf QMP_COMMAND_MODE_OK (Z.to_nat nread) =? 0)
    then err_exit w
    else Ok (0, w).

Definition qmp_client_init (sock_path : cstring) (w : world)
    : outcome (Z * world) :=
  '(r, w) ← qmp_establish_conn sock_path w;
  if r =? -1 then Ok (-1, pr_err "Unable to talk to qemu monitor" w)
  else
    '(r, w) ← qmp_negotiate w;
    if r =? -1 then Ok (-1, pr_err "Failed to negotiate qmp commands" w)
    else Ok (0, w).

(** The scan of [qmp_populate_reg] for the character after the first
    ['=']. *)
Fixpoint after_equals (s : cstring) : cstring :=
  match s with
  | [] => []
  | c :: rest => if code c =? 61 then rest else after_equals rest
  end.

(** [qmp_populate_reg(buf, reg_name, &reg)]: the return value and, when a
    value was stored, that value. *)
Definition qmp_populate_reg (buf reg_name : cstring) : Z * option Z :=
  match strstr buf reg_name with
  | None => (-1, None)
  | Some off =>
      let start := after_equals (skipn off (until_nul buf)) in
      match sscanf_lx start with
      | (1, Some v) => (0, Some v)
      | _ => (-1, None)
      end
  end.

Definition set_cr3 (v : option Z) (r : registers) : registers :=
  match v with
  | Some v => {| idtr := idtr r; cr3 := v; cr4 := cr4 r |}
  | None => r
  end.
Definition set_cr4 (v : option Z) (r : registers) : registers :=
  match v with
  | Some v => {| idtr := idtr r; cr3 := cr3 r; cr4 := v |}
  | None => r
  end.
Definition set_idtr (v : option Z) (r : registers) : registers :=
  match v with
  | Some v => {| idtr := v; cr3 := cr3 r; cr4 := cr4 r |}
  | None => r
  end.

(** Whether [qmp_populate_reg(buf, reg_name, &reg)] reads as far as the
    terminator of the string at [buf]: [strstr] does when the name does
    not occur, the scan for ['='] when there is none (the [sscanf] that
    follows then starts at the terminator), and [sscanf] when the string
    ends before the number does. *)
Definition populate_reg_to_end (buf reg_name : cstring) : bool :=
  match strstr buf reg_name with
  | None => true
  | Some off => sscanf_lx_to_end (after_equals (skipn off (until_nul buf)))
  end.

(** [qmp_populate_reg(buf, reg_name, &reg)] as [qmp_get_registers] calls
    it: [buf] is the block [qmp_read] has filled, which nothing
    terminates. *)
Definition populate_reg_in (buf reg_name : cstring)
    : outcome (Z * option Z) :=
  on_block buf (populate_reg_to_end buf reg_name)
    (Ok (qmp_populate_reg buf reg_name)).

(** The three lookups of [qmp_get_registers] on the response in [buf]. *)
Definition populate_all (buf : cstring) (regs : registers) (w : world)
    : outcome (Z * registers * world) :=
  '(r, v) ← populate_reg_in buf (lit "CR3");
  let regs := set_cr3 v regs in
  if r =? -1 then Ok (-1, regs, pr_err "Failed to get register CR3" w)
  else
    '(r, v) ← populate_reg_in buf (lit "CR4");
    let regs := set_cr4 v regs in
    if r =? -1 then Ok (-1, regs, pr_err "Failed to get register CR4" w)
    else
      '(r, v) ← populate_reg_in buf (lit "IDT");
      let regs := set_idtr v regs in
      if r =? -1 then Ok (-1, regs, pr_err "Failed to get register IDT" w)
      else Ok (0, regs, w).

Definition qmp_get_registers (regs : registers) (w : world)
    : outcome (Z * registers * world) :=
  let cmd_len_regs := Z.of_nat (strlen QMP_COMMAND_INFO_REGS) in
  let '(nwrite, w) := xwrite QMP_COMMAND_INFO_REGS w in
  if negb (nwrite =? cmd_len_regs) then Ok (-1, regs, w)
  else
    let buf := xmalloc 8192 w in
    '(r, nread, buf, w) ← qmp_read buf w;
    if (r =? -1) || (nread <=? 0)
    then Ok (-1, regs, pr_err "Failed to get read" w)
    else populate_all buf regs w.

(** *** Memory dumps *)

(** [buffer[at] = v] inside the object [mem]. *)
Definition poke (mem : list Z) (at_ : nat) (v : Z) : outcome (list Z) :=
  if (at_ <? length mem)%nat then Ok (<[at_ := v]> mem)
  else Fault OutOfBounds.

(** [for (i = 0; i < num; i++) buffer[pos++] = values[i];] with the
    values to copy given as a list; [at_] is the index of [buffer[pos]]
    in [mem]. *)
Fixpoint copy_values (vals : list Z) (mem : list Z) (at_ : nat)
    : outcome (list Z) :=
  match vals with
  | [] => Ok mem
  | v :: rest => mem' ← poke mem at_ v; copy_values rest mem' (S at_)
  end.

(** [sizeof(line)] in [qmp_populate_mem]. *)
Definition LINE_SIZE : nat := 128.

(** The locals of [qmp_populate_mem]: [start] as an offset into [input],
    [line[0 .. line_index)] as a list, the output object [mem]. *)
Record dump_state : Type := {
  d_start : nat;
  d_line : cstring;
  d_values : list Z;
  d_mem : list Z;
  d_pos : nat
}.

Definition is_escape (input : cstring) (start : nat) (letter : Z) : bool :=
  (code (char_at input start) =? code backslash)
  && (code (char_at input (S start)) =? letter).

(** One turn of the [while] loop, the loop condition already found true. *)
Definition dump_step (input : cstring) (off : nat) (d : dump_state)
    : outcome dump_state :=
  if is_escape input (d_start d) 114 (* \r *) then
    if (LINE_SIZE <=? length (d_line d))%nat then Fault OutOfBounds
    else
      let '(num, values) :=
        sscanf_dump to_uchar 8 (d_line d ++ [NUL]) (d_values d) in
      let copied := firstn (Z.to_nat num) values in
      mem ← copy_values copied (d_mem d) (off + d_pos d);
      Ok {| d_start := d_start d + 2; d_line := []; d_values := values;
            d_mem := mem; d_pos := d_pos d + length copied |}
  else if is_escape input (d_start d) 110 (* \n *) then
    Ok {| d_start := d_start d + 2; d_line := d_line d;
          d_values := d_values d; d_mem := d_mem d; d_pos := d_pos d |}
  else
    if (LINE_SIZE <=? length (d_line d))%nat then Fault OutOfBounds
    else
      Ok {| d_start := S (d_start d);
            d_line := d_line d ++ [char_at input (d_start d)];
            d_values := d_values d; d_mem := d_mem d; d_pos := d_pos d |}.

Definition dump_continues (input : cstring) (len size : Z) (d : dump_state)
    : bool :=
  negb (code (char_at input (d_start d)) =? code dquote)
  && (Z.of_nat (d_start d) <? len)
  && (Z.of_nat (d_pos d) <? size).

Fixpoint dump_loop (fuel : nat) (input : cstring) (len size : Z)
    (off : nat) (d : dump_state) : outcome dump_state :=
  match fuel with
  | O => Fault OutOfFuel
  | S fuel' =>
      if dump_continues input len size d then
        d' ← dump_step input off d;
        dump_loop fuel' input len size off d'
      else Ok d
  end.

Definition return_start : cstring := q "'return': '".

(** [qmp_populate_mem(input, len, buffer, size)] where [buffer] points
    [off] bytes into the object [mem]. *)
Definition qmp_populate_mem (input : cstring) (len : Z) (mem : list Z)
    (off : nat) (size : Z) (w : world) : outcome (Z * list Z * world) :=
  match strstr input return_start with
  | None => Ok (-1, mem, pr_err "Can not found start" w)
  | Some at_ =>
      let d := {| d_start := at_ + strlen return_start; d_line := [];
                  d_values := repeat 0 8; d_mem := mem; d_pos := 0 |} in
      d' ← dump_loop (S (Z.to_nat len)) input len size off d;
      Ok (0, d_mem d', w)
  end.

(** [qmp_readmem_part(addr, buffer, size)], [buffer] pointing [off]
    bytes into [mem]. *)
Definition qmp_readmem_part (addr : Z) (off : nat) (size : Z)
    (s : list Z * world) : outcome (Z * (list Z * world)) :=
  let '(mem, w) := s in
  if size <=? 0 then
    Ok (to_int size, (mem, pr_warning "Invalid input size: %ld" w))
  else
    let cmd := QMP_COMMAND_XP size addr in
    let cmd_len_regs := Z.of_nat (strlen cmd) in
    let '(nwrite, w) := xwrite cmd w in
    if negb (nwrite =? cmd_len_regs) then Ok (-1, (mem, w))
    else
      let buf_len := u64 (1024 + size * 8) in
      let buf := xmalloc buf_len w in
      '(r, nread, buf, w) ← qmp_read buf w;
      if (r =? -1) || (nread <=? 0)
      then Ok (-1, (mem, pr_err "Failed to get read" w))
      else
        (* [buf] is not terminated: the [strstr] of [qmp_populate_mem]
           reads to the end of the string when the marker is not there *)
        '(_, mem, w) ←
          on_block buf
            (match strstr buf return_start with None => true | Some _ => false end)
            (qmp_populate_mem buf buf_len mem off size w);
        Ok (0, (mem, w)).

(** *** The segment loop shared by [qmp_readmem] and [libvirt_readmem]

    The two functions are the same text up to the name of the
    single-segment reader they call, which is the parameter [part]. *)
Section Chunked.
Context {St : Type}.
Variable part : Z -> nat -> Z -> St -> outcome (Z * St).

Definition step : Z := 4096.

Inductive loop_exit : Type :=
| Returned (r : Z)                      (* a [return] inside the loop *)
| Completed (addr : Z) (buf : nat).     (* the loop condition failed *)

(** [for (i = 0; i < size / step; i++) ...]: [i] is an [int] compared
    with a [size_t], hence converted to it. *)
Fixpoint segment_loop (fuel : nat) (i addr : Z) (buf : nat) (size : Z)
    (s : St) : outcome (loop_exit * St) :=
  match fuel with
  | O => Fault OutOfFuel
  | S fuel' =>
      if u64 i <? size / step then
        '(r, s) ← part addr buf step s;
        if negb (r =? 0) then Ok (Returned (-1), s)
        else segment_loop fuel' (to_int (i + 1)) (u64 (addr + step))
               (buf + Z.to_nat step) size s
      else Ok (Completed addr buf, s)
  end.

Definition readmem_chunked (addr : Z) (size : Z) (s : St)
    : outcome (Z * St) :=
  let left := size mod step in
  '(e, s) ← segment_loop (S (Z.to_nat (size / step))) 0 addr 0 size s;
  match e with
  | Returned r => Ok (r, s)
  | Completed addr buf =>
      if 0 <? left then
        '(r, s) ← part addr buf left s;
        if negb (r =? 0) then Ok (-1, s) else Ok (0, s)
      else Ok (0, s)
  end.

End Chunked.

Definition qmp_readmem (addr : Z) (size : Z) (s : list Z * world)
    : outcome (Z * (list Z * world)) :=
  readmem_chunked qmp_readmem_part addr size s.

End Qmp.

(** ** [libvirt_client.c]: the libvirt and flat-file backends, dispatch *)

Module Guest.
Import Machine CStr Outcome Env.

(** [libvirt_client_init(guest_name)].  Every call into libvirt goes on
    record in [libvirt_calls], the [virConnectClose] of the failure path
    included, which leaves the handle in [domain_conn]. *)
Definition libvirt_client_init (guest_name : cstring) (w : world)
    : Z * world :=
  let w :=
    match domain_conn w with
    | None =>
        set_domain_conn (virConnectOpen_ret w) (libvirt_called ConnectOpen w)
    | Some _ => w
    end in
  match domain_conn w with
  | None => (-1, pr_err "Failed to open connection to qemu:///system" w)
  | Some conn =>
      let w :=
        match domain w with
        | None =>
            set_domain (virDomainLookupByName_ret w guest_name)
              (libvirt_called (DomainLookupByName conn guest_name) w)
        | Some _ => w
        end in
      match domain w with
      | None =>
          (-1, libvirt_called (ConnectClose conn)
                 (pr_err "Failed to find the domain" w))
      | Some _ => (0, w)
      end
  end.

Definition file_client_init (path : cstring) (w : world) : Z * world :=
  match mem_file w with
  | Some _ => (0, w)
  | None =>
      let w := set_mem_file (fopen_rb w path) w in
      match mem_file w with
      | None => (-1, pr_err "fopen error" w)
      | Some _ => (0, w)
      end
  end.

(** *** The libvirt single-segment reader *)

(** [roundup(x, y)] of [<sys/param.h>]. *)
Definition roundup (x y : Z) : Z := (x + (y - 1)) / y * y.

(** The tokens [strtok(s, "\n")] hands out one after the other. *)
Fixpoint strtok_lines (s cur : cstring) : list cstring :=
  match s with
  | [] => match cur with [] => [] | _ => [cur] end
  | c :: rest =>
      if code c =? code LF then
        match cur with
        | [] => strtok_lines rest []
        | _ => cur :: strtok_lines rest []
        end
      else strtok_lines rest (cur ++ [c])
  end.

(** The four bytes of a [uint32_t] in memory (little endian). *)
Definition word_bytes (v : Z) : list Z :=
  [v mod 256; (v / 256) mod 256; (v / 65536) mod 256; (v / 16777216) mod 256].

(** [data[i] = v] for [uint32_t *data] at the start of [block]. *)
Definition poke_word (block : list Z) (i : nat) (v : Z) : outcome (list Z) :=
  Qmp.copy_values (word_bytes v) block (4 * i).

Fixpoint store_words (vals : list Z) (block : list Z) (i : nat)
    : outcome (list Z * nat) :=
  match vals with
  | [] => Ok (block, i)
  | v :: rest => block' ← poke_word block i v; store_words rest block' (S i)
  end.

(** The [while (line != NULL)] loop over the lines of the response. *)
Fixpoint dump_lines (lines : list cstring) (values : list Z)
    (block : list Z) (i : nat) : outcome (list Z) :=
  match lines with
  | [] => Ok block
  | line :: rest =>
      let '(num, values) := sscanf_dump u32 4 (line ++ [NUL]) values in
      '(block, i) ← store_words (firstn (Z.to_nat num) (firstn 4 values)) block i;
      dump_lines rest values block i
  end.

Definition hmp_xp_command (size start_addr : Z) : cstring :=
  firstn 63 (lit "xp /" ++ Qmp.decimal (size / 4) ++ lit "xw 0x"
             ++ Qmp.hexadecimal start_addr).

(** Modelled from the spec: [virDomainQemuMonitorCommand] is libvirt's;
    it sends the command text and yields the response text, or fails. *)
Definition virDomainQemuMonitorCommand (cmd : cstring) (w : world)
    : option cstring * world :=
  match monitor_replies w with
  | r :: rest => (r, set_monitor rest (monitor_sent w ++ [cmd]) w)
  | [] => (None, set_monitor [] (monitor_sent w ++ [cmd]) w)
  end.

(** [libvirt_dump_phy_memory(start_addr, size)]: the block it returns,
    [None] for a null pointer. *)
Definition libvirt_dump_phy_memory (start_addr size : Z) (w : world)
    : outcome (option (list Z) * world) :=
  let size := roundup size 4 in
  let buffer := map code (Qmp.xmalloc (u64 (1024 + size * 2)) w) in
  let '(reply, w) :=
    virDomainQemuMonitorCommand (hmp_xp_command size start_addr) w in
  match reply with
  | None => Ok (None, pr_err "Failed to send QMP command: %s" w)
  | Some hmp_response =>
      block ← dump_lines (strtok_lines (until_nul hmp_response) [])
                (repeat 0 4) buffer 0;
      Ok (Some block, w)
  end.

(** [memcpy(buffer, buf, size)], [buffer] pointing [off] bytes into [mem]. *)
Definition memcpy (mem : list Z) (off : nat) (src : list Z) (size : nat)
    : outcome (list Z) :=
  if ((length mem <? off + size) || (length src <? size))%nat
  then Fault OutOfBounds
  else Ok (firstn off mem ++ firstn size src ++ skipn (off + size) mem).

Definition libvirt_readmem_part (addr : Z) (off : nat) (size : Z)
    (s : list Z * world) : outcome (Z * (list Z * world)) :=
  let '(mem, w) := s in
  '(buf, w) ← libvirt_dump_phy_memory addr (to_long size) w;
  match buf with
  | None => Ok (-1, (mem, w))
  | Some buf =>
      mem ← memcpy mem off buf (Z.to_nat size);
      Ok (0, (mem, w))
  end.

Definition libvirt_readmem (addr : Z) (size : Z) (s : list Z * world)
    : outcome (Z * (list Z * world)) :=
  Qmp.readmem_chunked libvirt_readmem_part addr size s.

(** *** The flat-file backend *)

(** [fseek(f, offset, SEEK_SET)]. *)
Definition fseek_set (f : FILE) (offset : Z) : Z * FILE :=
  if (offset <? 0) || negb (f_seekable f) then (-1, f)
  else (0, {| f_len := f_len f; f_data := f_data f; f_bad := f_bad f;
              f_seekable := f_seekable f; f_pos := offset;
              f_eof := false; f_err := f_err f |}).

(** How many bytes [fread(_, 1, size, f)] delivers, and whether it
    stopped on a device error, for a request that the buffer has room
    for (see [fread]). *)
Definition fread_count (f : FILE) (size : Z) : Z * bool :=
  let upto := Z.min size (Z.max 0 (f_len f - f_pos f)) in
  match f_bad f with
  | Some b =>
      if (f_pos f <=? b) && (b <? f_pos f + upto) then (b - f_pos f, true)
      else (upto, false)
  | None => (upto, false)
  end.

Definition fread_bytes (f : FILE) (count : Z) : list Z :=
  map (fun k => code (f_data f (f_pos f + Z.of_nat k)))
      (seq 0 (Z.to_nat count)).

(** [fread(buffer, 1, size, f)], [buffer] pointing at the start of [mem].
    The array handed to [fread] has to hold the [size] elements asked
    for (C11 7.1.4, 7.21.8.1): a request for more than the object holds
    is outside what the function is defined for, however many bytes the
    stream has left. *)
Definition fread (mem : list Z) (size : Z) (f : FILE)
    : outcome (Z * list Z * FILE) :=
  if Z.of_nat (length mem) <? size then Fault OutOfBounds else
  let '(count, failed) := fread_count f size in
  mem ← memcpy mem 0 (fread_bytes f count) (Z.to_nat count);
  Ok (count, mem,
      {| f_len := f_len f; f_data := f_data f; f_bad := f_bad f;
         f_seekable := f_seekable f; f_pos := f_pos f + count;
         f_eof := f_eof f || (negb failed && (count <? size));
         f_err := f_err f || failed |}).

Definition file_readmem (addr : Z) (size : Z) (s : list Z * world)
    : outcome (Z * (list Z * world)) :=
  let '(mem, w) := s in
  match mem_file w with
  | None => Fault NullPointer
  | Some f =>
      let '(r, f) := fseek_set f (to_long addr) in
      let w := set_mem_file (Some f) w in
      if negb (r =? 0) then Ok (-1, (mem, pr_err "fseek error" w))
      else
        '(bytesRead, mem, f) ← fread mem size f;
        let w := set_mem_file (Some f) w in
        if negb (bytesRead =? size) then
          if f_eof f then Ok (to_int bytesRead, (mem, w))
          else Ok (-1, (mem, pr_err "read bytes error" w))
        else Ok (0, (mem, w))
  end.

Definition file_get_registers (regs : registers) (w : world)
    : Z * registers * world :=
  let regs := {| idtr := idtr regs; cr3 := 0x0000000019872000;
                 cr4 := cr4 regs |} in
  let regs := {| idtr := 0xffffffffff528000; cr3 := cr3 regs;
                 cr4 := cr4 regs |} in
  (0, regs, w).

(** *** Dispatch *)

Definition call_readmem (f : readmem_fn) (paddr size : Z)
    (s : list Z * world) : outcome (Z * (list Z * world)) :=
  match f with
  | libvirt_readmem_fn => libvirt_readmem paddr size s
  | file_readmem_fn => file_readmem paddr size s
  | qmp_readmem_fn => Qmp.qmp_readmem paddr size s
  end.

(** The [memtype] argument of [readmem]. *)
Inductive memtype_t : Type :=
| KVADDR
| PHYSADDR
| other_memtype (n : Z).   (* any value with no [case] of its own *)

Section Layout.
(** [defs.h] is outside the sources at hand; what [readmem] takes from
    it is kept as parameters: the base of the kernel text mapping, the
    base of the direct mapping, and [machdep->machspec->phys_base]. *)
Variable START_KERNEL_map : Z.
Variable PAGE_OFFSET : Z.
Variable phys_base : Z.
(** What the uninitialised local [paddr] happens to hold. *)
Variable paddr_junk : Z.

(** The [switch] of [readmem]. *)
Definition readmem_paddr (addr : Z) (memtype : memtype_t) : Z :=
  match memtype with
  | KVADDR =>
      if START_KERNEL_map <=? addr
      then u64 (u64 (addr - START_KERNEL_map) + phys_base)
      else u64 (addr - PAGE_OFFSET)
  | PHYSADDR => addr
  | other_memtype _ => paddr_junk
  end.

Definition readmem (addr : Z) (memtype : memtype_t) (size : Z)
    (s : list Z * world) : outcome (Z * (list Z * world)) :=
  let paddr := readmem_paddr addr memtype in
  match guest_client (snd s) with
  | None => Fault NullPointer
  | Some c =>
      match Env.readmem c with
      | None => Fault NullPointer
      | Some f => call_readmem f paddr (u64 size) s
      end
  end.

End Layout.

Definition guest_client_new (ac : cstring) (ty_ : guest_access_t)
    (w : world) : outcome (Z * world) :=
  match guest_client w with
  | Some _ => Ok (0, w)
  | None =>
      let c := {| ty := ty_; get_registers := None; Env.readmem := None |} in
      '(c, w) ←
        match ty c with
        | GUEST_NAME =>
            let '(_, w) := libvirt_client_init ac w in
            Ok ({| ty := ty c;
                   get_registers := Some libvirt_get_registers_fn;
                   Env.readmem := Some libvirt_readmem_fn |}, w)
        | GUEST_MEMORY =>
            let '(_, w) := file_client_init ac w in
            Ok ({| ty := ty c;
                   get_registers := Some file_get_registers_fn;
                   Env.readmem := Some file_readmem_fn |}, w)
        | QMP_SOCKET =>
            '(_, w) ← Qmp.qmp_client_init ac w;
            Ok ({| ty := ty c;
                   get_registers := Some qmp_get_registers_fn;
                   Env.readmem := Some qmp_readmem_fn |}, w)
        end;
      Ok (0, set_guest_client (Some c) w)
  end.

End Guest.

(** ** The rest of the two files: teardown and the register readers *)

Module Backend.
Import Machine CStr Outcome Env.

(** [qmp_client_uninit()]; [close_ret] is what [close(qmp_fd)] returns
    (the descriptor itself stays in [qmp_fd]). *)
Definition qmp_client_uninit (close_ret : Z) (w : world) : Z * world :=
  if close_ret =? -1 then (-1, w) else (0, w).

(** [libvirt_client_uninit()]: each handle that is set is released and
    nulled. *)
Definition libvirt_client_uninit (w : world) : Z * world :=
  let w := match domain w with
           | Some d => set_domain None (libvirt_called (DomainFree d) w)
           | None => w
           end in
  let w := match domain_conn w with
           | Some c => set_domain_conn None (libvirt_called (ConnectClose c) w)
           | None => w
           end in
  (0, w).

(** [file_client_uninit()]: declared [int], but control reaches the end of
    the function without a [return]; only the effect is modelled.  The one
    caller does not use the value. *)
Definition file_client_uninit (w : world) : world :=
  set_mem_file None w.

(** [strtoul(s, NULL, 16)]: white space, an optional sign, an optional
    [0x], hexadecimal digits; 0 when there is no number. *)
Definition strtoul16 (s : cstring) : Z :=
  match scan_hex s with
  | Scanned v _ => v
  | _ => 0
  end.

(** The loop of [get_line_value] that steps over blanks and equals
    signs. *)
Fixpoint skip_blank_equals (s : cstring) : cstring :=
  match s with
  | c :: rest =>
      if (code c =? 32) || (code c =? 61) then skip_blank_equals rest else s
  | [] => []
  end.

(** [get_line_value(line, key)]. *)
Definition get_line_value (line key : cstring) : Z :=
  match strstr line key with
  | Some off =>
      let start := skipn (off + strlen key) (until_nul line) in
      strtoul16 (skip_blank_equals start)
  | None => 0
  end.

(** The [while (line != NULL)] loop of [libvirt_get_registers]. *)
Fixpoint scan_register_lines (lines : list cstring) (regs : registers)
    : registers :=
  match lines with
  | [] => regs
  | line :: rest =>
      let regs :=
        match strstr line (lit "IDT") with
        | Some _ => {| idtr := get_line_value line (lit "IDT");
                       cr3 := cr3 regs; cr4 := cr4 regs |}
        | None => regs
        end in
      let regs :=
        match strstr line (lit "CR3") with
        | Some _ => {| idtr := idtr regs;
                       cr3 := get_line_value line (lit "CR3");
                       cr4 := cr4 regs |}
        | None => regs
        end in
      scan_register_lines rest regs
  end.

(** [libvirt_get_registers(idtr, cr3, cr4)].  The value returned is
    [Some (-1)] on the failure path; on the other path control reaches the
    end of the function without a [return], which is [None]. *)
Definition libvirt_get_registers (regs : registers) (w : world)
    : option Z * registers * world :=
  let '(reply, w) :=
    Guest.virDomainQemuMonitorCommand (lit "info registers") w in
  match reply with
  | None => (Some (-1), regs, pr_err "Failed to send QMP command: %s" w)
  | Some hmp_response =>
      (None,
       scan_register_lines
         (Guest.strtok_lines (until_nul hmp_response) []) regs,
       w)
  end.

(** A call through [guest_client->get_registers]. *)
Definition call_get_registers (f : get_registers_fn) (regs : registers)
    (w : world) : outcome (option Z * registers * world) :=
  match f with
  | libvirt_get_registers_fn => Ok (libvirt_get_registers regs w)
  | file_get_registers_fn =>
      let '(r, regs, w) := Guest.file_get_registers regs w in
      Ok (Some r, regs, w)
  | qmp_get_registers_fn =>
      '(r, regs, w) ← Qmp.qmp_get_registers regs w;
      Ok (Some r, regs, w)
  end.

(** [get_cr3_idtr(cr3, idtr)]: the caller's two cells go in and come out;
    [cr4_junk] is what the uninitialised local [cr4] holds.  The function
    has no [return]. *)
Definition get_cr3_idtr (cr4_junk : Z) (cr3_idtr : Z * Z) (w : world)
    : outcome (Z * Z * world) :=
  match guest_client w with
  | None => Fault NullPointer
  | Some c =>
      match get_registers c with
      | None => Fault NullPointer
      | Some f =>
          '(_, regs, w) ←
            call_get_registers f
              {| idtr := snd cr3_idtr; cr3 := fst cr3_idtr; cr4 := cr4_junk |}
              w;
          Ok (cr3 regs, idtr regs, w)
      end
  end.

(** [guest_client_release()]; [close_ret] as in [qmp_client_uninit]. *)
Definition guest_client_release (close_ret : Z) (w : world) : Z * world :=
  match guest_client w with
  | None => (0, w)
  | Some c =>
      let w :=
        match ty c with
        | GUEST_NAME => snd (libvirt_client_uninit w)
        | GUEST_MEMORY => file_client_uninit w
        | QMP_SOCKET => snd (qmp_client_uninit close_ret w)
        end in
      (0, set_guest_client None w)
  end.

End Backend.

(** * Vocabulary of the properties *)

Import Machine CStr Outcome Env.

(** A monitor whose first message is [first]. *)
Definition greets (first : cstring) : world :=
  set_polls [PollReady true first; PollTimeout] calm.

(** The bytes the reads of one [qmp_read] call take off the socket: one
    [xread] of at most 1 KiB per poll that reports POLLIN, up to the first
    poll that times out or fails. *)
Fixpoint delivered (ps : list poll_result) : cstring :=
  match ps with
  | PollReady pollin avail :: rest =>
      (if pollin then Qmp.xread 1024 avail else []) ++ delivered rest
  | _ => []
  end.

(** How many reads that makes. *)
Fixpoint reads (ps : list poll_result) : nat :=
  match ps with
  | PollReady pollin _ :: rest => ((if pollin then 1 else 0) + reads rest)%nat
  | _ => O
  end.

(** The return value of the call and the polls left for later calls. *)
Fixpoint ending (ps : list poll_result) : Z * list poll_result :=
  match ps with
  | [] => (0, [])
  | PollTimeout :: rest => (0, rest)
  | PollFail :: rest => (-1, rest)
  | PollReady _ _ :: rest => ending rest
  end.

(** The payload quoted in the design description: two lines of
    [0xHH] tokens with nothing in front of them. *)
Definition bare_payload : cstring :=
  Qmp.q "'return': '0x00 0x01 0x02 0x03 0x04 0x05 0x06 0x07\r\n0x08 0x09\r\n'".

(** The same ten bytes the way the monitor prints them, every line led by
    the address it starts at. *)
Definition labelled_payload : cstring :=
  Qmp.q "'return': '0000000000001000: 0x00 0x01 0x02 0x03 0x04 0x05 0x06 0x07\r\n0000000000001008: 0x08 0x09\r\n'".

(** The capability table [guest_client_new] binds for a mode. *)
Definition capabilities (mode : guest_access_t) : guest_client_t :=
  match mode with
  | GUEST_NAME =>
      {| ty := GUEST_NAME; get_registers := Some libvirt_get_registers_fn;
         Env.readmem := Some libvirt_readmem_fn |}
  | GUEST_MEMORY =>
      {| ty := GUEST_MEMORY; get_registers := Some file_get_registers_fn;
         Env.readmem := Some file_readmem_fn |}
  | QMP_SOCKET =>
      {| ty := QMP_SOCKET; get_registers := Some qmp_get_registers_fn;
         Env.readmem := Some qmp_readmem_fn |}
  end.

(** The construction step of a mode: the call whose result
    [guest_client_new] drops. *)
Definition construct (ac : cstring) (mode : guest_access_t) (w : world)
    : outcome (Z * world) :=
  match mode with
  | GUEST_NAME => Ok (Guest.libvirt_client_init ac w)
  | GUEST_MEMORY => Ok (Guest.file_client_init ac w)
  | QMP_SOCKET => Qmp.qmp_client_init ac w
  end.

(** A flat-file backend over an image of [n] zero bytes, already installed. *)
Definition zero_image (n : Z) : FILE :=
  {| f_len := n; f_data := fun _ => NUL; f_bad := None; f_seekable := true;
     f_pos := 0; f_eof := false; f_err := false |}.

Definition file_backend (f : FILE) : world :=
  set_guest_client (Some (capabilities GUEST_MEMORY))
    (set_mem_file (Some f) calm).

(** A register dump with no CR4 in it. *)
Definition dump_without_cr4 : cstring :=
  Qmp.q "{'return': 'RAX=0000000000000000 RBX=0000000000000001 CR3=0000000019872000 IDT=ffffffffff528000\r\n'}".

(** A register dump in which CR3 is named without a value and CR4 is
    missing. *)
Definition dump_cr3_without_value : cstring :=
  Qmp.q "{'return': 'CR3=zz IDT=ffffffffff528000\r\n'}".

(** A process whose heap holds old text, with no NUL in it. *)
Definition stale_heap : world :=
  {| socket_ret := 3; connect_ret := 0; polls := []; xwrite_rets := [];
     virConnectOpen_ret := Some 1;
     virDomainLookupByName_ret := fun _ => Some 1;
     monitor_replies := []; fopen_rb := fun _ => None;
     heap_junk := fun _ => "x"%char;
     sent := []; monitor_sent := []; log := []; libvirt_calls := [];
     qmp_fd := 0; guest_client := None; domain := None;
     domain_conn := None; mem_file := None |}.

(** One single-segment request: address, offset into the output buffer,
    length. *)
Definition segment : Type := Z * nat * Z.

Definition seg_addr (g : segment) : Z := fst (fst g).
Definition seg_offset (g : segment) : nat := snd (fst g).
Definition seg_length (g : segment) : Z := snd g.

(** The [k]-th full segment of a read that starts at [addr]. *)
Definition full_segment (addr : Z) (k : nat) : segment :=
  (u64 (addr + Qmp.step * Z.of_nat k), (Z.to_nat Qmp.step * k)%nat, Qmp.step).

(** The decomposition the design description gives: [size / 4096] full
    segments in increasing order, then one segment of [size mod 4096]
    bytes unless that is zero. *)
Definition plan (addr size : Z) : list segment :=
  map (full_segment addr) (seq 0 (Z.to_nat (size / Qmp.step)))
  ++ (if 0 <? size mod Qmp.step
      then [(u64 (addr + Qmp.step * (size / Qmp.step)),
             (Z.to_nat Qmp.step * Z.to_nat (size / Qmp.step))%nat,
             size mod Qmp.step)]
      else []).

(** Issuing the requests of a list one by one through [part]; the first
    one that does not return 0 ends the run with -1 and the rest of the
    list is never issued. *)
Fixpoint run_plan {St : Type} (part : Z -> nat -> Z -> St -> outcome (Z * St))
    (segs : list segment) (s : St) : outcome (Z * St) :=
  match segs with
  | [] => Ok (0, s)
  | g :: rest =>
      '(r, s') ← part (seg_addr g) (seg_offset g) (seg_length g) s;
      if negb (r =? 0) then Ok (-1, s') else run_plan part rest s'
  end.

(** A single-segment reader that only records what it is asked for. *)
Definition recorder (addr : Z) (off : nat) (len : Z) (asked : list segment)
    : outcome (Z * list segment) :=
  Ok (0, asked ++ [(addr, off, len)]).

(** A monitor that answers every [xp] command with an empty dump. *)
Definition empty_dump : cstring := Qmp.q "{'return': ''}".
Definition answers_twice : world :=
  set_polls [PollReady true empty_dump; PollTimeout;
             PollReady true empty_dump; PollTimeout] calm.

(** ** Vocabulary for hex dumps

    The text of a dump as the monitor prints it ([0x%02x] tokens, eight
    to a line, an address label in front). *)

Definition hex_digit (d : Z) : ascii :=
  nth (Z.to_nat d) (lit "0123456789abcdef") NUL.

(** The token [0xHH] of a byte. *)
Definition hex_token (b : Z) : cstring :=
  lit "0x" ++ [hex_digit (b / 16); hex_digit (b mod 16)].

(** The [0xHH] tokens of a dump line, a space before each. *)
Definition tokens (bytes : list Z) : cstring :=
  flat_map (fun b => " "%char :: hex_token b) bytes.

(** A line of the monitor's [xp] output: the address label, then the
    tokens. *)
Definition dump_line (label : cstring) (bytes : list Z) : cstring :=
  label ++ tokens bytes.

(** A character that the dump loop copies into [line] as it is and that
    neither ends a word nor a string. *)
Definition plain (c : ascii) : bool :=
  negb (isspace c) && negb (is_nul c)
  && negb (code c =? code backslash) && negb (code c =? code dquote).

Definition is_byte (b : Z) : Prop := 0 <= b < 256.

(** The lines of a dump, each ended by the four characters backslash, r,
    backslash, n. *)
Definition dump_text (lines : list (cstring * list Z)) : cstring :=
  flat_map (fun ln => dump_line (fst ln) (snd ln) ++ lit "\r\n") lines.

(** A line the parser copes with: a label of plain characters, one to
    eight bytes, short enough for the [line] buffer. *)
Definition line_ok (ln : cstring * list Z) : Prop :=
  fst ln <> []
  /\ Forall (fun c => plain c = true) (fst ln)
  /\ Forall is_byte (snd ln)
  /\ (1 <= length (snd ln) <= 8)%nat
  /\ (length (dump_line (fst ln) (snd ln)) < Qmp.LINE_SIZE)%nat.

(** The lines of [labelled_payload]. *)
Definition labelled_lines : list (cstring * list Z) :=
  [(lit "0000000000001000:", [0; 1; 2; 3; 4; 5; 6; 7]);
   (lit "0000000000001008:", [8; 9])].

(** ** Vocabulary of the further properties *)

(** The [n] hexadecimal digits of [v], most significant first, as the
    monitor prints registers ([%016lx]) and words ([%08x]). *)
Fixpoint hex_digits (n : nat) (v : Z) : cstring :=
  match n with
  | O => []
  | S n' => hex_digit (v / 16 ^ Z.of_nat n' mod 16) :: hex_digits n' v
  end.

(** The head of a text is not a hexadecimal digit (or the text is empty):
    a number in front of it ends there. *)
Definition ends_number (rest : cstring) : Prop :=
  match rest with [] => True | c :: _ => hex_value c = None end.

(** A libvirt that opens connection 7 and knows one domain, [guest], as
    number 1. *)
Definition one_guest : world :=
  {| socket_ret := 3; connect_ret := 0; polls := []; xwrite_rets := [];
     virConnectOpen_ret := Some 7;
     virDomainLookupByName_ret :=
       fun name =>
         if String.eqb (string_of_list_ascii name) "guest" then Some 1
         else None;
     monitor_replies := []; fopen_rb := fun _ => None;
     heap_junk := fun _ => NUL;
     sent := []; monitor_sent := []; log := []; libvirt_calls := [];
     qmp_fd := 0; guest_client := None; domain := None;
     domain_conn := None; mem_file := None |}.

(** The handles of the three backends. *)
Definition handles (w : world) : option Z * option Z * option FILE :=
  (domain w, domain_conn w, mem_file w).

(** What releasing a client of a given mode leaves of the handles. *)
Definition released (mode : guest_access_t) (w : world)
    : option Z * option Z * option FILE :=
  match mode with
  | GUEST_NAME => (None, None, mem_file w)
  | GUEST_MEMORY => (domain w, domain_conn w, None)
  | QMP_SOCKET => handles w
  end.

(** A response of the human monitor: every line ended by a line feed. *)
Definition monitor_text (lines : list cstring) : cstring :=
  flat_map (fun l => l ++ [LF]) lines.

(** A non-empty line with no line feed and no NUL in it. *)
Definition text_line (l : cstring) : Prop :=
  l <> [] /\ Forall (fun c => (code c =? code LF) = false /\ is_nul c = false) l.

(** The last of the lines in which [key] occurs. *)
Definition last_mention (key : cstring) (lines : list cstring) : option cstring :=
  List.find (fun l => match strstr l key with Some _ => true | None => false end)
    (rev lines).

(** What a register cell holds after the lines have gone by: the number
    behind [key] on the last line that mentions it, or what it held. *)
Definition reading (key : cstring) (lines : list cstring) (old : Z) : Z :=
  match last_mention key lines with
  | Some l => Backend.get_line_value l key
  | None => old
  end.

(** Part of a register dump of the human monitor. *)
Definition register_lines : list cstring :=
  [lit "GDT=     fffffe0000001000 0000007f";
   lit "IDT=     fffffe0000000000 00000fff";
   lit "CR0=80050033 CR2=00007f2a5c0e1000 CR3=000000000220a000 CR4=000006f0"].

(** The [n] bytes of an image from offset [addr] on. *)
Definition image_bytes (f : FILE) (addr : Z) (n : nat) : list Z :=
  map (fun k => code (f_data f (addr + Z.of_nat k))) (seq 0 n).

(** No byte of the range fails on the device. *)
Definition readable (f : FILE) (addr size : Z) : Prop :=
  match f_bad f with
  | Some b => b < addr \/ addr + size <= b
  | None => True
  end.

(** An image of [n] bytes that holds the low byte of each offset. *)
Definition counting_image (n : Z) : FILE :=
  {| f_len := n; f_data := fun k => ascii_of_nat (Z.to_nat (k mod 256));
     f_bad := None; f_seekable := true;
     f_pos := 0; f_eof := true; f_err := false |}.

(** A process with nothing set up yet, every path opening the image [f]. *)
Definition on_disk (f : FILE) : world :=
  {| socket_ret := 3; connect_ret := 0; polls := []; xwrite_rets := [];
     virConnectOpen_ret := Some 1;
     virDomainLookupByName_ret := fun _ => Some 1;
     monitor_replies := []; fopen_rb := fun _ => Some f;
     heap_junk := fun _ => NUL;
     sent := []; monitor_sent := []; log := []; libvirt_calls := [];
     qmp_fd := 0; guest_client := None; domain := None;
     domain_conn := None; mem_file := None |}.

(** The bytes [qmp_populate_mem] takes from the lines of a dump when
    [pos] bytes are stored already: the limit [size] is looked at before
    a line is begun and not inside it, so lines are taken whole for as
    long as fewer than [size] bytes are stored. *)
Fixpoint whole_lines (size : Z) (pos : nat) (lines : list (cstring * list Z))
    : list Z :=
  match lines with
  | [] => []
  | ln :: rest =>
      if Z.of_nat pos <? size
      then snd ln ++ whole_lines size (pos + length (snd ln)) rest
      else []
  end.

(** Guest memory as a function from physical addresses to bytes, and the
    [n] bytes of it from [addr] on (addresses are 64 bits wide). *)
Definition ram_bytes (ram : Z -> Z) (addr : Z) (n : nat) : list Z :=
  map (fun k => ram (u64 (addr + Z.of_nat k))) (seq 0 n).

(** A single-segment reader that delivers guest memory: asked for [l]
    bytes at [a], it returns 0 and stores them at offset [o] of the
    output, which has room for them. *)
Definition reads_ram {W : Type} (ram : Z -> Z)
    (part : Z -> nat -> Z -> list Z * W -> outcome (Z * (list Z * W)))
    : Prop :=
  forall (a : Z) (o : nat) (l : Z) (mem : list Z) (w : W),
    0 <= a < 2 ^ 64 -> 0 < l ->
    (o + Z.to_nat l <= length mem)%nat ->
    exists w',
      part a o l (mem, w)
      = Ok (0, (take o mem ++ ram_bytes ram a (Z.to_nat l)
                ++ drop (o + Z.to_nat l) mem, w')).

(** The simplest such reader; it counts its calls. *)
Definition ram_reader (ram : Z -> Z) (a : Z) (o : nat) (l : Z)
    (s : list Z * nat) : outcome (Z * (list Z * nat)) :=
  mem ← Guest.memcpy (fst s) o (ram_bytes ram a (Z.to_nat l)) (Z.to_nat l);
  Ok (0, (mem, S (snd s))).

(** ** Vocabulary for word dumps

    The text the monitor prints for [xp /Nxw]: an address label, then up
    to four [0x%08x] tokens to a line, carriage return and line feed at
    the end of each line. *)

Definition word_token (v : Z) : cstring := lit "0x" ++ hex_digits 8 v.

Definition word_tokens (ws : list Z) : cstring :=
  flat_map (fun v => " "%char :: word_token v) ws.

Definition word_line (label : cstring) (ws : list Z) : cstring :=
  label ++ word_tokens ws ++ [CR].

Definition is_word (v : Z) : Prop := 0 <= v < 2 ^ 32.

Definition word_text (lines : list (cstring * list Z)) : cstring :=
  monitor_text (map (fun ln => word_line (fst ln) (snd ln)) lines).

(** A line the word parser copes with: a label without white space, one
    to four words. *)
Definition word_line_ok (ln : cstring * list Z) : Prop :=
  fst ln <> []
  /\ Forall (fun c => isspace c = false /\ is_nul c = false) (fst ln)
  /\ Forall is_word (snd ln)
  /\ (1 <= length (snd ln) <= 4)%nat.

(** The words of a dump as bytes in memory. *)
Definition words_bytes (lines : list (cstring * list Z)) : list Z :=
  flat_map Guest.word_bytes (flat_map snd lines).

(** Two lines of a word dump. *)
Definition word_dump : list (cstring * list Z) :=
  [(lit "0000000000001000:", [0x04030201; 0x08070605; 0x0c0b0a09; 0x100f0e0d]);
   (lit "0000000000001010:", [0x14131211])].



(** * Properties *)

(** ** Arithmetic of the machine types *)

Lemma u64_small z : 0 <= z < 2 ^ 64 -> u64 z = z.
Proof. intros H. unfold u64. apply Z.mod_small. exact H. Qed.

Lemma u64_add_l a b : u64 (u64 a + b) = u64 (a + b).
Proof. unfold u64. apply Zplus_mod_idemp_l. Qed.

Lemma to_int_small z : - 2 ^ 31 <= z <= INT_MAX -> to_int z = z.
Proof.
  unfold to_int, INT_MAX. intros H.
  rewrite Z.mod_small; lia.
Qed.

(** ** What [qmp_read] accumulates *)

Lemma xread_length count avail : (length (Qmp.xread count avail) <= count)%nat.
Proof. unfold Qmp.xread. rewrite length_firstn. lia. Qed.

Lemma delivered_bound ps :
  Z.of_nat (length (delivered ps)) <= 1024 * Z.of_nat (reads ps).
Proof.
  induction ps as [|p ps IH]; cbn [delivered reads length]; [lia|].
  destruct p as [| |pollin avail]; cbn [length]; try lia.
  rewrite length_app. destruct pollin.
  - pose proof (xread_length 1024 avail). lia.
  - cbn [length]. lia.
Qed.

Lemma u64_idem z : u64 (u64 z) = u64 z.
Proof. unfold u64. apply Z.mod_mod. lia. Qed.

(** As long as what arrives fits the rest of the buffer, the loop stores
    it all and adds its length to the total ... *)
Lemma qmp_read_loop_fits cap ps tread written :
  u64 tread = tread ->
  (length written + length (delivered ps) <= cap)%nat ->
  Qmp.qmp_read_loop cap ps tread written
  = Ok (fst (ending ps), u64 (tread + Z.of_nat (length (delivered ps))),
        written ++ delivered ps, snd (ending ps)).
Proof.
  revert tread written.
  induction ps as [|p ps IH]; intros tread written Htread Hfit;
    cbn [Qmp.qmp_read_loop delivered ending fst snd length].
  - rewrite Z.add_0_r, Htread, app_nil_r. reflexivity.
  - destruct p as [| |pollin avail];
      cbn [Qmp.qmp_read_loop delivered ending fst snd length];
      try (rewrite Z.add_0_r, Htread, app_nil_r; reflexivity).
    cbn [delivered] in Hfit. rewrite length_app in Hfit.
    destruct pollin; cbn [app length] in *.
    + assert (Hcap : (cap <? length written + length (Qmp.xread 1024 avail))%nat = false)
        by (apply Nat.ltb_ge; lia).
      rewrite Hcap, IH.
      * rewrite u64_add_l, length_app, Nat2Z.inj_add, <- app_assoc, Z.add_assoc.
        reflexivity.
      * apply u64_idem.
      * rewrite length_app. lia.
    + apply IH; [exact Htread | lia].
Qed.

(** ... and as soon as more arrives than fits, a store runs past the end
    of the buffer: nothing in the loop looks at the space that is left. *)
Lemma qmp_read_loop_overrun cap ps tread written :
  (length written <= cap)%nat ->
  (cap < length written + length (delivered ps))%nat ->
  Qmp.qmp_read_loop cap ps tread written = Fault OutOfBounds.
Proof.
  revert tread written.
  induction ps as [|p ps IH]; intros tread written Hin Hover;
    cbn [Qmp.qmp_read_loop delivered length] in *.
  - lia.
  - destruct p as [| |pollin avail];
      cbn [Qmp.qmp_read_loop delivered length] in *; try lia.
    rewrite length_app in Hover.
    destruct pollin; cbn [app length] in *.
    + destruct (Nat.ltb_spec cap (length written + length (Qmp.xread 1024 avail))) as [Hlt|Hge].
      * reflexivity.
      * apply IH; rewrite length_app; lia.
    + apply IH; lia.
Qed.

Lemma qmp_read_fits (buf : cstring) (w : world) :
  (length (delivered (polls w)) <= length buf)%nat ->
  Qmp.qmp_read buf w
  = Ok (fst (ending (polls w)),
        u64 (Z.of_nat (length (delivered (polls w)))),
        Qmp.stored buf (delivered (polls w)),
        set_polls (snd (ending (polls w))) w).
Proof.
  intros Hfit. unfold Qmp.qmp_read.
  rewrite qmp_read_loop_fits; [reflexivity | reflexivity | exact Hfit].
Qed.

(** C1 (as amended).  [qmp_read] is given no maximum and checks none: what
    it accumulates is the concatenation of its reads, one of at most 1 KiB
    per poll that reports POLLIN, so at most 1024 bytes per read; the count
    it reports is the length of that concatenation.  The stores stay
    inside the caller's buffer when the peer delivers no more than the
    buffer holds before the socket goes quiet. *)
Theorem qmp_read_accumulates (buf : cstring) (w : world) :
  (length (delivered (polls w)) <= length buf)%nat ->
  Qmp.qmp_read buf w
  = Ok (fst (ending (polls w)),
        u64 (Z.of_nat (length (delivered (polls w)))),
        Qmp.stored buf (delivered (polls w)),
        set_polls (snd (ending (polls w))) w)
  /\ Z.of_nat (length (delivered (polls w)))
     <= 1024 * Z.of_nat (reads (polls w)).
Proof.
  intros Hfit. split.
  - apply qmp_read_fits, Hfit.
  - apply delivered_bound.
Qed.

Lemma qmp_read_accumulates_witness :
  Qmp.qmp_read (repeat NUL 512) (greets (lit "hello"))
  = Ok (0, 5, Qmp.stored (repeat NUL 512) (lit "hello"),
        set_polls [] (greets (lit "hello")))
  /\ 5 <= 1024 * 1.
Proof.
  apply (qmp_read_accumulates (repeat NUL 512) (greets (lit "hello"))).
  apply Nat.leb_le. vm_compute. reflexivity.
Defined.

(** C1 (the claim as stated fails).  A single read of 600 bytes, well under
    1 KiB, into the 512-byte buffer of the connect exchange is stored past
    the end of that buffer, both in [qmp_read] itself and in
    [qmp_establish_conn], which calls it. *)
Lemma qmp_read_overruns_connect_buffer :
  length (delivered (polls (greets (repeat "A"%char 600)))) = 600%nat
  /\ length (repeat NUL 512) = 512%nat
  /\ Qmp.qmp_read (repeat NUL 512) (greets (repeat "A"%char 600))
     = Fault OutOfBounds
  /\ Qmp.qmp_establish_conn (lit "/tmp/qmp.sock")
       (greets (repeat "A"%char 600))
     = Fault OutOfBounds.
Proof. repeat split; vm_compute; reflexivity. Qed.

(** ** The hex-dump parser *)

Lemma hex_digit_facts d :
  0 <= d < 16 ->
  hex_value (hex_digit d) = Some d
  /\ isspace (hex_digit d) = false
  /\ is_x (hex_digit d) = false
  /\ (code (hex_digit d) =? 45) = false
  /\ (code (hex_digit d) =? 43) = false
  /\ is_nul (hex_digit d) = false
  /\ (code (hex_digit d) =? code backslash) = false
  /\ (code (hex_digit d) =? code dquote) = false.
Proof.
  intros H.
  assert (Hd : d = 0 \/ d = 1 \/ d = 2 \/ d = 3 \/ d = 4 \/ d = 5 \/ d = 6
               \/ d = 7 \/ d = 8 \/ d = 9 \/ d = 10 \/ d = 11 \/ d = 12
               \/ d = 13 \/ d = 14 \/ d = 15) by lia.
  repeat (destruct Hd as [-> | Hd]; [vm_compute; repeat split; reflexivity|]).
  subst d. vm_compute. repeat split; reflexivity.
Qed.

Lemma hex_run_stop (rest : cstring) (acc : Z) (n : nat) :
  match rest with [] => True | c :: _ => hex_value c = None end ->
  hex_run rest acc n = (acc, n, rest).
Proof. destruct rest as [|c rest]; cbn [hex_run]; [reflexivity|]. intros ->. reflexivity. Qed.

Lemma scan_hex_digits (b : Z) (rest : cstring) :
  0 <= b < 256 ->
  match rest with [] => True | c :: _ => hex_value c = None end ->
  scan_hex (hex_digit (b / 16) :: hex_digit (b mod 16) :: rest) = Scanned b rest.
Proof.
  intros Hb Hrest.
  assert (H1 : 0 <= b / 16 < 16) by (split; [apply Z.div_pos; lia | apply Z.div_lt_upper_bound; lia]).
  assert (H2 : 0 <= b mod 16 < 16) by (apply Z.mod_pos_bound; lia).
  destruct (hex_digit_facts _ H1) as (V1 & S1 & X1 & M1 & P1 & _).
  destruct (hex_digit_facts _ H2) as (V2 & S2 & X2 & M2 & P2 & _).
  unfold scan_hex. cbn [skip_space]. rewrite S1.
  unfold hex_number. rewrite M1, P1, X2, andb_false_r.
  cbn [hex_run]. rewrite V1, V2, (hex_run_stop rest _ _ Hrest).
  cbn [Nat.eqb andb].
  replace (ULONG_MAX <? 16 * (16 * 0 + b / 16) + b mod 16) with false.
  - f_equal. pose proof (Z.div_mod b 16). lia.
  - symmetry. apply Z.ltb_ge. unfold ULONG_MAX. lia.
Qed.

Lemma tokens_head (bytes : list Z) :
  match tokens bytes with [] => True | c :: _ => hex_value c = None end.
Proof. destruct bytes; cbn; [exact I | reflexivity]. Qed.

Lemma scan_hex_items_tokens (bytes : list Z) (n : nat) (assigned : list Z) :
  Forall is_byte bytes ->
  (length bytes <= n)%nat ->
  scan_hex_items to_uchar n (tokens bytes) assigned
  = (if (length bytes =? n)%nat then Scanned tt [] else InputFail,
     assigned ++ bytes).
Proof.
  intros Hbytes. revert n assigned.
  induction Hbytes as [|b bytes Hb Hbytes IH]; intros n assigned Hn.
  - rewrite app_nil_r. destruct n; reflexivity.
  - destruct n as [|n]; [cbn in Hn; lia|].
    cbn [length] in Hn.
    change (tokens (b :: bytes))
      with (" "%char :: "0"%char :: "x"%char :: hex_digit (b / 16)
              :: hex_digit (b mod 16) :: tokens bytes).
    cbn [scan_hex_items].
    change (skip_space (" "%char :: "0"%char :: "x"%char :: hex_digit (b / 16)
              :: hex_digit (b mod 16) :: tokens bytes))
      with ("0"%char :: "x"%char :: hex_digit (b / 16)
              :: hex_digit (b mod 16) :: tokens bytes).
    change (scan_char "0" ("0"%char :: "x"%char :: hex_digit (b / 16)
              :: hex_digit (b mod 16) :: tokens bytes))
      with (Scanned tt ("x"%char :: hex_digit (b / 16)
              :: hex_digit (b mod 16) :: tokens bytes)).
    cbn iota.
    change (scan_char "x" ("x"%char :: hex_digit (b / 16)
              :: hex_digit (b mod 16) :: tokens bytes))
      with (Scanned tt (hex_digit (b / 16)
              :: hex_digit (b mod 16) :: tokens bytes)).
    cbn iota.
    rewrite (scan_hex_digits b (tokens bytes) Hb (tokens_head bytes)).
    rewrite IH by lia.
    unfold to_uchar. rewrite Z.mod_small by (unfold is_byte in Hb; lia).
    rewrite <- app_assoc. reflexivity.
Qed.

Lemma until_nul_app (a b : cstring) :
  Forall (fun c => is_nul c = false) a ->
  until_nul (a ++ b) = a ++ until_nul b.
Proof.
  induction 1 as [|c a Hc Ha IH]; cbn [app until_nul]; [reflexivity|].
  rewrite Hc, IH. reflexivity.
Qed.

Lemma skip_nonspace_app (a b : cstring) :
  Forall (fun c => isspace c = false) a ->
  match b with [] => True | c :: _ => isspace c = true end ->
  skip_nonspace (a ++ b) = b.
Proof.
  intros Ha Hb. induction Ha as [|c a Hc Ha IH]; cbn [app skip_nonspace].
  - destruct b as [|c b]; cbn [skip_nonspace]; [reflexivity|]. rewrite Hb. reflexivity.
  - rewrite Hc. exact IH.
Qed.

Lemma tokens_no_nul (bytes : list Z) :
  Forall is_byte bytes -> Forall (fun c => is_nul c = false) (tokens bytes).
Proof.
  induction 1 as [|b bytes Hb Hbytes IH]; [constructor|].
  assert (H1 : 0 <= b / 16 < 16)
    by (unfold is_byte in Hb; split; [apply Z.div_pos; lia | apply Z.div_lt_upper_bound; lia]).
  assert (H2 : 0 <= b mod 16 < 16) by (apply Z.mod_pos_bound; lia).
  destruct (hex_digit_facts _ H1) as (_ & _ & _ & _ & _ & N1 & _).
  destruct (hex_digit_facts _ H2) as (_ & _ & _ & _ & _ & N2 & _).
  change (tokens (b :: bytes))
    with (" "%char :: "0"%char :: "x"%char :: hex_digit (b / 16)
            :: hex_digit (b mod 16) :: tokens bytes).
  repeat constructor; assumption.
Qed.

Lemma sscanf_dump_line (label : cstring) (bytes values : list Z) :
  label <> [] ->
  Forall (fun c => plain c = true) label ->
  Forall is_byte bytes ->
  (1 <= length bytes <= 8)%nat ->
  sscanf_dump to_uchar 8 (dump_line label bytes ++ [NUL]) values
  = (Z.of_nat (length bytes), bytes ++ skipn (length bytes) values).
Proof.
  intros Hne Hlabel Hbytes Hlen.
  assert (Hnonul : Forall (fun c => is_nul c = false) label).
  { eapply List.Forall_impl; [|exact Hlabel]. intros c Hc. unfold plain in Hc.
    destruct (is_nul c); [|reflexivity].
    rewrite andb_false_r in Hc. discriminate. }
  assert (Hnosp : Forall (fun c => isspace c = false) label).
  { eapply List.Forall_impl; [|exact Hlabel]. intros c Hc. unfold plain in Hc.
    destruct (isspace c); [discriminate | reflexivity]. }
  unfold sscanf_dump, dump_line.
  rewrite <- app_assoc, until_nul_app by exact Hnonul.
  rewrite until_nul_app by (apply tokens_no_nul; exact Hbytes).
  change (until_nul [NUL]) with ([] : cstring). rewrite app_nil_r.
  unfold scan_skip_word.
  destruct label as [|c label]; [contradiction|].
  cbn [app skip_space].
  inversion Hnosp as [|? ? Hc Hrest]; subst. rewrite Hc.
  change (c :: label ++ tokens bytes) with ((c :: label) ++ tokens bytes).
  rewrite skip_nonspace_app;
    [| exact Hnosp | destruct bytes; [exact I | reflexivity]].
  rewrite scan_hex_items_tokens by (try exact Hbytes; lia).
  cbn [app]. unfold scanf_return.
  destruct bytes as [|b bytes]; [cbn in Hlen; lia|].
  destruct (length (b :: bytes) =? 8)%nat; reflexivity.
Qed.

Lemma copy_values_ok (vals mem : list Z) (at_ : nat) :
  (at_ + length vals <= length mem)%nat ->
  Qmp.copy_values vals mem at_
  = Ok (take at_ mem ++ vals ++ drop (at_ + length vals) mem).
Proof.
  revert mem at_. induction vals as [|v vals IH]; intros mem at_ Hfit.
  - cbn [Qmp.copy_values length app]. rewrite Nat.add_0_r, take_drop. reflexivity.
  - cbn [Qmp.copy_values length] in *. unfold Qmp.poke.
    replace (at_ <? length mem)%nat with true by (symmetry; apply Nat.ltb_lt; lia).
    cbn [mbind outcome_bind].
    rewrite IH by (rewrite length_insert; lia).
    f_equal.
    rewrite (take_S_r _ _ v) by (apply list_lookup_insert_eq; lia).
    rewrite take_insert_ge by lia.
    rewrite drop_insert_lt by lia.
    rewrite <- app_assoc. cbn [app].
    replace (S at_ + length vals)%nat with (at_ + S (length vals))%nat by lia.
    reflexivity.
Qed.

Lemma char_at_middle (pre post : cstring) (c : ascii) :
  char_at (pre ++ c :: post) (length pre) = c.
Proof. unfold char_at. apply nth_middle. Qed.

Lemma char_at_next (pre post : cstring) (c d : ascii) :
  char_at (pre ++ c :: d :: post) (S (length pre)) = d.
Proof.
  replace (pre ++ c :: d :: post) with ((pre ++ [c]) ++ d :: post)
    by (rewrite <- app_assoc; reflexivity).
  replace (S (length pre)) with (length (pre ++ [c]))
    by (rewrite length_app; cbn; lia).
  apply char_at_middle.
Qed.

Section DumpLoop.
Variable input : cstring.
Variables len size : Z.
Variable off : nat.

Lemma dump_loop_unfold (fuel : nat) (d : Qmp.dump_state) :
  Qmp.dump_loop (S fuel) input len size off d
  = if Qmp.dump_continues input len size d then
      d' ← Qmp.dump_step input off d;
      Qmp.dump_loop fuel input len size off d'
    else Ok d.
Proof. reflexivity. Qed.

(** A run of characters that are neither a backslash nor a double quote
    goes into [line] one by one. *)
Lemma dump_loop_plain (run : cstring) :
  forall (fuel : nat) (pre post line : cstring) (values mem : list Z)
         (pos : nat),
    input = pre ++ run ++ post ->
    Forall (fun c => (code c =? code backslash) = false
                     /\ (code c =? code dquote) = false) run ->
    (length (line ++ run) <= Qmp.LINE_SIZE)%nat ->
    Z.of_nat (length (pre ++ run)) <= len ->
    Z.of_nat pos < size ->
    Qmp.dump_loop (length run + fuel) input len size off
      {| Qmp.d_start := length pre; Qmp.d_line := line;
         Qmp.d_values := values; Qmp.d_mem := mem; Qmp.d_pos := pos |}
    = Qmp.dump_loop fuel input len size off
        {| Qmp.d_start := length (pre ++ run); Qmp.d_line := line ++ run;
           Qmp.d_values := values; Qmp.d_mem := mem; Qmp.d_pos := pos |}.
Proof.
  induction run as [|c run IH];
    intros fuel pre post line values mem pos Hinput Hrun Hline Hlen Hpos.
  - rewrite !app_nil_r. reflexivity.
  - inversion Hrun as [|x l [Hb Hq] Hrun']; subst x l.
    cbn [length Nat.add]. rewrite dump_loop_unfold.
    unfold Qmp.dump_continues, Qmp.dump_step, Qmp.is_escape.
    cbn [Qmp.d_start Qmp.d_line Qmp.d_values Qmp.d_mem Qmp.d_pos].
    rewrite Hinput. cbn [app]. rewrite char_at_middle, Hb, Hq.
    rewrite !length_app in Hline, Hlen. cbn [length] in Hline, Hlen.
    replace (Z.of_nat (length pre) <? len) with true
      by (symmetry; apply Z.ltb_lt; lia).
    replace (Z.of_nat pos <? size) with true
      by (symmetry; apply Z.ltb_lt; lia).
    cbn [negb andb].
    replace (Qmp.LINE_SIZE <=? length line)%nat with false
      by (symmetry; apply Nat.leb_gt; lia).
    cbn [mbind outcome_bind].
    specialize (IH fuel (pre ++ [c]) post (line ++ [c]) values mem pos).
    rewrite !length_app in IH. cbn [length] in IH.
    replace (length pre + 1)%nat with (S (length pre)) in IH by lia.
    change (pre ++ c :: run ++ post) with (pre ++ (c :: run) ++ post).
    rewrite <- Hinput.
    rewrite IH.
    + rewrite <- !app_assoc. cbn [app].
      rewrite !length_app. cbn [length].
      replace (S (length pre) + length run)%nat
        with (length pre + S (length run))%nat by lia.
      reflexivity.
    + rewrite Hinput, <- app_assoc. reflexivity.
    + exact Hrun'.
    + lia.
    + lia.
    + exact Hpos.
Qed.
(** The two-character sequence backslash, r: the line collected so far
    is converted and its values are stored. *)
Lemma dump_loop_cr (fuel : nat) (pre post line : cstring)
    (values values' mem mem' : list Z) (pos : nat) (num : Z) :
  input = pre ++ backslash :: "r"%char :: post ->
  (length line < Qmp.LINE_SIZE)%nat ->
  Z.of_nat (length pre) < len ->
  Z.of_nat pos < size ->
  sscanf_dump to_uchar 8 (line ++ [NUL]) values = (num, values') ->
  Qmp.copy_values (firstn (Z.to_nat num) values') mem (off + pos) = Ok mem' ->
  Qmp.dump_loop (S fuel) input len size off
    {| Qmp.d_start := length pre; Qmp.d_line := line;
       Qmp.d_values := values; Qmp.d_mem := mem; Qmp.d_pos := pos |}
  = Qmp.dump_loop fuel input len size off
      {| Qmp.d_start := length pre + 2; Qmp.d_line := [];
         Qmp.d_values := values'; Qmp.d_mem := mem';
         Qmp.d_pos := pos + length (firstn (Z.to_nat num) values') |}.
Proof.
  intros Hinput Hline Hlen Hpos Hscan Hcopy.
  rewrite dump_loop_unfold.
  unfold Qmp.dump_continues, Qmp.dump_step, Qmp.is_escape.
  cbn [Qmp.d_start Qmp.d_line Qmp.d_values Qmp.d_mem Qmp.d_pos].
  rewrite Hinput, char_at_middle, char_at_next.
  change (code backslash =? code dquote) with false.
  change (code backslash =? code backslash) with true.
  change (code "r" =? 114) with true.
  replace (Z.of_nat (length pre) <? len) with true
    by (symmetry; apply Z.ltb_lt; lia).
  replace (Z.of_nat pos <? size) with true
    by (symmetry; apply Z.ltb_lt; lia).
  cbn [negb andb].
  replace (Qmp.LINE_SIZE <=? length line)%nat with false
    by (symmetry; apply Nat.leb_gt; lia).
  rewrite Hscan, Hcopy. reflexivity.
Qed.

(** The two-character sequence backslash, n is skipped. *)
Lemma dump_loop_lf (fuel : nat) (pre post line : cstring)
    (values mem : list Z) (pos : nat) :
  input = pre ++ backslash :: "n"%char :: post ->
  Z.of_nat (length pre) < len ->
  Z.of_nat pos < size ->
  Qmp.dump_loop (S fuel) input len size off
    {| Qmp.d_start := length pre; Qmp.d_line := line;
       Qmp.d_values := values; Qmp.d_mem := mem; Qmp.d_pos := pos |}
  = Qmp.dump_loop fuel input len size off
      {| Qmp.d_start := length pre + 2; Qmp.d_line := line;
         Qmp.d_values := values; Qmp.d_mem := mem; Qmp.d_pos := pos |}.
Proof.
  intros Hinput Hlen Hpos.
  rewrite dump_loop_unfold.
  unfold Qmp.dump_continues, Qmp.dump_step, Qmp.is_escape.
  cbn [Qmp.d_start Qmp.d_line Qmp.d_values Qmp.d_mem Qmp.d_pos].
  rewrite Hinput, char_at_middle, char_at_next.
  change (code backslash =? code dquote) with false.
  change (code backslash =? code backslash) with true.
  change (code "n" =? 114) with false.
  change (code "n" =? 110) with true.
  replace (Z.of_nat (length pre) <? len) with true
    by (symmetry; apply Z.ltb_lt; lia).
  replace (Z.of_nat pos <? size) with true
    by (symmetry; apply Z.ltb_lt; lia).
  reflexivity.
Qed.

(** The loop stops at the closing quote. *)
Lemma dump_loop_quote (fuel : nat) (pre post : cstring)
    (d : Qmp.dump_state) :
  input = pre ++ dquote :: post ->
  Qmp.d_start d = length pre ->
  Qmp.dump_loop (S fuel) input len size off d = Ok d.
Proof.
  intros Hinput Hstart. rewrite dump_loop_unfold.
  unfold Qmp.dump_continues. rewrite Hstart, Hinput, char_at_middle.
  rewrite Z.eqb_refl. reflexivity.
Qed.

(** ... and when the limit is reached. *)
Lemma dump_loop_limit (fuel : nat) (d : Qmp.dump_state) :
  size <= Z.of_nat (Qmp.d_pos d) ->
  Qmp.dump_loop (S fuel) input len size off d = Ok d.
Proof.
  intros Hpos. rewrite dump_loop_unfold. unfold Qmp.dump_continues.
  replace (Z.of_nat (Qmp.d_pos d) <? size) with false
    by (symmetry; apply Z.ltb_ge; lia).
  rewrite andb_false_r. reflexivity.
Qed.
End DumpLoop.

(** Storing values can only go wrong by running out of the object. *)
Lemma copy_values_fault (vals mem : list Z) (at_ : nat) (f : fault) :
  Qmp.copy_values vals mem at_ = Fault f -> f = OutOfBounds.
Proof.
  revert mem at_. induction vals as [|v vals IH]; intros mem at_;
    cbn [Qmp.copy_values]; [discriminate|].
  unfold Qmp.poke. destruct (at_ <? length mem)%nat;
    cbn [mbind outcome_bind]; [apply IH | congruence].
Qed.

(** One turn of the dump loop moves [start] forward unless it stops on an
    access out of bounds. *)
Lemma dump_step_advances (input : cstring) (off : nat) (d : Qmp.dump_state) :
  Qmp.dump_step input off d = Fault OutOfBounds
  \/ exists d', Qmp.dump_step input off d = Ok d'
                /\ (Qmp.d_start d < Qmp.d_start d')%nat.
Proof.
  unfold Qmp.dump_step.
  destruct (Qmp.is_escape input (Qmp.d_start d) 114).
  - destruct (Qmp.LINE_SIZE <=? length (Qmp.d_line d))%nat; [left; reflexivity|].
    destruct (sscanf_dump to_uchar 8 _ _) as [num values].
    destruct (Qmp.copy_values _ _ _) as [mem|f] eqn:E; cbn [mbind outcome_bind].
    + right. eexists. split; [reflexivity|]. cbn [Qmp.d_start]. lia.
    + left. rewrite (copy_values_fault _ _ _ _ E). reflexivity.
  - destruct (Qmp.is_escape input (Qmp.d_start d) 110).
    + right. eexists. split; [reflexivity|]. cbn [Qmp.d_start]. lia.
    + destruct (Qmp.LINE_SIZE <=? length (Qmp.d_line d))%nat; [left; reflexivity|].
      right. eexists. split; [reflexivity|]. cbn [Qmp.d_start]. lia.
Qed.

(** The step budget [qmp_populate_mem] gives its loop always suffices: the
    loop ends by itself, on the closing quote, on one of the two limits, or
    on an access out of bounds. *)
Lemma dump_loop_in_fuel (input : cstring) (len size : Z) (off : nat)
    (fuel : nat) (d : Qmp.dump_state) :
  (Z.to_nat len - Qmp.d_start d < fuel)%nat ->
  Qmp.dump_loop fuel input len size off d <> Fault OutOfFuel.
Proof.
  revert d. induction fuel as [|fuel IH]; intros d Hfuel; [lia|].
  cbn [Qmp.dump_loop].
  destruct (Qmp.dump_continues input len size d) eqn:Ego; [|discriminate].
  assert (Hin : (Qmp.d_start d < Z.to_nat len)%nat).
  { unfold Qmp.dump_continues in Ego.
    apply andb_true_iff in Ego. destruct Ego as [Ego _].
    apply andb_true_iff in Ego. destruct Ego as [_ Ego].
    apply Z.ltb_lt in Ego. lia. }
  destruct (dump_step_advances input off d) as [E | (d' & E & Hadv)];
    rewrite E; cbn [mbind outcome_bind]; [discriminate|].
  apply IH. lia.
Qed.

Lemma qmp_populate_mem_in_fuel (input : cstring) (len : Z) (mem : list Z)
    (off : nat) (size : Z) (w : world) :
  Qmp.qmp_populate_mem input len mem off size w <> Fault OutOfFuel.
Proof.
  unfold Qmp.qmp_populate_mem.
  destruct (strstr input Qmp.return_start) as [at_|]; [|discriminate].
  destruct (Qmp.dump_loop _ _ _ _ _ _) as [d|f] eqn:E;
    cbn [mbind outcome_bind]; [discriminate|].
  intros Hf. inversion Hf; subst f.
  revert E. apply dump_loop_in_fuel. cbn [Qmp.d_start]. lia.
Qed.

Lemma plain_chars (c : ascii) :
  plain c = true ->
  (code c =? code backslash) = false /\ (code c =? code dquote) = false.
Proof.
  unfold plain. intros H.
  destruct (code c =? code backslash); [rewrite andb_false_r in H; discriminate|].
  destruct (code c =? code dquote); [rewrite andb_false_r in H; discriminate|].
  split; reflexivity.
Qed.

Lemma dump_line_chars (label : cstring) (bytes : list Z) :
  Forall (fun c => plain c = true) label ->
  Forall is_byte bytes ->
  Forall (fun c => (code c =? code backslash) = false
                   /\ (code c =? code dquote) = false)
    (dump_line label bytes).
Proof.
  intros Hlabel Hbytes. unfold dump_line. apply Forall_app. split.
  - eapply List.Forall_impl; [|exact Hlabel]. exact plain_chars.
  - induction Hbytes as [|b bytes Hb Hbytes IH]; [constructor|].
    assert (H1 : 0 <= b / 16 < 16)
      by (unfold is_byte in Hb; split;
          [apply Z.div_pos; lia | apply Z.div_lt_upper_bound; lia]).
    assert (H2 : 0 <= b mod 16 < 16) by (apply Z.mod_pos_bound; lia).
    destruct (hex_digit_facts _ H1) as (_ & _ & _ & _ & _ & _ & B1 & Q1).
    destruct (hex_digit_facts _ H2) as (_ & _ & _ & _ & _ & _ & B2 & Q2).
    change (tokens (b :: bytes))
      with (" "%char :: "0"%char :: "x"%char :: hex_digit (b / 16)
              :: hex_digit (b mod 16) :: tokens bytes).
    repeat (constructor; [split; first [assumption | reflexivity]|]).
    exact IH.
Qed.

Lemma store_twice (mem bs bs' : list Z) (a : nat) :
  (a + length bs + length bs' <= length mem)%nat ->
  take (a + length bs) (take a mem ++ bs ++ drop (a + length bs) mem)
  ++ bs' ++ drop (a + length bs + length bs')
               (take a mem ++ bs ++ drop (a + length bs) mem)
  = take a mem ++ (bs ++ bs') ++ drop (a + length bs + length bs') mem.
Proof.
  intros Hfit.
  assert (Hta : length (take a mem) = a) by (rewrite length_take; lia).
  rewrite (app_assoc (take a mem) bs).
  rewrite take_app_length' by (rewrite length_app; lia).
  replace (a + length bs + length bs')%nat
    with (length (take a mem ++ bs) + length bs')%nat
    by (rewrite length_app; lia).
  rewrite <- drop_drop, drop_app_length, drop_drop.
  rewrite length_app, Hta, <- !app_assoc.

  reflexivity.
Qed.

Section DumpLines.
Variable input : cstring.
Variables len size : Z.
Variable off : nat.
Variable tail : cstring.

Lemma dump_loop_lines (lines : list (cstring * list Z)) :
  forall (fuel : nat) (pre : cstring) (values mem : list Z) (pos : nat),
    input = pre ++ dump_text lines ++ dquote :: tail ->
    Forall line_ok lines ->
    Z.of_nat (length (pre ++ dump_text lines)) <= len ->
    Z.of_nat (pos + length (flat_map snd lines)) <= size ->
    (off + pos + length (flat_map snd lines) <= length mem)%nat ->
    (length (dump_text lines) < fuel)%nat ->
    exists d,
      Qmp.dump_loop fuel input len size off
        {| Qmp.d_start := length pre; Qmp.d_line := [];
           Qmp.d_values := values; Qmp.d_mem := mem; Qmp.d_pos := pos |}
      = Ok d
      /\ Qmp.d_mem d
         = take (off + pos) mem ++ flat_map snd lines
           ++ drop (off + pos + length (flat_map snd lines)) mem.
Proof.
  induction lines as [|[label bytes] lines IH];
    intros fuel pre values mem pos Hinput Hok Hlen Hsize Hmem Hfuel.
  - destruct fuel as [|fuel]; [cbn in Hfuel; lia|].
    eexists. split.
    + eapply dump_loop_quote; [exact Hinput | reflexivity].
    + cbn [flat_map Qmp.d_mem length app]. rewrite Nat.add_0_r, take_drop.
      reflexivity.
  - inversion Hok as [|x l (Hne & Hlabel & Hbytes & Hcount & Hline) Hok'];
      subst x l. cbn [fst snd] in *.
    change (dump_text ((label, bytes) :: lines))
      with ((dump_line label bytes ++ lit "\r\n") ++ dump_text lines) in *.
    change (flat_map snd ((label, bytes) :: lines))
      with (bytes ++ flat_map snd lines) in *.
    change (lit "\r\n") with [backslash; "r"%char; backslash; "n"%char] in *.
    set (run := dump_line label bytes) in *.
    repeat rewrite length_app in Hlen.
    repeat rewrite length_app in Hsize.
    repeat rewrite length_app in Hmem.
    repeat rewrite length_app in Hfuel.
    cbn [length] in Hlen, Hfuel.
    (* the characters of the line *)
    replace fuel with (length run + S (fuel - length run - 1))%nat by lia.
    rewrite (dump_loop_plain input len size off run _ pre
               (backslash :: "r"%char :: backslash :: "n"%char
                  :: dump_text lines ++ dquote :: tail) []);
      [ | rewrite Hinput, <- !app_assoc; reflexivity
        | apply dump_line_chars; assumption
        | cbn [app]; lia
        | rewrite length_app; lia
        | lia ].
    cbn [app].
    (* backslash r *)
    erewrite (dump_loop_cr input len size off _ (pre ++ run)
                (backslash :: "n"%char :: dump_text lines ++ dquote :: tail)
                run values _ mem);
      [ | rewrite Hinput, <- !app_assoc; reflexivity
        | exact Hline
        | rewrite length_app; lia
        | lia
        | apply sscanf_dump_line; assumption
        | rewrite Nat2Z.id, take_app_length; apply copy_values_ok; lia ].
    rewrite Nat2Z.id, take_app_length.
    replace (length (pre ++ run) + 2)%nat
      with (length (pre ++ run ++ [backslash; "r"%char]))
      by (rewrite !length_app; cbn [length]; lia).
    destruct (Z_lt_ge_dec (Z.of_nat (pos + length bytes)) size) as [Hmore|Hfull].
    + (* backslash n, then the lines that follow *)
      replace (fuel - length run - 1)%nat
        with (S (fuel - length run - 2))%nat by lia.
      rewrite (dump_loop_lf input len size off _ (pre ++ run ++ [backslash; "r"%char])
                 (dump_text lines ++ dquote :: tail));
        [ | rewrite Hinput, <- !app_assoc; reflexivity
          | rewrite !length_app; cbn [length]; lia
          | exact Hmore ].
      replace (length (pre ++ run ++ [backslash; "r"%char]) + 2)%nat
        with (length (pre ++ run ++ [backslash; "r"%char; backslash; "n"%char]))
        by (rewrite !length_app; cbn [length]; lia).
      destruct (IH (fuel - length run - 2)%nat
                   (pre ++ run ++ [backslash; "r"%char; backslash; "n"%char])
                   (bytes ++ drop (length bytes) values)
                   (take (off + pos) mem ++ bytes
                      ++ drop (off + pos + length bytes) mem)
                   (pos + length bytes)%nat)
        as (d & Hd & Hdmem).
      * rewrite Hinput, <- !app_assoc. reflexivity.
      * exact Hok'.
      * rewrite !length_app in *. cbn [length]. lia.
      * lia.
      * rewrite !length_app, length_take, length_drop. lia.
      * lia.
      * exists d. split; [exact Hd|].
        rewrite Hdmem.
        replace (off + (pos + length bytes))%nat
          with (off + pos + length bytes)%nat by lia.
        rewrite store_twice by lia.
        rewrite length_app, Nat.add_assoc. reflexivity.
    + (* the limit is reached: the loop ends here *)
      assert (Hnil : flat_map snd lines = []).
      { apply length_zero_iff_nil. lia. }
      replace (fuel - length run - 1)%nat
        with (S (fuel - length run - 2))%nat by lia.
      eexists. split.
      * apply dump_loop_limit. cbn [Qmp.d_pos]. lia.
      * cbn [Qmp.d_mem]. rewrite Hnil, app_nil_r. reflexivity.
Qed.
End DumpLines.

(** C2 (as amended).  Let the response hold, after the marker
    [return_start], a dump of lines as the monitor prints them: an address
    label, one to eight [0xHH] tokens, and the two-character sequence
    backslash-r (followed by backslash-n) at the end of each line; let the
    limit and the output buffer have room for all the bytes.  Then
    [qmp_populate_mem] stores exactly those bytes, in order, from the
    start of the output: of each line the first white-space-delimited
    token (the label) is skipped and every [0xHH] token after it is
    appended.  For the two labelled lines of 00 .. 07 and 08 09 and a limit
    of 10 these are the ten bytes 00 .. 09. *)
Theorem qmp_populate_mem_lines (pre tail : cstring)
    (lines : list (cstring * list Z)) (len size : Z) (mem : list Z)
    (off : nat) (w : world) :
  strstr (pre ++ Qmp.return_start ++ dump_text lines ++ dquote :: tail)
    Qmp.return_start = Some (length pre) ->
  Forall line_ok lines ->
  Z.of_nat (length (pre ++ Qmp.return_start ++ dump_text lines)) <= len ->
  Z.of_nat (length (flat_map snd lines)) <= size ->
  (off + length (flat_map snd lines) <= length mem)%nat ->
  Qmp.qmp_populate_mem
    (pre ++ Qmp.return_start ++ dump_text lines ++ dquote :: tail)
    len mem off size w
  = Ok (0, take off mem ++ flat_map snd lines
           ++ drop (off + length (flat_map snd lines)) mem, w).
Proof.
  intros Hfind Hok Hlen Hsize Hmem.
  unfold Qmp.qmp_populate_mem. rewrite Hfind.
  change (strlen Qmp.return_start) with (length Qmp.return_start).
  rewrite <- length_app.
  rewrite app_assoc, length_app in Hlen.
  destruct (dump_loop_lines
              (pre ++ Qmp.return_start ++ dump_text lines ++ dquote :: tail)
              len size off tail lines (S (Z.to_nat len))
              (pre ++ Qmp.return_start) (repeat 0 8) mem 0%nat)
    as (d & Hd & Hdmem).
  - rewrite <- app_assoc. reflexivity.
  - exact Hok.
  - rewrite length_app. lia.
  - cbn [Nat.add]. exact Hsize.
  - rewrite Nat.add_0_r. exact Hmem.
  - lia.
  - rewrite Hd. cbn [mbind outcome_bind]. rewrite Hdmem, Nat.add_0_r.
    reflexivity.
Qed.

Lemma qmp_populate_mem_lines_witness :
  Qmp.qmp_populate_mem labelled_payload (Z.of_nat (length labelled_payload))
    (repeat 170 10) 0 10 calm
  = Ok (0, [0; 1; 2; 3; 4; 5; 6; 7; 8; 9], calm).
Proof.
  change labelled_payload
    with ([] ++ Qmp.return_start ++ dump_text labelled_lines ++ dquote :: []).
  apply (qmp_populate_mem_lines [] [] labelled_lines
           (Z.of_nat (length labelled_payload)) 10 (repeat 170 10) 0 calm).
  - vm_compute. reflexivity.
  - repeat constructor; try discriminate;
      try (cbn; lia); try (unfold is_byte; lia).
  - vm_compute. discriminate.
  - vm_compute. discriminate.
  - apply Nat.leb_le. vm_compute. reflexivity.
Defined.

(** The same by evaluation. *)
Example qmp_populate_mem_labelled_payload :
  Qmp.qmp_populate_mem labelled_payload (Z.of_nat (length labelled_payload))
    (repeat 170 10) 0 10 calm
  = Ok (0, [0; 1; 2; 3; 4; 5; 6; 7; 8; 9], calm).
Proof. vm_compute. reflexivity. Qed.

(** C2 (the claim as stated fails).  On the bare payload with a limit of
    10 the parser stores eight bytes, 01 .. 07 and 09: the conversion
    [%*s] at the head of the format consumes the first token of every
    line, so 00 and 08 are dropped, and the last two bytes of the
    ten-byte output keep what they held (AA here). *)
Lemma qmp_populate_mem_bare_payload :
  Qmp.qmp_populate_mem bare_payload (Z.of_nat (length bare_payload))
    (repeat 170 10) 0 10 calm
  = Ok (0, [1; 2; 3; 4; 5; 6; 7; 9; 170; 170], calm)
  /\ [1; 2; 3; 4; 5; 6; 7; 9; 170; 170] <> [0; 1; 2; 3; 4; 5; 6; 7; 8; 9].
Proof. split; [vm_compute; reflexivity | discriminate]. Qed.

(** ** The greeting check of [qmp_establish_conn] *)

(** C3.  A peer whose first bytes are [hello], which is not the QMP
    greeting, is accepted: [qmp_establish_conn] returns 0 and logs
    nothing. *)
Theorem qmp_establish_conn_accepts_hello :
  strncasecmp (lit "hello") Qmp.QMP_GREETING (strlen Qmp.QMP_GREETING) <> 0
  /\ Qmp.qmp_establish_conn (lit "/tmp/qmp.sock") (greets (lit "hello"))
     = Ok (0, set_polls [] (set_qmp_fd 3 calm)).
Proof. split; [ vm_compute; discriminate | vm_compute; reflexivity ]. Qed.

(** Whatever the first message says, as long as it is not empty and fits
    the 512-byte buffer, [qmp_establish_conn] returns 0: the comparison
    with the greeting only runs when nothing was received. *)
Lemma qmp_establish_conn_ignores_content (first : cstring) :
  (0 < length first <= 512)%nat ->
  Qmp.qmp_establish_conn (lit "/tmp/qmp.sock") (greets first)
  = Ok (0, set_polls [] (set_qmp_fd 3 calm)).
Proof.
  intros [Hpos Hle].
  assert (Hx : Qmp.xread 1024 first = first).
  { unfold Qmp.xread. apply firstn_all2. lia. }
  assert (Hd : delivered (polls (set_qmp_fd 3 (greets first))) = first).
  { cbn [greets set_polls set_qmp_fd polls delivered]. rewrite Hx.
    apply app_nil_r. }
  unfold Qmp.qmp_establish_conn.
  change (strlen (lit "/tmp/qmp.sock")) with 13%nat.
  change (13 =? 0)%nat with false.
  change (socket_ret (greets first)) with 3.
  change (3 <? 0) with false.
  change (Qmp.SUN_PATH_SIZE <=? 13)%nat with false.
  change (connect_ret (set_qmp_fd 3 (greets first)) =? -1) with false.
  cbn iota.
  rewrite qmp_read_fits; rewrite Hd.
  - cbn [mbind Outcome.outcome_bind].
    change (fst (ending (polls (set_qmp_fd 3 (greets first))))) with 0.
    change (0 =? -1) with false. cbn iota.
    rewrite u64_small.
    + replace (Z.of_nat (length first) =? 0) with false
        by (symmetry; apply Z.eqb_neq; lia).
      reflexivity.
    + change (2 ^ 64) with 18446744073709551616. lia.
  - rewrite repeat_length. exact Hle.
Qed.

(** ** The segment loop *)

Section SegmentLoop.
Context {St : Type}.
Variable part : Z -> nat -> Z -> St -> outcome (Z * St).

Lemma run_plan_app (a b : list segment) (s : St) :
  run_plan part (a ++ b) s
  = '(r, s') ← run_plan part a s;
    if r =? 0 then run_plan part b s' else Ok (-1, s').
Proof.
  revert s. induction a as [|g a IH]; intros s; cbn [app run_plan].
  - reflexivity.
  - destruct (part (seg_addr g) (seg_offset g) (seg_length g) s)
      as [[r s']|f]; cbn [mbind outcome_bind]; [|reflexivity].
    destruct (r =? 0); cbn [negb]; [apply IH | reflexivity].
Qed.

(** The first request that fails ends the run: the result is -1 with
    the state that request left, whatever follows in the list. *)
Lemma run_plan_first_failure (before after : list segment) (g : segment)
    (s s1 s2 : St) (r : Z) :
  run_plan part before s = Ok (0, s1) ->
  part (seg_addr g) (seg_offset g) (seg_length g) s1 = Ok (r, s2) ->
  r <> 0 ->
  run_plan part (before ++ g :: after) s = Ok (-1, s2).
Proof.
  intros Hbefore Hg Hr. rewrite run_plan_app, Hbefore.
  cbn [mbind outcome_bind Z.eqb run_plan]. rewrite Hg.
  cbn [mbind outcome_bind].
  replace (r =? 0) with false by (symmetry; apply Z.eqb_neq; exact Hr).
  reflexivity.
Qed.

Lemma segment_loop_unfold (fuel : nat) (i addr : Z) (buf : nat) (size : Z)
    (s : St) :
  Qmp.segment_loop part (S fuel) i addr buf size s
  = if u64 i <? size / Qmp.step then
      '(r, s) ← part addr buf Qmp.step s;
      if negb (r =? 0) then Ok (Qmp.Returned (-1), s)
      else Qmp.segment_loop part fuel (to_int (i + 1))
             (u64 (addr + Qmp.step)) (buf + Z.to_nat Qmp.step) size s
    else Ok (Qmp.Completed addr buf, s).
Proof. reflexivity. Qed.

Lemma segment_loop_runs (size addr : Z) (m k : nat) (s : St) :
  0 <= size ->
  size / Qmp.step <= INT_MAX ->
  Z.of_nat (k + m) = size / Qmp.step ->
  Qmp.segment_loop part (S m) (Z.of_nat k)
    (u64 (addr + Qmp.step * Z.of_nat k)) (Z.to_nat Qmp.step * k) size s
  = '(r, s') ← run_plan part (map (full_segment addr) (seq k m)) s;
    if r =? 0
    then Ok (Qmp.Completed (u64 (addr + Qmp.step * (size / Qmp.step)))
               (Z.to_nat Qmp.step * Z.to_nat (size / Qmp.step))%nat, s')
    else Ok (Qmp.Returned (-1), s').
Proof.
  intros Hsize Hint. revert k s.
  induction m as [|m IH]; intros k s Hk.
  - rewrite segment_loop_unfold.
    cbn [seq map run_plan mbind outcome_bind Z.eqb].
    rewrite u64_small
      by (unfold INT_MAX in Hint; change (2 ^ 64) with 18446744073709551616; lia).
    replace (Z.of_nat k <? size / Qmp.step) with false
      by (symmetry; apply Z.ltb_ge; lia).
    rewrite <- Hk, Nat.add_0_r, Nat2Z.id. reflexivity.
  - rewrite segment_loop_unfold. cbn [seq map run_plan].
    rewrite u64_small
      by (unfold INT_MAX in Hint; change (2 ^ 64) with 18446744073709551616; lia).
    replace (Z.of_nat k <? size / Qmp.step) with true
      by (symmetry; apply Z.ltb_lt; lia).
    change (seg_addr (full_segment addr k))
      with (u64 (addr + Qmp.step * Z.of_nat k)).
    change (seg_offset (full_segment addr k)) with (Z.to_nat Qmp.step * k)%nat.
    change (seg_length (full_segment addr k)) with Qmp.step.
    destruct (part (u64 (addr + Qmp.step * Z.of_nat k))
                (Z.to_nat Qmp.step * k)%nat Qmp.step s)
      as [[r s']|f]; cbn [mbind outcome_bind]; [|reflexivity].
    destruct (r =? 0); cbn [negb]; [|reflexivity].
    rewrite to_int_small by (unfold INT_MAX in *; lia).
    rewrite u64_add_l.
    replace (Z.of_nat k + 1) with (Z.of_nat (S k)) by lia.
    replace (addr + Qmp.step * Z.of_nat k + Qmp.step)
      with (addr + Qmp.step * Z.of_nat (S k)) by lia.
    replace (Z.to_nat Qmp.step * k + Z.to_nat Qmp.step)%nat
      with (Z.to_nat Qmp.step * S k)%nat by lia.
    apply IH. lia.
Qed.

Lemma readmem_chunked_runs_plan (addr size : Z) (s : St) :
  0 <= addr < 2 ^ 64 ->
  0 <= size ->
  size / Qmp.step <= INT_MAX ->
  Qmp.readmem_chunked part addr size s = run_plan part (plan addr size) s.
Proof.
  intros Haddr Hsize Hint. unfold Qmp.readmem_chunked, plan.
  assert (Hdiv : 0 <= size / Qmp.step)
    by (apply Z.div_pos; [exact Hsize | reflexivity]).
  pose proof (segment_loop_runs size addr (Z.to_nat (size / Qmp.step)) 0 s
                Hsize Hint) as Hloop.
  change (Z.of_nat 0) with 0 in Hloop.
  rewrite Z.mul_0_r, Z.add_0_r, Nat.mul_0_r, (u64_small addr Haddr) in Hloop.
  rewrite run_plan_app, Hloop by (cbn [Nat.add]; lia).
  destruct (run_plan part _ s) as [[r s']|f]; cbn [mbind outcome_bind];
    [|reflexivity].
  destruct (r =? 0) eqn:Er; cbn [mbind outcome_bind].
  - destruct (0 <? size mod Qmp.step); cbn [run_plan]; reflexivity.
  - reflexivity.
Qed.

(** The step budget of the segment loop suffices for every [size_t]
    length, also where the [int] counter wraps: a counter that has
    wrapped converts to a [size_t] above every segment count. *)
Lemma segment_loop_in_fuel (size : Z) (fuel k : nat) (addr : Z) (buf : nat)
    (s : St) :
  (forall a o l s', part a o l s' <> Fault OutOfFuel) ->
  0 <= size < 2 ^ 64 ->
  Z.of_nat k <= INT_MAX ->
  (Z.to_nat (size / Qmp.step) - k < fuel)%nat ->
  Qmp.segment_loop part fuel (Z.of_nat k) addr buf size s <> Fault OutOfFuel.
Proof.
  intros Hpart Hsize. revert k addr buf s.
  assert (Hdiv : 0 <= size / Qmp.step < 2 ^ 52).
  { split; [apply Z.div_pos; [lia | reflexivity]|].
    apply Z.div_lt_upper_bound; [reflexivity|].
    change (Qmp.step * 2 ^ 52) with (2 ^ 64). lia. }
  induction fuel as [|fuel IH]; intros k addr buf s Hk Hfuel; [lia|].
  rewrite segment_loop_unfold.
  rewrite u64_small
    by (unfold INT_MAX in Hk; change (2 ^ 64) with 18446744073709551616; lia).
  destruct (Z.of_nat k <? size / Qmp.step) eqn:Ego; [|discriminate].
  apply Z.ltb_lt in Ego.
  destruct (part addr buf Qmp.step s) as [[r s']|f] eqn:Ep;
    cbn [mbind outcome_bind];
    [|intros Hf; inversion Hf; subst f; exact (Hpart _ _ _ _ Ep)].
  destruct (negb (r =? 0)); [discriminate|].
  destruct (Z_le_gt_dec (Z.of_nat k + 1) INT_MAX) as [Hfits|Hwraps].
  - rewrite to_int_small by (unfold INT_MAX in *; lia).
    replace (Z.of_nat k + 1) with (Z.of_nat (S k)) by lia.
    apply IH; lia.
  - (* the counter wraps to INT_MIN and the loop ends at its next test *)
    assert (Hmax : Z.of_nat k = INT_MAX) by lia.
    rewrite Hmax.
    destruct fuel as [|fuel]; [lia|].
    rewrite segment_loop_unfold.
    change (u64 (to_int (INT_MAX + 1))) with (2 ^ 64 - 2 ^ 31).
    replace (2 ^ 64 - 2 ^ 31 <? size / Qmp.step) with false
      by (symmetry; apply Z.ltb_ge;
          change (2 ^ 64 - 2 ^ 31) with 18446744071562067968;
          change (2 ^ 52) with 4503599627370496 in Hdiv; lia).
    discriminate.
Qed.

End SegmentLoop.

Lemma affine_sorted (addr : Z) (a m : nat) :
  StronglySorted Z.lt
    (map (fun k => addr + Qmp.step * Z.of_nat k) (seq a m)).
Proof.
  revert a. induction m as [|m IH]; intros a; cbn [seq map].
  - constructor.
  - constructor; [apply IH|].
    apply List.Forall_forall. intros y Hy.
    apply in_map_iff in Hy. destruct Hy as (k & <- & Hk).
    apply in_seq in Hk. unfold Qmp.step. lia.
Qed.

Lemma plan_length (addr size : Z) :
  length (plan addr size)
  = (Z.to_nat (size / Qmp.step)%Z
     + if (0 <? size mod Qmp.step)%Z then 1 else 0)%nat.
Proof.
  unfold plan. rewrite length_app, length_map, length_seq.
  destruct (0 <? size mod Qmp.step); reflexivity.
Qed.

Lemma plan_lengths (addr size : Z) :
  map seg_length (plan addr size)
  = repeat Qmp.step (Z.to_nat (size / Qmp.step))
    ++ (if 0 <? size mod Qmp.step then [size mod Qmp.step] else []).
Proof.
  unfold plan. rewrite map_app, map_map. f_equal.
  - generalize 0%nat. induction (Z.to_nat (size / Qmp.step)) as [|n IH];
      intros a; cbn [seq map repeat]; [reflexivity|].
    f_equal. apply IH.
  - destruct (0 <? size mod Qmp.step); reflexivity.
Qed.

Lemma plan_offsets (addr size : Z) :
  map seg_offset (plan addr size)
  = map (fun k => (Z.to_nat Qmp.step * k)%nat) (seq 0 (length (plan addr size))).
Proof.
  rewrite plan_length. unfold plan. rewrite map_app, map_map.
  destruct (0 <? size mod Qmp.step); cbn [map].
  - rewrite seq_app, map_app. reflexivity.
  - rewrite Nat.add_0_r, app_nil_r. reflexivity.
Qed.

Lemma plan_addresses (addr size : Z) :
  0 <= addr -> 0 <= size -> addr + size <= 2 ^ 64 ->
  map seg_addr (plan addr size)
  = map (fun k => addr + Qmp.step * Z.of_nat k)
      (seq 0 (length (plan addr size))).
Proof.
  intros Haddr Hsize Hfit.
  assert (Hdiv : 0 <= size / Qmp.step)
    by (apply Z.div_pos; [exact Hsize | reflexivity]).
  pose proof (Z.div_mod size Qmp.step ltac:(discriminate)) as Hdm.
  pose proof (Z.mod_pos_bound size Qmp.step ltac:(reflexivity)) as Hmod.
  rewrite plan_length. unfold plan. rewrite map_app, map_map.
  assert (Hfull : map (fun k => seg_addr (full_segment addr k))
                    (seq 0 (Z.to_nat (size / Qmp.step)))
                  = map (fun k => addr + Qmp.step * Z.of_nat k)
                      (seq 0 (Z.to_nat (size / Qmp.step)))).
  { apply map_ext_in. intros k Hk. apply in_seq in Hk.
    unfold seg_addr, full_segment. cbn [fst].
    apply u64_small. unfold Qmp.step in *. lia. }
  rewrite Hfull.
  destruct (0 <? size mod Qmp.step) eqn:Erem; cbn [map].
  - rewrite seq_app, map_app. cbn [seq map Nat.add]. f_equal.
    unfold seg_addr. cbn [fst]. rewrite Z2Nat.id by exact Hdiv.
    f_equal. apply u64_small. apply Z.ltb_lt in Erem.
    unfold Qmp.step in *. lia.
  - rewrite Nat.add_0_r, app_nil_r. reflexivity.
Qed.

(** C4 (as amended).  For a read that does not run past the end of the
    64-bit address space and whose count of full segments fits the [int]
    loop counter, [qmp_readmem] and [libvirt_readmem] issue, through their
    single-segment reader and in this order, [size / 4096] requests of 4096
    bytes at the addresses [addr], [addr + 4096], ..., then one request of
    [size mod 4096] bytes when that is not zero; request number [k] writes
    at offset [4096 * k] of the output buffer; the addresses are strictly
    increasing; and the first request that fails ends the call with -1,
    no later request being issued. *)
Theorem readmem_issues_plan (addr size : Z) :
  0 <= addr < 2 ^ 64 ->
  0 <= size ->
  addr + size <= 2 ^ 64 ->
  size / 4096 <= INT_MAX ->
  (forall s, Qmp.qmp_readmem addr size s
             = run_plan Qmp.qmp_readmem_part (plan addr size) s)
  /\ (forall s, Guest.libvirt_readmem addr size s
                = run_plan Guest.libvirt_readmem_part (plan addr size) s)
  /\ length (plan addr size)
     = (Z.to_nat (size / 4096)%Z
        + if (0 <? size mod 4096)%Z then 1 else 0)%nat
  /\ map seg_length (plan addr size)
     = repeat 4096 (Z.to_nat (size / 4096))
       ++ (if 0 <? size mod 4096 then [size mod 4096] else [])
  /\ map seg_addr (plan addr size)
     = map (fun k => addr + 4096 * Z.of_nat k) (seq 0 (length (plan addr size)))
  /\ map seg_offset (plan addr size)
     = map (fun k => Z.to_nat (4096 * Z.of_nat k)) (seq 0 (length (plan addr size)))
  /\ StronglySorted Z.lt (map seg_addr (plan addr size))
  /\ (forall St (part : Z -> nat -> Z -> St -> outcome (Z * St))
        before g after s s1 s2 r,
        run_plan part before s = Ok (0, s1) ->
        part (seg_addr g) (seg_offset g) (seg_length g) s1 = Ok (r, s2) ->
        r <> 0 ->
        run_plan part (before ++ g :: after) s = Ok (-1, s2)).
Proof.
  intros Haddr Hsize Hfit Hint.
  split; [|split; [|split; [|split; [|split; [|split; [|split]]]]]].
  - intros s. apply readmem_chunked_runs_plan; assumption.
  - intros s. apply readmem_chunked_runs_plan; assumption.
  - apply plan_length.
  - apply plan_lengths.
  - apply plan_addresses; lia.
  - rewrite plan_offsets. apply map_ext. intros k.
    change Qmp.step with 4096. lia.
  - rewrite plan_addresses by lia. apply affine_sorted.
  - intros St part before g after s s1 s2 r. apply run_plan_first_failure.
Qed.

Lemma readmem_issues_plan_witness :
  (forall s, Qmp.qmp_readmem 4096 8200 s
             = run_plan Qmp.qmp_readmem_part (plan 4096 8200) s)
  /\ map seg_addr (plan 4096 8200) = [4096; 8192; 12288]
  /\ map seg_length (plan 4096 8200) = [4096; 4096; 8].
Proof.
  destruct (readmem_issues_plan 4096 8200) as (Hq & _ & _ & Hl & Ha & _).
  - vm_compute. split; [discriminate | reflexivity].
  - vm_compute. discriminate.
  - vm_compute. discriminate.
  - vm_compute. discriminate.
  - split; [exact Hq | split; [exact Ha | exact Hl]].
Defined.

(** C4 (the claim as stated fails).  A read of two segments that starts
    4096 bytes below 2^64: the second request goes to address 0, below the
    first, since the address is a [uint64_t] and wraps.  Shown on the
    requests as such and on the commands [qmp_readmem] writes to the
    socket. *)
Lemma readmem_addresses_wrap :
  Qmp.readmem_chunked recorder (2 ^ 64 - 4096) 8192 []
  = Ok (0, [(0xfffffffffffff000, 0%nat, 4096); (0, Z.to_nat 4096, 4096)])
  /\ (exists w',
        Qmp.qmp_readmem (2 ^ 64 - 4096) 8192 ([], answers_twice)
        = Ok (0, ([], w'))
        /\ sent w'
           = [Qmp.q "{'execute': 'human-monitor-command', 'arguments': {'command-line': 'xp /4096xb 0xfffffffffffff000'}}";
              Qmp.q "{'execute': 'human-monitor-command', 'arguments': {'command-line': 'xp /4096xb 0x0'}}"])
  /\ ~ 0xfffffffffffff000 < 0.
Proof.
  split; [vm_compute; reflexivity|].
  split; [|lia].
  eexists. split; vm_compute; reflexivity.
Qed.

(** ** The zero-length guard of the socket segment reader *)

(** C5 (the claim as stated fails).  A request of length 0 returns 0, and
    0 is what a request that succeeds returns: the guard does not give a
    failure result distinct from success. *)
Lemma qmp_readmem_part_zero_length_returns_success :
  (exists s,
     Qmp.qmp_readmem_part 4096 0 0
       (repeat 170 12, greets (lit "{" ++ labelled_payload ++ lit "}"))
     = Ok (0, s))
  /\ (exists s,
        Qmp.qmp_readmem_part 4096 0 10
          (repeat 170 12, greets (lit "{" ++ labelled_payload ++ lit "}"))
        = Ok (0, s)
        /\ fst s = [0; 1; 2; 3; 4; 5; 6; 7; 8; 9; 170; 170]).
Proof.
  split; eexists; [|split]; vm_compute; reflexivity.
Qed.

(** C5 (as amended).  A single-segment request of length 0 is turned away
    by the guard: it performs no exchange (nothing is written to the
    socket, no poll is consumed, the output is untouched) and logs the
    warning; what it returns is [size], that is 0. *)
Theorem qmp_readmem_part_zero_length (addr : Z) (off : nat) (mem : list Z)
    (w : world) :
  Qmp.qmp_readmem_part addr off 0 (mem, w) =
    Ok (0, (mem, pr_warning "Invalid input size: %ld" w))
  /\ sent (pr_warning "Invalid input size: %ld" w) = sent w
  /\ polls (pr_warning "Invalid input size: %ld" w) = polls w.
Proof. repeat split. Qed.

(** ** Backend dispatch *)

(** C6 (the claim as stated fails).  With a file that cannot be opened the
    construction step of the flat-file mode fails, yet [guest_client_new]
    returns 0 and installs the backend, its file handle null. *)
Lemma guest_client_new_hides_failure :
  fst (Guest.file_client_init (lit "/no/such/file") calm) = -1
  /\ Guest.guest_client_new (lit "/no/such/file") GUEST_MEMORY calm
     = Ok (0, set_guest_client (Some (capabilities GUEST_MEMORY))
                (pr_err "fopen error" calm))
  /\ mem_file (pr_err "fopen error" calm) = None.
Proof. repeat split. Qed.

(** C6 (as amended).  When no backend is installed, [guest_client_new] runs
    the construction step of the mode, drops its result, installs a
    backend whose capability table is fully populated for the mode, and
    returns 0, whether the construction step succeeded or failed (only
    undefined behaviour inside the construction step keeps it from
    returning).  The table is populated before it becomes visible, so no
    capability call sees a partly filled one. *)
Theorem guest_client_new_installs (ac : cstring) (mode : guest_access_t)
    (w : world) :
  guest_client w = None ->
  Guest.guest_client_new ac mode w
  = match construct ac mode w with
    | Ok (_, w1) => Ok (0, set_guest_client (Some (capabilities mode)) w1)
    | Fault f => Fault f
    end
  /\ ty (capabilities mode) = mode
  /\ is_Some (get_registers (capabilities mode))
  /\ is_Some (Env.readmem (capabilities mode)).
Proof.
  intros Hnone. split.
  - unfold Guest.guest_client_new, construct. rewrite Hnone.
    destruct mode; cbn [ty].
    + destruct (Guest.libvirt_client_init ac w). reflexivity.
    + destruct (Guest.file_client_init ac w). reflexivity.
    + destruct (Qmp.qmp_client_init ac w) as [[r w1]|f]; reflexivity.
  - destruct mode; repeat split; eexists; reflexivity.
Qed.

Lemma guest_client_new_installs_witness :
  Guest.guest_client_new (lit "/no/such/file") GUEST_MEMORY calm
  = match construct (lit "/no/such/file") GUEST_MEMORY calm with
    | Ok (_, w1) => Ok (0, set_guest_client (Some (capabilities GUEST_MEMORY)) w1)
    | Fault f => Fault f
    end
  /\ ty (capabilities GUEST_MEMORY) = GUEST_MEMORY
  /\ is_Some (get_registers (capabilities GUEST_MEMORY))
  /\ is_Some (Env.readmem (capabilities GUEST_MEMORY)).
Proof.
  apply (guest_client_new_installs (lit "/no/such/file") GUEST_MEMORY calm).
  reflexivity.
Defined.

(** ** Address translation in [readmem] *)

(** C7.  With a backend installed, a kernel-virtual read goes to the
    backend's reader at [addr - __START_KERNEL_map + phys_base] when [addr]
    is at or above [__START_KERNEL_map] and at [addr - PAGE_OFFSET]
    otherwise (unsigned 64-bit arithmetic), and a physical read at [addr]
    itself. *)
Theorem readmem_translation (START_KERNEL_map PAGE_OFFSET phys_base junk : Z)
    (addr size : Z) (s : list Z * world) (c : guest_client_t)
    (f : readmem_fn) :
  guest_client (snd s) = Some c ->
  Env.readmem c = Some f ->
  Guest.readmem START_KERNEL_map PAGE_OFFSET phys_base junk addr Guest.KVADDR size s
  = Guest.call_readmem f
      (if START_KERNEL_map <=? addr
       then u64 (addr - START_KERNEL_map + phys_base)
       else u64 (addr - PAGE_OFFSET))
      (u64 size) s
  /\ Guest.readmem START_KERNEL_map PAGE_OFFSET phys_base junk addr Guest.PHYSADDR size s
     = Guest.call_readmem f addr (u64 size) s.
Proof.
  intros Hc Hf. unfold Guest.readmem, Guest.readmem_paddr.
  rewrite Hc, Hf, u64_add_l. split; reflexivity.
Qed.

Lemma readmem_translation_witness :
  Guest.readmem 0xffffffff80000000 0xffff880000000000 0x1000000 0
    0xffffffff81000010 Guest.KVADDR 4 ([9; 9; 9; 9], file_backend (zero_image 64))
  = Guest.call_readmem file_readmem_fn
      (if 0xffffffff80000000 <=? 0xffffffff81000010
       then u64 (0xffffffff81000010 - 0xffffffff80000000 + 0x1000000)
       else u64 (0xffffffff81000010 - 0xffff880000000000))
      (u64 4) ([9; 9; 9; 9], file_backend (zero_image 64))
  /\ Guest.readmem 0xffffffff80000000 0xffff880000000000 0x1000000 0
       0xffffffff81000010 Guest.PHYSADDR 4
       ([9; 9; 9; 9], file_backend (zero_image 64))
     = Guest.call_readmem file_readmem_fn 0xffffffff81000010 (u64 4)
         ([9; 9; 9; 9], file_backend (zero_image 64)).
Proof.
  apply (readmem_translation 0xffffffff80000000 0xffff880000000000 0x1000000 0
           0xffffffff81000010 4 ([9; 9; 9; 9], file_backend (zero_image 64))
           (capabilities GUEST_MEMORY) file_readmem_fn);
    reflexivity.
Defined.

(** Both branches at literal addresses: the base of the kernel text mapping
    itself, the address just below it, and a direct-map address. *)
Example readmem_paddr_boundaries :
  Guest.readmem_paddr 0xffffffff80000000 0xffff880000000000 0x1000000 0
    0xffffffff80000000 Guest.KVADDR = 0x1000000
  /\ Guest.readmem_paddr 0xffffffff80000000 0xffff880000000000 0x1000000 0
       0xffffffff7fffffff Guest.KVADDR = 0x77ff7fffffff
  /\ Guest.readmem_paddr 0xffffffff80000000 0xffff880000000000 0x1000000 0
       0xffff880000001000 Guest.KVADDR = 0x1000.
Proof. repeat split. Qed.

(** ** Register lookup *)

Lemma qmp_populate_reg_cases (buf name : cstring) :
  (exists v, Qmp.qmp_populate_reg buf name = (0, Some v))
  \/ Qmp.qmp_populate_reg buf name = (-1, None).
Proof.
  unfold Qmp.qmp_populate_reg.
  destruct (strstr buf name) as [off|]; [|right; reflexivity].
  destruct (sscanf_lx _) as [n [v|]] eqn:E.
  - unfold sscanf_lx in E. destruct (scan_hex _); inversion E; subst.
    left. eexists. reflexivity.
  - unfold sscanf_lx in E. destruct (scan_hex _); inversion E; subst;
      right; reflexivity.
Qed.

Lemma qmp_populate_reg_absent (buf name : cstring) :
  strstr buf name = None -> Qmp.qmp_populate_reg buf name = (-1, None).
Proof. intros H. unfold Qmp.qmp_populate_reg. rewrite H. reflexivity. Qed.

Lemma on_block_terminated {A : Type} (block : cstring) (to_end : bool)
    (call : outcome A) :
  terminated block = true -> Qmp.on_block block to_end call = call.
Proof.
  intros H. unfold Qmp.on_block. rewrite H, andb_false_r. reflexivity.
Qed.

Lemma on_block_inside {A : Type} (block : cstring) (call : outcome A) :
  Qmp.on_block block false call = call.
Proof. reflexivity. Qed.

(** In a block that holds a NUL the three lookups run in the order CR3,
    CR4, IDT; the first one that fails ends the call with its own message
    and the later ones are not run. *)
Lemma populate_all_first_failure (buf : cstring) (regs : registers)
    (w : world) :
  terminated buf = true ->
  Qmp.populate_all buf regs w
  = Ok match Qmp.qmp_populate_reg buf (lit "CR3") with
       | (0, Some v3) =>
           match Qmp.qmp_populate_reg buf (lit "CR4") with
           | (0, Some v4) =>
               match Qmp.qmp_populate_reg buf (lit "IDT") with
               | (0, Some vi) => (0, {| idtr := vi; cr3 := v3; cr4 := v4 |}, w)
               | _ => (-1, {| idtr := idtr regs; cr3 := v3; cr4 := v4 |},
                       pr_err "Failed to get register IDT" w)
               end
           | _ => (-1, {| idtr := idtr regs; cr3 := v3; cr4 := cr4 regs |},
                   pr_err "Failed to get register CR4" w)
           end
       | _ => (-1, regs, pr_err "Failed to get register CR3" w)
       end.
Proof.
  intros Hnul. unfold Qmp.populate_all, Qmp.populate_reg_in.
  rewrite !on_block_terminated by exact Hnul.
  cbn [mbind outcome_bind].
  destruct (qmp_populate_reg_cases buf (lit "CR3")) as [[v3 E3]|E3];
    rewrite E3; [|reflexivity].
  destruct (qmp_populate_reg_cases buf (lit "CR4")) as [[v4 E4]|E4];
    rewrite E4; [|reflexivity].
  destruct (qmp_populate_reg_cases buf (lit "IDT")) as [[vi Ei]|Ei];
    rewrite Ei; reflexivity.
Qed.

(** C8 (the claim as stated fails).  In the first response the label CR3
    is present and the label CR4 is absent, yet the error names CR3: what
    follows the label is no hexadecimal value, so the first lookup is the
    one that fails.  In the second the response is [dump_without_cr4],
    CR3 with its value and no CR4, but the heap held no NUL behind it:
    the code does not terminate the block, the search for CR4 runs off
    its end, and no error naming CR4 results. *)
Lemma qmp_get_registers_names_cr3 :
  (strstr dump_cr3_without_value (lit "CR3") <> None
   /\ strstr dump_cr3_without_value (lit "CR4") = None
   /\ exists w',
        Qmp.qmp_get_registers {| idtr := 0; cr3 := 0; cr4 := 0 |}
          (greets dump_cr3_without_value)
        = Ok (-1, {| idtr := 0; cr3 := 0; cr4 := 0 |}, w')
        /\ log w' = ["Failed to get register CR3"%string])
  /\ (Qmp.qmp_populate_reg dump_without_cr4 (lit "CR3")
      = (0, Some 0x19872000)
      /\ strstr dump_without_cr4 (lit "CR4") = None
      /\ Qmp.qmp_get_registers {| idtr := 0; cr3 := 0; cr4 := 0 |}
           (set_polls [PollReady true dump_without_cr4; PollTimeout]
              stale_heap)
         = Fault OutOfBounds).
Proof.
  split.
  - split; [vm_compute; discriminate|].
    split; [vm_compute; reflexivity|].
    eexists. split; vm_compute; reflexivity.
  - repeat split; vm_compute; reflexivity.
Qed.

(** C8 (as amended).  Let the exchange of [qmp_get_registers] go through
    (the command is written in full and a non-empty response is read)
    and let the block [buf] that holds the response hold a NUL, so that
    the search for a label that is not there ends inside it.  If the
    label CR4 is absent from [buf] while the lookup of CR3 succeeds (the
    label is followed by [=] and a hexadecimal value), the call fails and
    the one message it logs names CR4; IDT is not looked up.  In general
    the lookups run in the order CR3, CR4, IDT and the first that fails
    decides the message. *)
Theorem qmp_get_registers_first_failure (regs : registers) (w w1 : world)
    (nread v3 : Z) (buf : cstring) :
  fst (Qmp.xwrite Qmp.QMP_COMMAND_INFO_REGS w)
    = Z.of_nat (strlen Qmp.QMP_COMMAND_INFO_REGS) ->
  Qmp.qmp_read (Qmp.xmalloc 8192 (snd (Qmp.xwrite Qmp.QMP_COMMAND_INFO_REGS w)))
    (snd (Qmp.xwrite Qmp.QMP_COMMAND_INFO_REGS w))
    = Ok (0, nread, buf, w1) ->
  0 < nread ->
  terminated buf = true ->
  strstr buf (lit "CR4") = None ->
  Qmp.qmp_populate_reg buf (lit "CR3") = (0, Some v3) ->
  Qmp.qmp_get_registers regs w
  = Ok (-1, {| idtr := idtr regs; cr3 := v3; cr4 := cr4 regs |},
        pr_err "Failed to get register CR4" w1)
  /\ log (pr_err "Failed to get register CR4" w1)
     = log w1 ++ ["Failed to get register CR4"%string]
  /\ forall buf' regs' w',
       terminated buf' = true ->
       Qmp.populate_all buf' regs' w'
       = Ok match Qmp.qmp_populate_reg buf' (lit "CR3") with
            | (0, Some v3) =>
                match Qmp.qmp_populate_reg buf' (lit "CR4") with
                | (0, Some v4) =>
                    match Qmp.qmp_populate_reg buf' (lit "IDT") with
                    | (0, Some vi) =>
                        (0, {| idtr := vi; cr3 := v3; cr4 := v4 |}, w')
                    | _ => (-1, {| idtr := idtr regs'; cr3 := v3; cr4 := v4 |},
                            pr_err "Failed to get register IDT" w')
                    end
                | _ => (-1, {| idtr := idtr regs'; cr3 := v3; cr4 := cr4 regs' |},
                        pr_err "Failed to get register CR4" w')
                end
            | _ => (-1, regs', pr_err "Failed to get register CR3" w')
            end.
Proof.
  intros Hwrite Hread Hpos Hnul Habsent Hcr3.
  split; [|split; [reflexivity | apply populate_all_first_failure]].
  unfold Qmp.qmp_get_registers.
  destruct (Qmp.xwrite Qmp.QMP_COMMAND_INFO_REGS w) as [nwrite w0] eqn:Ew.
  cbn [fst snd] in Hwrite, Hread.
  rewrite Hwrite, Z.eqb_refl. cbn [negb].
  rewrite Hread. cbn [mbind outcome_bind].
  change (0 =? -1) with false.
  replace (nread <=? 0) with false by (symmetry; apply Z.leb_gt; lia).
  cbn [orb].
  rewrite populate_all_first_failure by exact Hnul.
  rewrite Hcr3, (qmp_populate_reg_absent _ _ Habsent).
  reflexivity.
Qed.

Lemma qmp_get_registers_first_failure_witness :
  Qmp.qmp_get_registers {| idtr := 0; cr3 := 0; cr4 := 0 |}
    (greets dump_without_cr4)
  = Ok (-1, {| idtr := 0; cr3 := 0x19872000; cr4 := 0 |},
        pr_err "Failed to get register CR4"
          (set_polls []
             (snd (Qmp.xwrite Qmp.QMP_COMMAND_INFO_REGS
                     (greets dump_without_cr4))))).
Proof.
  refine (proj1 (qmp_get_registers_first_failure
                   {| idtr := 0; cr3 := 0; cr4 := 0 |}
                   (greets dump_without_cr4)
                   (set_polls []
                      (snd (Qmp.xwrite Qmp.QMP_COMMAND_INFO_REGS
                              (greets dump_without_cr4))))
                   (Z.of_nat (length dump_without_cr4)) 0x19872000
                   (Qmp.stored (Qmp.xmalloc 8192 calm) dump_without_cr4)
                   _ _ _ _ _ _)).
  - vm_compute. reflexivity.
  - vm_compute. reflexivity.
  - vm_compute. reflexivity.
  - vm_compute. reflexivity.
  - vm_compute. reflexivity.
  - vm_compute. reflexivity.
Defined.

(** The sample of the design description, NUL-terminated: all three
    registers present. *)
Example populate_all_sample :
  Qmp.populate_all
    (lit "RAX=0000000000000000 RBX=0000000000000001 CR3=0000000019872000 CR4=0000000000002668 IDT=ffffffffff528000" ++ [NUL])
    {| idtr := 0; cr3 := 0; cr4 := 0 |} calm
  = Ok (0, {| idtr := 0xffffffffff528000; cr3 := 0x19872000; cr4 := 0x2668 |},
        calm).
Proof. vm_compute. reflexivity. Qed.

(** ** The flat-file reader *)

Lemma fread_count_range (f : FILE) (size : Z) :
  0 <= size -> 0 <= fst (Guest.fread_count f size) <= size.
Proof.
  intros Hsize. unfold Guest.fread_count.
  destruct (f_bad f) as [b|]; cbn [fst]; [|lia].
  destruct ((f_pos f <=? b) && (b <? f_pos f + _)) eqn:E; cbn [fst]; [|lia].
  apply andb_true_iff in E. destruct E as [E1 E2].
  apply Z.leb_le in E1. apply Z.ltb_lt in E2. lia.
Qed.

Lemma fread_bytes_length (f : FILE) (count : Z) :
  length (Guest.fread_bytes f count) = Z.to_nat count.
Proof. unfold Guest.fread_bytes. rewrite length_map, length_seq. reflexivity. Qed.

Lemma memcpy_fits (mem src : list Z) (off size : nat) :
  (off + size <= length mem)%nat -> (size <= length src)%nat ->
  exists mem', Guest.memcpy mem off src size = Ok mem'.
Proof.
  intros H1 H2. unfold Guest.memcpy.
  replace (length mem <? off + size)%nat with false
    by (symmetry; apply Nat.ltb_ge; lia).
  replace (length src <? size)%nat with false
    by (symmetry; apply Nat.ltb_ge; lia).
  eexists. reflexivity.
Qed.

(** What [file_readmem] returns once the stream is open and the output
    buffer has room for the bytes asked for: -1 when the seek fails, 0 for a full read,
    -1 for a short read that stopped on a device error, and the count of
    bytes read, converted to [int], for a short read at end of file. *)
Lemma file_readmem_returns (addr size : Z) (mem : list Z) (w : world)
    (f : FILE) :
  mem_file w = Some f ->
  0 <= size ->
  size <= Z.of_nat (length mem) ->
  let seek := Guest.fseek_set f (to_long addr) in
  let got := Guest.fread_count (snd seek) size in
  exists mem' w',
    Guest.file_readmem addr size (mem, w)
    = Ok (if negb (fst seek =? 0) then -1
          else if fst got =? size then 0
          else if snd got then -1
          else to_int (fst got),
          (mem', w')).
Proof.
  intros Hf Hsize Hroom seek got.
  unfold Guest.file_readmem. rewrite Hf.
  subst seek got.
  destruct (Guest.fseek_set f (to_long addr)) as [r f1] eqn:Eseek.
  cbn [fst snd].
  destruct (negb (r =? 0)) eqn:Er.
  { eexists. eexists. reflexivity. }
  assert (Heof : f_eof f1 = false).
  { unfold Guest.fseek_set in Eseek.
    destruct ((to_long addr <? 0) || negb (f_seekable f));
      inversion Eseek; subst; [discriminate Er | reflexivity]. }
  pose proof (fread_count_range f1 size Hsize) as Hrange.
  unfold Guest.fread.
  replace (Z.of_nat (length mem) <? size) with false
    by (symmetry; apply Z.ltb_ge; exact Hroom).
  destruct (Guest.fread_count f1 size) as [count failed] eqn:Ecount.
  cbn [fst snd] in *.
  destruct (memcpy_fits mem (Guest.fread_bytes f1 count) 0 (Z.to_nat count))
    as [mem' Hcopy].
  { cbn [Nat.add]. lia. }
  { rewrite fread_bytes_length. lia. }
  rewrite Hcopy. cbn [mbind outcome_bind f_eof].
  rewrite Heof. cbn [orb].
  destruct (count =? size) eqn:Ecs; cbn [negb].
  { eexists. eexists. reflexivity. }
  apply Z.eqb_neq in Ecs.
  replace (count <? size) with true by (symmetry; apply Z.ltb_lt; lia).
  rewrite andb_true_r.
  destruct failed; cbn [negb]; eexists; eexists; reflexivity.
Qed.

(** C9 (as amended).  Take a read on the open image into a buffer that
    has room for the [size] bytes asked for, whose count of bytes
    actually read does not exceed [INT_MAX].  If the seek succeeds and the read comes up short
    without a device error (it reached end of file), the call returns the
    count of bytes read, non-negative and hence distinct from -1; and the
    call returns -1 only when the seek failed or the read stopped on a
    device error. *)
Theorem file_readmem_short_read (addr size : Z) (mem : list Z) (w : world)
    (f : FILE) :
  mem_file w = Some f ->
  0 <= size ->
  size <= Z.of_nat (length mem) ->
  fst (Guest.fread_count (snd (Guest.fseek_set f (to_long addr))) size)
    <= INT_MAX ->
  exists r mem' w',
    Guest.file_readmem addr size (mem, w) = Ok (r, (mem', w'))
    /\ (fst (Guest.fseek_set f (to_long addr)) = 0 ->
        snd (Guest.fread_count
               (snd (Guest.fseek_set f (to_long addr))) size) = false ->
        fst (Guest.fread_count
               (snd (Guest.fseek_set f (to_long addr))) size) <> size ->
        r = fst (Guest.fread_count
                   (snd (Guest.fseek_set f (to_long addr))) size)
        /\ 0 <= r /\ r <> -1)
    /\ (r = -1 ->
        fst (Guest.fseek_set f (to_long addr)) <> 0
        \/ snd (Guest.fread_count
                  (snd (Guest.fseek_set f (to_long addr))) size) = true).
Proof.
  intros Hf Hsize Hmem Hint.
  destruct (file_readmem_returns addr size mem w f Hf Hsize Hmem)
    as (mem' & w' & E).
  pose proof (fread_count_range
                (snd (Guest.fseek_set f (to_long addr))) size Hsize)
    as Hrange.
  set (seek := Guest.fseek_set f (to_long addr)) in *.
  set (got := Guest.fread_count (snd seek) size) in *.
  eexists. exists mem', w'. split; [exact E|].
  assert (Hconv : to_int (fst got) = fst got)
    by (apply to_int_small; unfold INT_MAX in *; lia).
  split.
  - intros Hseek Hok Hshort.
    rewrite Hseek, Hok. cbn [Z.eqb negb].
    replace (fst got =? size) with false by (symmetry; apply Z.eqb_neq; exact Hshort).
    rewrite Hconv. lia.
  - destruct (fst seek =? 0) eqn:Es; cbn [negb].
    + destruct (fst got =? size); [discriminate|].
      destruct (snd got); [right; reflexivity|].
      rewrite Hconv. lia.
    + intros _. left. apply Z.eqb_neq. exact Es.
Qed.

Lemma file_readmem_short_read_witness :
  exists mem' w',
    Guest.file_readmem 60 8 (repeat 9 8, file_backend (zero_image 64))
    = Ok (4, (mem', w')).
Proof.
  destruct (file_readmem_short_read 60 8 (repeat 9 8)
              (file_backend (zero_image 64)) (zero_image 64))
    as (r & mem' & w' & E & Hcount & _).
  - reflexivity.
  - lia.
  - vm_compute. discriminate.
  - vm_compute. discriminate.
  - exists mem', w'. rewrite E.
    destruct Hcount as (Hr & _);
      [reflexivity | reflexivity | vm_compute; discriminate |].
    rewrite Hr. reflexivity.
Defined.

Example file_readmem_tail_of_image :
  exists w',
    Guest.file_readmem 60 8 (repeat 9 8, file_backend (zero_image 64))
    = Ok (4, ([0; 0; 0; 0; 9; 9; 9; 9], w'))
    /\ log w' = [].
Proof. eexists. split; vm_compute; reflexivity. Qed.

(** C9 (the claim as stated fails).  A read of 4 GiB at offset 0 of an
    image one byte short of 4 GiB reaches end of file after 2^32 - 1
    bytes: the seek succeeds, there is no device error, and the count,
    converted to the [int] the function returns, is -1, the error result. *)
Lemma file_readmem_count_truncated :
  fst (Guest.fseek_set (zero_image (2 ^ 32 - 1)) (to_long 0)) = 0
  /\ Guest.fread_count
       (snd (Guest.fseek_set (zero_image (2 ^ 32 - 1)) (to_long 0)))
       (2 ^ 32) = (2 ^ 32 - 1, false)
  /\ exists mem' w',
       Guest.file_readmem 0 (2 ^ 32)
         (repeat 0 (Z.to_nat (2 ^ 32)), file_backend (zero_image (2 ^ 32 - 1)))
       = Ok (-1, (mem', w')).
Proof.
  split; [vm_compute; reflexivity|].
  split; [vm_compute; reflexivity|].
  destruct (file_readmem_returns 0 (2 ^ 32) (repeat 0 (Z.to_nat (2 ^ 32)))
              (file_backend (zero_image (2 ^ 32 - 1)))
              (zero_image (2 ^ 32 - 1)))
    as (mem' & w' & E).
  - reflexivity.
  - lia.
  - rewrite repeat_length. lia.
  - exists mem', w'. exact E.
Qed.

(** ** The flat-file register stub *)

(** C10.  [file_get_registers] succeeds on every call, stores the constant
    0x0000000019872000 in [cr3] and 0xffffffffff528000 in [idtr], and
    leaves the caller's [cr4] as it was; nothing else changes. *)
Theorem file_get_registers_constants (regs : registers) (w : world) :
  Guest.file_get_registers regs w =
    (0, {| idtr := 0xffffffffff528000; cr3 := 0x0000000019872000;
           cr4 := cr4 regs |}, w).
Proof. reflexivity. Qed.

(** * Further properties *)

(** ** Connecting and negotiating *)

Lemma ending_code (ps : list poll_result) :
  fst (ending ps) = 0 \/ fst (ending ps) = -1.
Proof.
  induction ps as [|p ps IH]; [left; reflexivity|].
  destruct p; cbn [ending fst]; auto.
Qed.

Lemma u64_length_zero (s : cstring) :
  (length s <= 512)%nat ->
  (u64 (Z.of_nat (length s)) =? 0) = true <-> s = [].
Proof.
  intros Hlen.
  rewrite u64_small by (change (2 ^ 64) with 18446744073709551616; lia).
  rewrite Z.eqb_eq. split.
  - intros H. apply length_zero_iff_nil. lia.
  - intros ->. reflexivity.
Qed.

(** The ways [qmp_establish_conn] ends when nothing overruns. *)
Lemma qmp_establish_conn_cases (sock_path : cstring) (w : world) :
  (strlen sock_path < Qmp.SUN_PATH_SIZE)%nat ->
  (length (delivered (polls w)) <= 512)%nat ->
  exists r w',
    Qmp.qmp_establish_conn sock_path w = Ok (r, w')
    /\ (r = 0 \/ r = -1)
    /\ (r = -1 <->
        strlen sock_path = 0%nat \/ socket_ret w < 0 \/ connect_ret w = -1
        \/ fst (ending (polls w)) = -1 \/ delivered (polls w) = []).
Proof.
  intros Hpath Hfit. unfold Qmp.qmp_establish_conn.
  destruct (Nat.eqb_spec (strlen sock_path) 0) as [Hempty|Hempty].
  { eexists. eexists. split; [reflexivity|]. split; [right; reflexivity|].
    split; auto. }
  destruct (Z.ltb_spec (socket_ret w) 0) as [Hsock|Hsock].
  { eexists. eexists. split; [reflexivity|]. split; [right; reflexivity|].
    split; auto. }
  replace (Qmp.SUN_PATH_SIZE <=? strlen sock_path)%nat with false
    by (symmetry; apply Nat.leb_gt; exact Hpath).
  change (connect_ret (set_qmp_fd (socket_ret w) w)) with (connect_ret w).
  destruct (Z.eqb_spec (connect_ret w) (-1)) as [Hconn|Hconn].
  { eexists. eexists. split; [reflexivity|]. split; [right; reflexivity|].
    split; auto. }
  rewrite qmp_read_fits by (rewrite repeat_length; exact Hfit).
  cbn [mbind outcome_bind].
  change (polls (set_qmp_fd (socket_ret w) w)) with (polls w).
  destruct (ending_code (polls w)) as [Hend|Hend]; rewrite Hend.
  2:{ eexists. eexists. split; [reflexivity|]. split; [right; reflexivity|].
      split; auto. }
  change (0 =? -1) with false. cbn iota.
  destruct (u64 (Z.of_nat (length (delivered (polls w)))) =? 0) eqn:Ezero.
  - apply u64_length_zero in Ezero; [|exact Hfit]. rewrite Ezero.
    change (negb (strncasecmp (Qmp.stored (repeat NUL 512) [])
                    Qmp.QMP_GREETING (strlen Qmp.QMP_GREETING) =? 0))
      with true.
    cbn [andb]. eexists. eexists. split; [reflexivity|].
    split; [right; reflexivity|]. split; auto 6.
  - cbn [andb]. eexists. eexists. split; [reflexivity|].
    split; [left; reflexivity|]. split; [discriminate|].
    intros [H|[H|[H|[H|H]]]]; try (exfalso; lia); try contradiction.
    exfalso. rewrite <- not_true_iff_false in Ezero. apply Ezero.
    apply u64_length_zero; assumption.
Qed.

(** X1.  When the path fits [sun_path] and the peer's first message fits
    the 512-byte buffer, [qmp_establish_conn] returns 0 or -1, and -1
    exactly when the path is empty, [socket] or [connect] fails, a poll
    fails, or not a single byte arrives before the socket goes quiet. *)
Theorem qmp_establish_conn_fails_iff (sock_path : cstring) (w : world) :
  (strlen sock_path < Qmp.SUN_PATH_SIZE)%nat ->
  (length (delivered (polls w)) <= 512)%nat ->
  exists r w',
    Qmp.qmp_establish_conn sock_path w = Ok (r, w')
    /\ (r = 0 \/ r = -1)
    /\ (r = -1 <->
        strlen sock_path = 0%nat \/ socket_ret w < 0 \/ connect_ret w = -1
        \/ fst (ending (polls w)) = -1 \/ delivered (polls w) = []).
Proof. apply qmp_establish_conn_cases. Qed.

Lemma qmp_establish_conn_fails_iff_witness :
  exists r w',
    Qmp.qmp_establish_conn (lit "/tmp/qmp.sock") calm = Ok (r, w')
    /\ (r = 0 \/ r = -1)
    /\ (r = -1 <->
        strlen (lit "/tmp/qmp.sock") = 0%nat \/ socket_ret calm < 0
        \/ connect_ret calm = -1
        \/ fst (ending (polls calm)) = -1 \/ delivered (polls calm) = []).
Proof.
  apply (qmp_establish_conn_fails_iff (lit "/tmp/qmp.sock") calm).
  - apply Nat.ltb_lt. vm_compute. reflexivity.
  - apply Nat.leb_le. vm_compute. reflexivity.
Defined.

(** [qmp_establish_conn] only listens: whatever its outcome, nothing has
    been handed to [xwrite]. *)
Lemma qmp_establish_conn_sends_nothing (sock_path : cstring) (w w' : world)
    (r : Z) :
  Qmp.qmp_establish_conn sock_path w = Ok (r, w') ->
  sent w' = sent w /\ xwrite_rets w' = xwrite_rets w.
Proof.
  unfold Qmp.qmp_establish_conn.
  destruct (strlen sock_path =? 0)%nat; [intros H; inversion H; auto|].
  destruct (socket_ret w <? 0); [intros H; inversion H; auto|].
  destruct (Qmp.SUN_PATH_SIZE <=? strlen sock_path)%nat; [discriminate|].
  destruct (connect_ret _ =? -1); [intros H; inversion H; auto|].
  unfold Qmp.qmp_read.
  destruct (Qmp.qmp_read_loop _ _ _ _) as [[[[r0 n] written] rest]|f];
    cbn [mbind outcome_bind]; [|discriminate].
  destruct (r0 =? -1); [intros H; inversion H; auto|].
  destruct ((n =? 0) && _); intros H; inversion H; auto.
Qed.

(** The comparison of [qmp_negotiate] looks at as many characters as
    were received and no further. *)
Lemma acknowledgement_prefix (k : nat) :
  (k <= 16)%nat ->
  strncasecmp
    (Qmp.stored (repeat NUL 512) (firstn k Qmp.QMP_COMMAND_MODE_OK))
    Qmp.QMP_COMMAND_MODE_OK k = 0.
Proof.
  intros Hk.
  do 17 (destruct k as [|k]; [vm_compute; reflexivity|]).
  lia.
Qed.

(** X2.  [qmp_negotiate] succeeds as soon as [xwrite] reports a count
    other than 0 and what comes back is a leading part of the
    acknowledgement, the empty one included: a partial write is not
    noticed, and a response cut short, or no response at all, passes for
    the acknowledgement. *)
Theorem qmp_negotiate_accepts_prefix (k : nat) (w : world) :
  fst (Qmp.xwrite Qmp.QMP_ENTER_COMMAND_MODE w) <> 0 ->
  (k <= 16)%nat ->
  delivered (polls w) = firstn k Qmp.QMP_COMMAND_MODE_OK ->
  fst (ending (polls w)) = 0 ->
  Qmp.qmp_negotiate w
  = Ok (0, set_polls (snd (ending (polls w)))
             (snd (Qmp.xwrite Qmp.QMP_ENTER_COMMAND_MODE w))).
Proof.
  intros Hwrite Hk Hgot Hend. unfold Qmp.qmp_negotiate.
  destruct (Qmp.xwrite Qmp.QMP_ENTER_COMMAND_MODE w) as [nwrite w0] eqn:Ew.
  cbn [fst snd] in *.
  assert (Hpolls : polls w0 = polls w).
  { unfold Qmp.xwrite in Ew.
    destruct (xwrite_rets w); inversion Ew; reflexivity. }
  replace (nwrite =? 0) with false by (symmetry; apply Z.eqb_neq; exact Hwrite).
  assert (Hlen : length (firstn k Qmp.QMP_COMMAND_MODE_OK) = k).
  { rewrite length_firstn. change (length Qmp.QMP_COMMAND_MODE_OK) with 16%nat.
    lia. }
  rewrite qmp_read_fits
    by (rewrite Hpolls, Hgot, Hlen, repeat_length; lia).
  cbn [mbind outcome_bind]. rewrite Hpolls, Hend, Hgot, Hlen.
  change (0 =? -1) with false. cbn iota.
  rewrite u64_small by (change (2 ^ 64) with 18446744073709551616; lia).
  rewrite Nat2Z.id, acknowledgement_prefix by exact Hk.
  reflexivity.
Qed.

Lemma qmp_negotiate_accepts_prefix_witness :
  Qmp.qmp_negotiate (set_xwrite [1] [] (greets (firstn 3 Qmp.QMP_COMMAND_MODE_OK)))
  = Ok (0, set_polls []
             (snd (Qmp.xwrite Qmp.QMP_ENTER_COMMAND_MODE
                     (set_xwrite [1] []
                        (greets (firstn 3 Qmp.QMP_COMMAND_MODE_OK)))))).
Proof.
  apply (qmp_negotiate_accepts_prefix 3
           (set_xwrite [1] [] (greets (firstn 3 Qmp.QMP_COMMAND_MODE_OK)))).
  - vm_compute. discriminate.
  - apply Nat.leb_le. reflexivity.
  - reflexivity.
  - reflexivity.
Defined.

(** X3.  When the greeting step fails, for whichever of its reasons,
    [qmp_client_init] returns -1 without having written anything to the
    socket: the capabilities command is never sent. *)
Theorem qmp_client_init_stops_at_greeting (sock_path : cstring) (w : world) :
  (strlen sock_path < Qmp.SUN_PATH_SIZE)%nat ->
  (length (delivered (polls w)) <= 512)%nat ->
  strlen sock_path = 0%nat \/ socket_ret w < 0 \/ connect_ret w = -1
  \/ fst (ending (polls w)) = -1 \/ delivered (polls w) = [] ->
  exists w',
    Qmp.qmp_client_init sock_path w = Ok (-1, w')
    /\ sent w' = sent w
    /\ List.last (log w') EmptyString = "Unable to talk to qemu monitor"%string.
Proof.
  intros Hpath Hfit Hcause.
  destruct (qmp_establish_conn_cases sock_path w Hpath Hfit)
    as (r & w1 & Hconn & _ & Hiff).
  apply Hiff in Hcause. subst r.
  unfold Qmp.qmp_client_init. rewrite Hconn. cbn [mbind outcome_bind].
  change (-1 =? -1) with true. cbn iota.
  eexists. split; [reflexivity|]. split.
  - apply (qmp_establish_conn_sends_nothing _ _ _ _ Hconn).
  - unfold pr_err. cbn [log set_log]. apply List.last_last.
Qed.

Lemma qmp_client_init_stops_at_greeting_witness :
  exists w',
    Qmp.qmp_client_init (lit "/tmp/qmp.sock") calm = Ok (-1, w')
    /\ sent w' = sent calm
    /\ List.last (log w') EmptyString = "Unable to talk to qemu monitor"%string.
Proof.
  apply (qmp_client_init_stops_at_greeting (lit "/tmp/qmp.sock") calm).
  - apply Nat.ltb_lt. vm_compute. reflexivity.
  - apply Nat.leb_le. vm_compute. reflexivity.
  - right. right. right. right. reflexivity.
Defined.

Lemma xwrite_keeps_polls (data : cstring) (w : world) :
  polls (snd (Qmp.xwrite data w)) = polls w
  /\ sent (snd (Qmp.xwrite data w)) = sent w ++ [data]
  /\ log (snd (Qmp.xwrite data w)) = log w
  /\ qmp_fd (snd (Qmp.xwrite data w)) = qmp_fd w.
Proof. unfold Qmp.xwrite. destruct (xwrite_rets w); repeat split. Qed.

Lemma xwrite_count (data : cstring) (w1 w2 : world) :
  xwrite_rets w1 = xwrite_rets w2 ->
  fst (Qmp.xwrite data w1) = fst (Qmp.xwrite data w2).
Proof.
  intros H. unfold Qmp.xwrite. rewrite H.
  destruct (xwrite_rets w2); reflexivity.
Qed.

(** The acknowledgement itself is accepted. *)
Lemma qmp_negotiate_ok (w : world) (rest : list poll_result) :
  polls w = PollReady true Qmp.QMP_COMMAND_MODE_OK :: PollTimeout :: rest ->
  fst (Qmp.xwrite Qmp.QMP_ENTER_COMMAND_MODE w) <> 0 ->
  Qmp.qmp_negotiate w
  = Ok (0, set_polls rest (snd (Qmp.xwrite Qmp.QMP_ENTER_COMMAND_MODE w))).
Proof.
  intros Hpolls Hwrite. unfold Qmp.qmp_negotiate.
  destruct (Qmp.xwrite Qmp.QMP_ENTER_COMMAND_MODE w) as [nwrite w0] eqn:Ew.
  cbn [fst snd] in *.
  assert (Hp0 : polls w0 = polls w).
  { unfold Qmp.xwrite in Ew.
    destruct (xwrite_rets w); inversion Ew; reflexivity. }
  replace (nwrite =? 0) with false by (symmetry; apply Z.eqb_neq; exact Hwrite).
  rewrite qmp_read_fits; rewrite Hp0, Hpolls;
    [|apply Nat.leb_le; vm_compute; reflexivity].
  cbn [mbind outcome_bind delivered ending fst snd].
  change (0 =? -1) with false. cbn iota.
  change (negb (strncasecmp _ Qmp.QMP_COMMAND_MODE_OK _ =? 0)) with false.
  reflexivity.
Qed.

(** X4.  The handshake as a whole: against a monitor that says anything
    at all (at most 512 bytes) and then answers the capabilities command
    with the acknowledgement, [qmp_client_init] returns 0; it has sent
    the capabilities command and nothing else, logged nothing, consumed
    exactly the two answers, and [qmp_fd] is the descriptor [socket]
    gave. *)
Theorem qmp_client_init_handshake (sock_path greeting : cstring)
    (rest : list poll_result) (w : world) :
  (0 < strlen sock_path < Qmp.SUN_PATH_SIZE)%nat ->
  0 <= socket_ret w ->
  connect_ret w <> -1 ->
  (0 < length greeting <= 512)%nat ->
  polls w = PollReady true greeting :: PollTimeout
            :: PollReady true Qmp.QMP_COMMAND_MODE_OK :: PollTimeout :: rest ->
  fst (Qmp.xwrite Qmp.QMP_ENTER_COMMAND_MODE w) <> 0 ->
  exists w',
    Qmp.qmp_client_init sock_path w = Ok (0, w')
    /\ sent w' = sent w ++ [Qmp.QMP_ENTER_COMMAND_MODE]
    /\ log w' = log w
    /\ polls w' = rest
    /\ qmp_fd w' = socket_ret w.
Proof.
  intros [Hne Hpath] Hsock Hconn [Hg0 Hg] Hpolls Hwrite.
  assert (Hx : Qmp.xread 1024 greeting = greeting).
  { unfold Qmp.xread. apply firstn_all2. lia. }
  unfold Qmp.qmp_client_init, Qmp.qmp_establish_conn.
  replace (strlen sock_path =? 0)%nat with false
    by (symmetry; apply Nat.eqb_neq; lia).
  replace (socket_ret w <? 0) with false by (symmetry; apply Z.ltb_ge; lia).
  replace (Qmp.SUN_PATH_SIZE <=? strlen sock_path)%nat with false
    by (symmetry; apply Nat.leb_gt; lia).
  change (connect_ret (set_qmp_fd (socket_ret w) w)) with (connect_ret w).
  replace (connect_ret w =? -1) with false
    by (symmetry; apply Z.eqb_neq; exact Hconn).
  rewrite qmp_read_fits;
    change (polls (set_qmp_fd (socket_ret w) w)) with (polls w);
    rewrite Hpolls; cbn [delivered ending fst snd]; rewrite Hx, app_nil_r;
    [|rewrite repeat_length; lia].
  cbn [mbind outcome_bind]. change (0 =? -1) with false. cbn iota.
  rewrite u64_small by (change (2 ^ 64) with 18446744073709551616; lia).
  replace (Z.of_nat (length greeting) =? 0) with false
    by (symmetry; apply Z.eqb_neq; lia).
  cbn [andb mbind outcome_bind]. change (0 =? -1) with false. cbn iota.
  set (w1 := set_polls _ (set_qmp_fd (socket_ret w) w)) in *.
  assert (Hwrite1 : fst (Qmp.xwrite Qmp.QMP_ENTER_COMMAND_MODE w1) <> 0).
  { rewrite (xwrite_count _ w1 w); [exact Hwrite | reflexivity]. }
  rewrite (qmp_negotiate_ok w1 rest) by (try exact Hwrite1; reflexivity).
  cbn [mbind outcome_bind]. change (0 =? -1) with false. cbn iota.
  destruct (xwrite_keeps_polls Qmp.QMP_ENTER_COMMAND_MODE w1)
    as (_ & Hsent & Hlog & Hfd).
  eexists. split; [reflexivity|]. repeat split; assumption.
Qed.

Lemma qmp_client_init_handshake_witness :
  exists w',
    Qmp.qmp_client_init (lit "/tmp/qmp.sock")
      (set_polls [PollReady true (lit "{QMP}"); PollTimeout;
                  PollReady true Qmp.QMP_COMMAND_MODE_OK; PollTimeout] calm)
    = Ok (0, w')
    /\ sent w' = [] ++ [Qmp.QMP_ENTER_COMMAND_MODE]
    /\ log w' = []
    /\ polls w' = []
    /\ qmp_fd w' = 3.
Proof.
  apply (qmp_client_init_handshake (lit "/tmp/qmp.sock") (lit "{QMP}") []
           (set_polls [PollReady true (lit "{QMP}"); PollTimeout;
                       PollReady true Qmp.QMP_COMMAND_MODE_OK; PollTimeout]
              calm)).
  - split; [apply Nat.ltb_lt | apply Nat.ltb_lt]; vm_compute; reflexivity.
  - vm_compute. discriminate.
  - vm_compute. discriminate.
  - split; [apply Nat.ltb_lt | apply Nat.leb_le]; vm_compute; reflexivity.
  - reflexivity.
  - vm_compute. discriminate.
Defined.

(** ** Reading registers back *)

Lemma hex_digit_range (v : Z) (n : nat) :
  0 <= v -> 0 <= v / 16 ^ Z.of_nat n mod 16 < 16.
Proof. intros _. apply Z.mod_pos_bound. lia. Qed.

Lemma hex_run_digits (n : nat) (v : Z) (rest : cstring) (acc : Z) (k : nat) :
  0 <= v ->
  hex_run (hex_digits n v ++ rest) acc k
  = hex_run rest (acc * 16 ^ Z.of_nat n + v mod 16 ^ Z.of_nat n) (k + n).
Proof.
  intros Hv. revert acc k.
  induction n as [|n IH]; intros acc k.
  - cbn [hex_digits app]. change (16 ^ Z.of_nat 0) with 1.
    rewrite Z.mod_1_r, Z.mul_1_r, Z.add_0_r, Nat.add_0_r. reflexivity.
  - cbn [hex_digits app hex_run].
    destruct (hex_digit_facts _ (hex_digit_range v n Hv)) as (Hval & _).
    rewrite Hval, IH. f_equal; [|lia].
    replace (16 ^ Z.of_nat (S n)) with (16 ^ Z.of_nat n * 16)
      by (rewrite Nat2Z.inj_succ, Z.pow_succ_r by lia; ring).
    rewrite (Z.rem_mul_r v (16 ^ Z.of_nat n) 16) by lia. ring.
Qed.

Lemma hex_number_digits (n : nat) (v : Z) (rest : cstring) :
  (2 <= n <= 16)%nat ->
  0 <= v < 16 ^ Z.of_nat n ->
  ends_number rest ->
  hex_number (hex_digits n v ++ rest) = Scanned v rest.
Proof.
  intros Hn Hv Hrest.
  assert (Hpow : 16 ^ Z.of_nat n <= 2 ^ 64).
  { change (2 ^ 64) with (16 ^ 16). apply Z.pow_le_mono_r; lia. }
  pose proof (hex_run_digits n v rest 0 0 ltac:(lia)) as Hrun.
  rewrite Z.mul_0_l, Z.add_0_l, Z.mod_small, Nat.add_0_l in Hrun by lia.
  rewrite (hex_run_stop rest _ _ Hrest) in Hrun.
  destruct n as [|[|n]]; [lia | lia |].
  cbn [hex_digits app] in *.
  destruct (hex_digit_facts _ (hex_digit_range v (S n) ltac:(lia)))
    as (_ & _ & _ & M1 & P1 & _).
  destruct (hex_digit_facts _ (hex_digit_range v n ltac:(lia)))
    as (_ & _ & X2 & _).
  unfold hex_number. rewrite M1, P1, X2, andb_false_r, Hrun.
  cbn [Nat.eqb andb].
  replace (ULONG_MAX <? v) with false
    by (symmetry; apply Z.ltb_ge; unfold ULONG_MAX; lia).
  reflexivity.
Qed.

Lemma skip_space_app (sp s : cstring) :
  Forall (fun c => isspace c = true) sp ->
  skip_space (sp ++ s) = skip_space s.
Proof.
  induction 1 as [|c sp Hc Hsp IH]; cbn [app skip_space]; [reflexivity|].
  rewrite Hc. exact IH.
Qed.

Lemma hex_digits_head (n : nat) (v : Z) (rest : cstring) :
  (1 <= n)%nat -> 0 <= v ->
  skip_space (hex_digits n v ++ rest) = hex_digits n v ++ rest
  /\ hex_digits n v ++ rest <> [].
Proof.
  intros Hn Hv. destruct n as [|n]; [lia|].
  cbn [hex_digits app skip_space].
  destruct (hex_digit_facts _ (hex_digit_range v n Hv)) as (_ & S1 & _).
  rewrite S1. split; [reflexivity | discriminate].
Qed.

(** A number of [n] digits behind any white space is read back by the
    [%x] conversions and by [strtoul]. *)
Lemma scan_hex_digits_n (sp rest : cstring) (n : nat) (v : Z) :
  Forall (fun c => isspace c = true) sp ->
  (2 <= n <= 16)%nat ->
  0 <= v < 16 ^ Z.of_nat n ->
  ends_number rest ->
  scan_hex (sp ++ hex_digits n v ++ rest) = Scanned v rest.
Proof.
  intros Hsp Hn Hv Hrest. unfold scan_hex.
  rewrite skip_space_app by exact Hsp.
  destruct (hex_digits_head n v rest) as [Hskip Hne]; [lia | lia |].
  rewrite Hskip.
  destruct (hex_digits n v ++ rest) eqn:E; [contradiction|].
  rewrite <- E. apply hex_number_digits; assumption.
Qed.

Lemma hex_digits_no_nul (n : nat) (v : Z) :
  0 <= v -> Forall (fun c => is_nul c = false) (hex_digits n v).
Proof.
  intros Hv. induction n as [|n IH]; cbn [hex_digits]; constructor; [|exact IH].
  destruct (hex_digit_facts _ (hex_digit_range v n Hv)) as (_ & _ & _ & _ & _ & N & _).
  exact N.
Qed.

Lemma until_nul_idem (s : cstring) : until_nul (until_nul s) = until_nul s.
Proof.
  induction s as [|c s IH]; cbn [until_nul]; [reflexivity|].
  destruct (is_nul c) eqn:E; cbn [until_nul]; [reflexivity|].
  rewrite E, IH. reflexivity.
Qed.

Lemma ends_number_until_nul (rest : cstring) :
  ends_number rest -> ends_number (until_nul rest).
Proof.
  destruct rest as [|c rest]; cbn [until_nul ends_number]; [auto|].
  intros H. destruct (is_nul c); [exact I | exact H].
Qed.

Lemma after_equals_app (a b : cstring) :
  Forall (fun c => (code c =? 61) = false) a ->
  Qmp.after_equals (a ++ "="%char :: b) = b.
Proof.
  induction 1 as [|c a Hc Ha IH]; cbn [app Qmp.after_equals].
  - reflexivity.
  - rewrite Hc. exact IH.
Qed.

Lemma spaces_no_nul (sp : cstring) :
  Forall (fun c => isspace c = true) sp ->
  Forall (fun c => is_nul c = false) sp.
Proof.
  apply List.Forall_impl. intros c Hc.
  unfold isspace, is_nul in *. destruct (code c =? 0) eqn:E; [|reflexivity].
  apply Z.eqb_eq in E. rewrite E in Hc. discriminate.
Qed.

(** X5.  [qmp_populate_reg] reads a register back: where the first
    occurrence of the label is followed, after any characters other than
    an equals sign, by [=], optional white space and the [n] hexadecimal
    digits of [v] (two to sixteen of them, as the monitor prints 32-bit
    and 64-bit registers), the call returns 0 and stores [v]. *)
Theorem qmp_populate_reg_reads_back (pre name gap sp rest : cstring)
    (n : nat) (v : Z) :
  strstr (pre ++ name ++ gap ++ "="%char :: sp ++ hex_digits n v ++ rest) name
    = Some (length pre) ->
  Forall (fun c => is_nul c = false) (pre ++ name ++ gap) ->
  Forall (fun c => (code c =? 61) = false) (name ++ gap) ->
  Forall (fun c => isspace c = true) sp ->
  (2 <= n <= 16)%nat ->
  0 <= v < 16 ^ Z.of_nat n ->
  ends_number rest ->
  Qmp.qmp_populate_reg
    (pre ++ name ++ gap ++ "="%char :: sp ++ hex_digits n v ++ rest) name
  = (0, Some v).
Proof.
  intros Hfind Hnul Heq Hsp Hn Hv Hrest.
  unfold Qmp.qmp_populate_reg. rewrite Hfind.
  pose proof (spaces_no_nul sp Hsp) as Hspnul.
  replace (pre ++ name ++ gap ++ "="%char :: sp ++ hex_digits n v ++ rest)
    with ((pre ++ name ++ gap) ++ ["="%char] ++ sp ++ hex_digits n v ++ rest)
    by (rewrite <- !app_assoc; reflexivity).
  rewrite until_nul_app by exact Hnul.
  rewrite (until_nul_app ["="%char]) by (repeat constructor).
  rewrite until_nul_app by exact Hspnul.
  rewrite until_nul_app by (apply hex_digits_no_nul; lia).
  rewrite <- (app_assoc pre), drop_app_length.
  cbn [app].
  rewrite after_equals_app by exact Heq.
  unfold sscanf_lx.
  rewrite until_nul_app by exact Hspnul.
  rewrite until_nul_app by (apply hex_digits_no_nul; lia).
  rewrite until_nul_idem.
  rewrite scan_hex_digits_n;
    [reflexivity | exact Hsp | exact Hn | exact Hv
     | apply ends_number_until_nul; exact Hrest].
Qed.

Lemma qmp_populate_reg_reads_back_witness :
  Qmp.qmp_populate_reg
    (lit "CR0=80050033 CR2=00007f2a5c0e1000 CR3=000000000220a000 "
       ++ lit "CR4" ++ [] ++ "="%char :: []
       ++ hex_digits 8 0x6f0 ++ lit "\r\n")
    (lit "CR4")
  = (0, Some 0x6f0).
Proof.
  apply (qmp_populate_reg_reads_back
           (lit "CR0=80050033 CR2=00007f2a5c0e1000 CR3=000000000220a000 ")
           (lit "CR4") [] [] (lit "\r\n") 8 0x6f0).
  - vm_compute. reflexivity.
  - repeat constructor.
  - repeat constructor.
  - constructor.
  - lia.
  - vm_compute. split; [discriminate | reflexivity].
  - reflexivity.
Defined.

(** ** Life cycle of the backends *)

Lemma libvirt_client_init_cases (guest_name : cstring) (w : world) :
  (exists w', Guest.libvirt_client_init guest_name w = (0, w')
              /\ domain_conn w' <> None /\ domain w' <> None)
  \/ (exists w', Guest.libvirt_client_init guest_name w = (-1, w')
                 /\ (domain_conn w' = None \/ domain w' = None)).
Proof.
  unfold Guest.libvirt_client_init.
  destruct (domain_conn w) as [c|] eqn:Ec, (domain w) as [d|] eqn:Ed,
    (virConnectOpen_ret w) as [c'|] eqn:Eo,
    (virDomainLookupByName_ret w guest_name) as [d'|] eqn:El;
    cbn; rewrite ?Ec, ?Ed, ?Eo, ?El; cbn; rewrite ?Ec, ?Ed, ?Eo, ?El;
    first
      [ left; eexists; split; [reflexivity|];
        cbn; rewrite ?Ec, ?Ed, ?Eo, ?El; split; congruence
      | right; eexists; split; [reflexivity|];
        cbn; rewrite ?Ec, ?Ed, ?Eo, ?El;
        first [left; reflexivity | right; reflexivity] ].
Qed.

Lemma libvirt_client_init_settled (guest_name : cstring) (w : world) :
  domain_conn w <> None -> domain w <> None ->
  Guest.libvirt_client_init guest_name w = (0, w).
Proof.
  intros Hc Hd. unfold Guest.libvirt_client_init.
  destruct (domain_conn w) eqn:Ec; [|contradiction].
  rewrite Ec. destruct (domain w) eqn:Ed; [|contradiction].
  rewrite Ed. reflexivity.
Qed.

(** X6.  [libvirt_client_init] returns 0 or -1, and 0 exactly when both
    the connection and the domain handle are set when it returns. *)
Theorem libvirt_client_init_result (guest_name : cstring) (w : world) :
  let r := fst (Guest.libvirt_client_init guest_name w) in
  let w' := snd (Guest.libvirt_client_init guest_name w) in
  (r = 0 \/ r = -1)
  /\ (r = 0 <-> domain_conn w' <> None /\ domain w' <> None).
Proof.
  destruct (libvirt_client_init_cases guest_name w)
    as [(w' & -> & Hc & Hd) | (w' & -> & Hn)]; cbn [fst snd].
  - split; [left; reflexivity|]. split; [intros _; split; assumption | reflexivity].
  - split; [right; reflexivity|]. split; [discriminate|].
    intros [Hc Hd]. destruct Hn; contradiction.
Qed.

(** X7.  Once [libvirt_client_init] has succeeded, calling it again, for
    whatever guest name, returns 0 and changes nothing: the second call
    makes no call into libvirt, so that no second connection is opened
    and the domain is not looked up again. *)
Theorem libvirt_client_init_once (first second : cstring) (w : world) :
  fst (Guest.libvirt_client_init first w) = 0 ->
  Guest.libvirt_client_init second (snd (Guest.libvirt_client_init first w))
  = (0, snd (Guest.libvirt_client_init first w))
  /\ libvirt_calls
       (snd (Guest.libvirt_client_init second
               (snd (Guest.libvirt_client_init first w))))
     = libvirt_calls (snd (Guest.libvirt_client_init first w)).
Proof.
  intros H0.
  assert (E2 : Guest.libvirt_client_init second
                 (snd (Guest.libvirt_client_init first w))
               = (0, snd (Guest.libvirt_client_init first w))).
  { destruct (libvirt_client_init_cases first w)
      as [(w' & E & Hc & Hd) | (w' & E & _)]; rewrite E in *;
      cbn [fst snd] in *.
    - apply libvirt_client_init_settled; assumption.
    - discriminate. }
  split; [exact E2 | rewrite E2; reflexivity].
Qed.

Lemma libvirt_client_init_once_witness :
  Guest.libvirt_client_init (lit "other")
    (snd (Guest.libvirt_client_init (lit "guest") one_guest))
  = (0, snd (Guest.libvirt_client_init (lit "guest") one_guest))
  /\ libvirt_calls
       (snd (Guest.libvirt_client_init (lit "other")
               (snd (Guest.libvirt_client_init (lit "guest") one_guest))))
     = [ConnectOpen; DomainLookupByName 7 (lit "guest")].
Proof.
  apply (libvirt_client_init_once (lit "guest") (lit "other") one_guest).
  reflexivity.
Defined.

(** X8.  A domain lookup that fails leaves a closed connection behind:
    [libvirt_client_init] opens the connection, looks the name up, logs
    the failure, calls [virConnectClose] and returns -1, with
    [domain_conn] still holding the handle.  A later call therefore
    makes no [virConnectOpen]: the one lookup it makes is issued on the
    handle that was closed, and it returns 0 when that lookup yields a
    domain. *)
Theorem libvirt_client_init_keeps_connection (first second : cstring)
    (w : world) (c : Z) :
  domain_conn w = None -> domain w = None ->
  virConnectOpen_ret w = Some c ->
  virDomainLookupByName_ret w first = None ->
  let w' := snd (Guest.libvirt_client_init first w) in
  fst (Guest.libvirt_client_init first w) = -1
  /\ domain_conn w' = Some c
  /\ log w' = log w ++ ["Failed to find the domain"%string]
  /\ libvirt_calls w'
     = libvirt_calls w
       ++ [ConnectOpen; DomainLookupByName c first; ConnectClose c]
  /\ fst (Guest.libvirt_client_init second w')
     = match virDomainLookupByName_ret w second with
       | Some _ => 0
       | None => -1
       end
  /\ libvirt_calls (snd (Guest.libvirt_client_init second w'))
     = libvirt_calls w'
       ++ DomainLookupByName c second
          :: match virDomainLookupByName_ret w second with
             | Some _ => []
             | None => [ConnectClose c]
             end.
Proof.
  intros Hc Hd Ho Hl. unfold Guest.libvirt_client_init.
  rewrite Hc. cbn [domain_conn set_domain_conn]. rewrite Ho.
  cbn [domain set_domain_conn libvirt_called set_libvirt_calls]. rewrite Hd.
  cbn [domain set_domain virDomainLookupByName_ret set_domain_conn
       libvirt_called set_libvirt_calls].
  rewrite Hl. cbn.
  destruct (virDomainLookupByName_ret w second); cbn;
    repeat rewrite <- app_assoc; cbn [app]; repeat split; reflexivity.
Qed.

Lemma libvirt_client_init_keeps_connection_witness :
  fst (Guest.libvirt_client_init (lit "gust") one_guest) = -1
  /\ fst (Guest.libvirt_client_init (lit "guest")
            (snd (Guest.libvirt_client_init (lit "gust") one_guest))) = 0
  /\ libvirt_calls
       (snd (Guest.libvirt_client_init (lit "guest")
               (snd (Guest.libvirt_client_init (lit "gust") one_guest))))
     = [ConnectOpen; DomainLookupByName 7 (lit "gust"); ConnectClose 7;
        DomainLookupByName 7 (lit "guest")].
Proof.
  destruct (libvirt_client_init_keeps_connection (lit "gust") (lit "guest")
              one_guest 7)
    as (H1 & _ & _ & _ & H2 & H3); try reflexivity.
  split; [exact H1|]. split; [exact H2 | exact H3].
Defined.




Lemma guest_client_new_sets (ac : cstring) (mode : guest_access_t)
    (w w' : world) (r : Z) :
  Guest.guest_client_new ac mode w = Ok (r, w') ->
  r = 0 /\ guest_client w' <> None.
Proof.
  unfold Guest.guest_client_new.
  destruct (guest_client w) eqn:Eg.
  - intros [= <- <-]. split; [reflexivity | congruence].
  - destruct mode; cbn [ty].
    + destruct (Guest.libvirt_client_init ac w) as [r0 w0].
      cbn. intros [= <- <-]. split; [reflexivity | discriminate].
    + destruct (Guest.file_client_init ac w) as [r0 w0].
      cbn. intros [= <- <-]. split; [reflexivity | discriminate].
    + destruct (Qmp.qmp_client_init ac w) as [[r0 w0]|f]; cbn; [|discriminate].
      intros [= <- <-]. split; [reflexivity | discriminate].
Qed.

(** X10.  [guest_client_new] installs one client per process: after a
    call that returned, a second call returns 0 and changes nothing,
    whatever target and access mode it names. *)
Theorem guest_client_new_once (ac ac' : cstring) (mode mode' : guest_access_t)
    (w w' : world) (r : Z) :
  Guest.guest_client_new ac mode w = Ok (r, w') ->
  Guest.guest_client_new ac' mode' w' = Ok (0, w').
Proof.
  intros H. destruct (guest_client_new_sets _ _ _ _ _ H) as [_ Hg].
  unfold Guest.guest_client_new. destruct (guest_client w'); [reflexivity | contradiction].
Qed.

Lemma guest_client_new_once_witness :
  exists w',
    Guest.guest_client_new (lit "a.img") GUEST_MEMORY calm = Ok (0, w')
    /\ Guest.guest_client_new (lit "/tmp/qmp.sock") QMP_SOCKET w' = Ok (0, w').
Proof.
  eexists. split; [reflexivity|].
  apply (guest_client_new_once (lit "a.img") (lit "/tmp/qmp.sock")
           GUEST_MEMORY QMP_SOCKET calm _ 0).
  reflexivity.
Defined.

(** ** Release *)

Lemma guest_client_release_cases (close_ret : Z) (w : world) :
  match guest_client w with
  | None => Backend.guest_client_release close_ret w = (0, w)
  | Some c =>
      exists w', Backend.guest_client_release close_ret w = (0, w')
                 /\ guest_client w' = None
                 /\ handles w' = released (ty c) w
                 /\ log w' = log w
                 /\ fopen_rb w' = fopen_rb w
  end.
Proof.
  unfold Backend.guest_client_release.
  destruct (guest_client w) as [c|]; [|reflexivity].
  eexists. split; [reflexivity|].
  unfold handles, released.
  destruct (ty c); cbn [guest_client set_guest_client].
  - unfold Backend.libvirt_client_uninit.
    destruct (domain w) eqn:Ed, (domain_conn w) eqn:Ec; cbn;
      rewrite ?Ed, ?Ec; cbn; rewrite ?Ed, ?Ec; repeat split; reflexivity.
  - repeat split; reflexivity.
  - unfold Backend.qmp_client_uninit.
    destruct (close_ret =? -1); repeat split; reflexivity.
Qed.

(** X11.  [guest_client_release] returns 0 in every case, also when
    closing the monitor socket fails, and logs nothing; it leaves no
    client installed, and of the three backends' handles it clears those
    of the released client's mode only: the domain and the connection
    for a libvirt client, the stream for a flat-file client, none for a
    QMP client.  Releasing again changes nothing. *)
Theorem guest_client_release_clears (close_ret close_ret' : Z) (w : world)
    (c : guest_client_t) :
  guest_client w = Some c ->
  exists w',
    Backend.guest_client_release close_ret w = (0, w')
    /\ guest_client w' = None
    /\ handles w' = released (ty c) w
    /\ log w' = log w
    /\ Backend.guest_client_release close_ret' w' = (0, w').
Proof.
  intros Hc. pose proof (guest_client_release_cases close_ret w) as H.
  rewrite Hc in H. destruct H as (w' & E & Hg & Hh & Hl & _).
  exists w'. repeat split; try assumption.
  pose proof (guest_client_release_cases close_ret' w') as H'.
  rewrite Hg in H'. exact H'.
Qed.

Lemma guest_client_release_clears_witness :
  exists w',
    Backend.guest_client_release (-1) (file_backend (zero_image 16)) = (0, w')
    /\ guest_client w' = None
    /\ handles w' = (None, None, None)
    /\ log w' = []
    /\ Backend.guest_client_release 0 w' = (0, w').
Proof.
  apply (guest_client_release_clears (-1) 0 (file_backend (zero_image 16))
           (capabilities GUEST_MEMORY)).
  reflexivity.
Defined.

(** X12.  Releasing is what lets a process change its target: after the
    release of a flat-file client, [guest_client_new] for a flat file
    opens the path it is given and installs a fresh client, whereas
    without the release it would have kept the first stream. *)
Theorem guest_client_release_then_new (close_ret : Z) (path : cstring)
    (w : world) (c : guest_client_t) :
  guest_client w = Some c -> ty c = GUEST_MEMORY ->
  exists w',
    Guest.guest_client_new path GUEST_MEMORY
      (snd (Backend.guest_client_release close_ret w)) = Ok (0, w')
    /\ guest_client w' = Some (capabilities GUEST_MEMORY)
    /\ mem_file w' = fopen_rb w path
    /\ Guest.guest_client_new path GUEST_MEMORY w = Ok (0, w).
Proof.
  intros Hc Hty. pose proof (guest_client_release_cases close_ret w) as H.
  rewrite Hc, Hty in H. destruct H as (w1 & E & Hg & Hh & Hl & Hf).
  rewrite E. cbn [snd].
  unfold handles, released in Hh. injection Hh as Hd Hdc Hm.
  unfold Guest.guest_client_new at 1. rewrite Hg. cbn [ty].
  unfold Guest.file_client_init. rewrite Hm.
  cbn [mem_file set_mem_file]. rewrite Hf.
  destruct (fopen_rb w path) as [f|] eqn:Eo.
  - eexists. split; [reflexivity|]. cbn. rewrite ?Eo.
    repeat split; try reflexivity.
    unfold Guest.guest_client_new. rewrite Hc. reflexivity.
  - eexists. split; [reflexivity|]. cbn. rewrite ?Eo.
    repeat split; try reflexivity.
    unfold Guest.guest_client_new. rewrite Hc. reflexivity.
Qed.

Lemma guest_client_release_then_new_witness :
  exists w',
    Guest.guest_client_new (lit "b.img") GUEST_MEMORY
      (snd (Backend.guest_client_release 0 (file_backend (zero_image 16))))
    = Ok (0, w')
    /\ guest_client w' = Some (capabilities GUEST_MEMORY)
    /\ mem_file w' = fopen_rb (file_backend (zero_image 16)) (lit "b.img")
    /\ Guest.guest_client_new (lit "b.img") GUEST_MEMORY
         (file_backend (zero_image 16))
       = Ok (0, file_backend (zero_image 16)).
Proof.
  apply (guest_client_release_then_new 0 (lit "b.img")
           (file_backend (zero_image 16)) (capabilities GUEST_MEMORY));
    reflexivity.
Defined.

(** ** Registers through the client *)

Lemma scan_register_lines_cr4 (lines : list cstring) (regs : registers) :
  cr4 (Backend.scan_register_lines lines regs) = cr4 regs.
Proof.
  revert regs. induction lines as [|line lines IH]; intros regs;
    cbn [Backend.scan_register_lines]; [reflexivity|].
  rewrite IH.
  destruct (strstr line (lit "IDT")), (strstr line (lit "CR3")); reflexivity.
Qed.

(** X13.  [libvirt_get_registers] never writes the CR4 cell: whatever
    the monitor answers, and also when the command fails, the caller's
    [cr4] is what it was. *)
Theorem libvirt_get_registers_cr4 (regs : registers) (w : world) :
  cr4 (snd (fst (Backend.libvirt_get_registers regs w))) = cr4 regs.
Proof.
  unfold Backend.libvirt_get_registers.
  destruct (Guest.virDomainQemuMonitorCommand (lit "info registers") w)
    as [[reply|] w1]; cbn [fst snd]; [apply scan_register_lines_cr4 | reflexivity].
Qed.

(** X14.  With the flat-file client installed by [guest_client_new],
    [get_cr3_idtr] yields the two built-in constants, whether or not
    the image could be opened, and changes nothing else. *)
Theorem get_cr3_idtr_flat_file (path : cstring) (junk : Z) (cells : Z * Z)
    (w : world) :
  guest_client w = None ->
  exists w1,
    Guest.guest_client_new path GUEST_MEMORY w = Ok (0, w1)
    /\ Backend.get_cr3_idtr junk cells w1
       = Ok (0x0000000019872000, 0xffffffffff528000, w1).
Proof.
  intros Hg. unfold Guest.guest_client_new. rewrite Hg. cbn [ty].
  destruct (Guest.file_client_init path w) as [r0 w0].
  eexists. split; [reflexivity|]. reflexivity.
Qed.

Lemma get_cr3_idtr_flat_file_witness :
  exists w1,
    Guest.guest_client_new (lit "a.img") GUEST_MEMORY calm = Ok (0, w1)
    /\ Backend.get_cr3_idtr 0 (0, 0) w1
       = Ok (0x0000000019872000, 0xffffffffff528000, w1).
Proof. apply (get_cr3_idtr_flat_file (lit "a.img") 0 (0, 0) calm). reflexivity. Defined.

(** X15.  [get_cr3_idtr] hides a failed register query: with the libvirt
    client installed and a monitor command that fails, the caller's two
    cells come back as they went in, and the log line is the only trace
    of the failure. *)
Theorem get_cr3_idtr_hides_failure (junk : Z) (cells : Z * Z) (w : world)
    (c : guest_client_t) :
  guest_client w = Some c ->
  get_registers c = Some libvirt_get_registers_fn ->
  fst (Guest.virDomainQemuMonitorCommand (lit "info registers") w) = None ->
  exists w',
    Backend.get_cr3_idtr junk cells w = Ok (fst cells, snd cells, w')
    /\ log w' = log w ++ ["Failed to send QMP command: %s"%string]
    /\ monitor_sent w' = monitor_sent w ++ [lit "info registers"].
Proof.
  intros Hc Hf Hfail. unfold Backend.get_cr3_idtr. rewrite Hc, Hf.
  cbn [Backend.call_get_registers]. unfold Backend.libvirt_get_registers.
  destruct (Guest.virDomainQemuMonitorCommand (lit "info registers") w)
    as [[reply|] w1] eqn:E; cbn [fst] in Hfail; [discriminate|].
  eexists. split; [reflexivity|].
  unfold Guest.virDomainQemuMonitorCommand in E.
  destruct (monitor_replies w) as [|[reply|] rest];
    [injection E as <- | discriminate | injection E as <-]; split; reflexivity.
Qed.

Lemma get_cr3_idtr_hides_failure_witness :
  exists w',
    Backend.get_cr3_idtr 0 (1, 2)
      (set_guest_client (Some (capabilities GUEST_NAME)) calm)
    = Ok (1, 2, w')
    /\ log w' = ["Failed to send QMP command: %s"%string]
    /\ monitor_sent w' = [lit "info registers"].
Proof.
  apply (get_cr3_idtr_hides_failure 0 (1, 2)
           (set_guest_client (Some (capabilities GUEST_NAME)) calm)
           (capabilities GUEST_NAME)); reflexivity.
Defined.

(** ** The register reader of the libvirt backend *)

Lemma hex_digit_not_separator (d : Z) :
  0 <= d < 16 ->
  ((code (hex_digit d) =? 32) || (code (hex_digit d) =? 61)) = false.
Proof.
  intros H.
  assert (Hd : d = 0 \/ d = 1 \/ d = 2 \/ d = 3 \/ d = 4 \/ d = 5 \/ d = 6
               \/ d = 7 \/ d = 8 \/ d = 9 \/ d = 10 \/ d = 11 \/ d = 12
               \/ d = 13 \/ d = 14 \/ d = 15) by lia.
  repeat (destruct Hd as [-> | Hd]; [vm_compute; reflexivity|]).
  subst d. vm_compute. reflexivity.
Qed.

Lemma skip_blank_equals_app (seps s : cstring) :
  Forall (fun c => ((code c =? 32) || (code c =? 61)) = true) seps ->
  Backend.skip_blank_equals (seps ++ s) = Backend.skip_blank_equals s.
Proof.
  induction 1 as [|c seps Hc Hs IH]; cbn [app Backend.skip_blank_equals];
    [reflexivity|].
  rewrite Hc. exact IH.
Qed.

Lemma skip_blank_equals_digits (n : nat) (v : Z) (rest : cstring) :
  0 <= v ->
  Backend.skip_blank_equals (hex_digits n v ++ rest)
  = match n with O => Backend.skip_blank_equals rest | _ => hex_digits n v ++ rest end.
Proof.
  intros Hv. destruct n as [|n]; [reflexivity|].
  cbn [hex_digits app Backend.skip_blank_equals].
  rewrite (hex_digit_not_separator _ (hex_digit_range v n Hv)). reflexivity.
Qed.

Lemma strlen_plain (s : cstring) :
  Forall (fun c => is_nul c = false) s -> strlen s = length s.
Proof.
  intros H. unfold strlen.
  rewrite <- (app_nil_r s) at 1. rewrite until_nul_app by exact H.
  cbn [until_nul]. rewrite app_nil_r. reflexivity.
Qed.

Lemma separators_no_nul (seps : cstring) :
  Forall (fun c => ((code c =? 32) || (code c =? 61)) = true) seps ->
  Forall (fun c => is_nul c = false) seps.
Proof.
  apply List.Forall_impl. intros c Hc. unfold is_nul.
  destruct (code c =? 0) eqn:E; [|reflexivity].
  apply Z.eqb_eq in E. rewrite E in Hc. discriminate.
Qed.

(** X16.  [get_line_value] reads a register back from a line of the
    monitor: where the first occurrence of the key is followed by any
    run of blanks and equals signs and then by the [n] hexadecimal
    digits of [v] (two to sixteen of them), the result is [v]. *)
Theorem get_line_value_reads_back (pre key seps rest : cstring) (n : nat)
    (v : Z) :
  strstr (pre ++ key ++ seps ++ hex_digits n v ++ rest) key = Some (length pre) ->
  Forall (fun c => is_nul c = false) (pre ++ key) ->
  Forall (fun c => ((code c =? 32) || (code c =? 61)) = true) seps ->
  (2 <= n <= 16)%nat ->
  0 <= v < 16 ^ Z.of_nat n ->
  ends_number rest ->
  Backend.get_line_value (pre ++ key ++ seps ++ hex_digits n v ++ rest) key = v.
Proof.
  intros Hfind Hnul Hseps Hn Hv Hrest.
  unfold Backend.get_line_value. rewrite Hfind.
  apply Forall_app in Hnul. destruct Hnul as [Hpre Hkey].
  rewrite (strlen_plain key Hkey).
  rewrite until_nul_app by exact Hpre.
  rewrite until_nul_app by exact Hkey.
  rewrite until_nul_app by (apply separators_no_nul; exact Hseps).
  rewrite until_nul_app by (apply hex_digits_no_nul; lia).
  rewrite (app_assoc pre key).
  replace (length pre + length key)%nat with (length (pre ++ key))
    by apply length_app.
  rewrite drop_app_length.
  rewrite skip_blank_equals_app by exact Hseps.
  rewrite skip_blank_equals_digits by lia.
  destruct n as [|n']; [lia|].
  unfold Backend.strtoul16.
  pose proof (scan_hex_digits_n [] (until_nul rest) (S n') v
                (List.Forall_nil _) Hn Hv (ends_number_until_nul rest Hrest)) as H.
  cbn [app] in H. rewrite H. reflexivity.
Qed.

Lemma get_line_value_reads_back_witness :
  Backend.get_line_value
    (lit "CR0=80050033 CR2=00007f2a5c0e1000 " ++ lit "CR3" ++ lit "="
       ++ hex_digits 16 0x220a000 ++ lit " CR4=000006f0")
    (lit "CR3")
  = 0x220a000.
Proof.
  apply (get_line_value_reads_back (lit "CR0=80050033 CR2=00007f2a5c0e1000 ")
           (lit "CR3") (lit "=") (lit " CR4=000006f0") 16 0x220a000).
  - vm_compute. reflexivity.
  - repeat constructor.
  - repeat constructor.
  - lia.
  - vm_compute. split; [discriminate | reflexivity].
  - reflexivity.
Defined.

Lemma strtok_lines_run (l s cur : cstring) :
  Forall (fun c => (code c =? code LF) = false /\ is_nul c = false) l ->
  Guest.strtok_lines (l ++ s) cur = Guest.strtok_lines s (cur ++ l).
Proof.
  intros H. revert cur. induction H as [|c l [Hc _] Hl IH]; intros cur.
  - rewrite app_nil_r. reflexivity.
  - cbn [app Guest.strtok_lines]. rewrite Hc, IH, <- app_assoc. reflexivity.
Qed.

Lemma strtok_lines_text (lines : list cstring) :
  Forall text_line lines ->
  Guest.strtok_lines (monitor_text lines) [] = lines.
Proof.
  induction 1 as [|l lines [Hne Hl] Hlines IH]; [reflexivity|].
  unfold monitor_text. cbn [flat_map]. rewrite <- app_assoc.
  rewrite strtok_lines_run by exact Hl.
  cbn [app Guest.strtok_lines]. rewrite Z.eqb_refl.
  destruct l as [|c l]; [contradiction|].
  fold (monitor_text lines). rewrite IH. reflexivity.
Qed.

Lemma monitor_text_no_nul (lines : list cstring) :
  Forall text_line lines ->
  until_nul (monitor_text lines) = monitor_text lines.
Proof.
  intros H. rewrite <- (app_nil_r (monitor_text lines)) at 1.
  rewrite until_nul_app; [cbn [until_nul]; apply app_nil_r|].
  unfold monitor_text. induction H as [|l lines [_ Hl] _ IH]; cbn [flat_map].
  - constructor.
  - apply Forall_app. split; [|exact IH].
    apply Forall_app. split; [|repeat constructor].
    eapply List.Forall_impl; [|exact Hl]. intros c [_ Hc]. exact Hc.
Qed.

Lemma find_last {A : Type} (p : A -> bool) (xs : list A) (x : A) :
  List.find p (xs ++ [x])
  = match List.find p xs with
    | Some y => Some y
    | None => if p x then Some x else None
    end.
Proof.
  induction xs as [|a xs IH]; cbn [app List.find]; [reflexivity|].
  destruct (p a); [reflexivity | exact IH].
Qed.

Lemma reading_cons (key l : cstring) (lines : list cstring) (old : Z) :
  reading key (l :: lines) old
  = reading key lines
      (match strstr l key with
       | Some _ => Backend.get_line_value l key
       | None => old
       end).
Proof.
  unfold reading, last_mention. cbn [rev]. rewrite find_last.
  destruct (List.find _ (rev lines)); [reflexivity|].
  destruct (strstr l key); reflexivity.
Qed.

Lemma scan_register_lines_reading (lines : list cstring) (regs : registers) :
  Backend.scan_register_lines lines regs
  = {| idtr := reading (lit "IDT") lines (idtr regs);
       cr3 := reading (lit "CR3") lines (cr3 regs);
       cr4 := cr4 regs |}.
Proof.
  revert regs. induction lines as [|l lines IH]; intros regs.
  - destruct regs. reflexivity.
  - cbn [Backend.scan_register_lines]. rewrite IH, !reading_cons.
    destruct (strstr l (lit "IDT")), (strstr l (lit "CR3")); reflexivity.
Qed.

(** X17.  [libvirt_get_registers] takes each register from the last
    line of the response that mentions it: every line in which IDT (or
    CR3) occurs overwrites the cell with the number behind the key, a
    register no line mentions keeps what the cell held, and CR4 is left
    alone.  The function ends without a [return] on this path. *)
Theorem libvirt_get_registers_last_line (lines : list cstring)
    (more : list (option cstring)) (regs : registers) (w : world) :
  monitor_replies w = Some (monitor_text lines) :: more ->
  Forall text_line lines ->
  Backend.libvirt_get_registers regs w
  = (None,
     {| idtr := reading (lit "IDT") lines (idtr regs);
        cr3 := reading (lit "CR3") lines (cr3 regs);
        cr4 := cr4 regs |},
     set_monitor more (monitor_sent w ++ [lit "info registers"]) w).
Proof.
  intros Hreply Hlines.
  unfold Backend.libvirt_get_registers, Guest.virDomainQemuMonitorCommand.
  rewrite Hreply.
  rewrite monitor_text_no_nul, strtok_lines_text by exact Hlines.
  rewrite scan_register_lines_reading. reflexivity.
Qed.

Lemma libvirt_get_registers_last_line_witness :
  Backend.libvirt_get_registers {| idtr := 1; cr3 := 2; cr4 := 3 |}
    (set_monitor [Some (monitor_text register_lines)] [] calm)
  = (None,
     {| idtr := 0xfffffe0000000000; cr3 := 0x220a000; cr4 := 3 |},
     set_monitor [] [lit "info registers"]
       (set_monitor [Some (monitor_text register_lines)] [] calm)).
Proof.
  refine (eq_trans
            (libvirt_get_registers_last_line register_lines []
               {| idtr := 1; cr3 := 2; cr4 := 3 |}
               (set_monitor [Some (monitor_text register_lines)] [] calm) _ _) _).
  - reflexivity.
  - repeat constructor; discriminate.
  - vm_compute. reflexivity.
Defined.

(** ** The flat-file reader *)

Lemma to_long_small (z : Z) : - 2 ^ 63 <= z < 2 ^ 63 -> to_long z = z.
Proof. intros H. unfold to_long. rewrite Z.mod_small; lia. Qed.

Lemma to_long_high (z : Z) : 2 ^ 63 <= z < 2 ^ 64 -> to_long z < 0.
Proof.
  intros H. unfold to_long.
  replace (z + 2 ^ 63) with (z - 2 ^ 63 + 1 * 2 ^ 64) by ring.
  rewrite Z.mod_add, Z.mod_small; lia.
Qed.

Lemma fread_count_full (f : FILE) (size : Z) :
  0 <= size -> f_pos f + size <= f_len f -> readable f (f_pos f) size ->
  Guest.fread_count f size = (size, false).
Proof.
  intros Hs Hlen Hbad. unfold Guest.fread_count, readable in *.
  replace (Z.min size (Z.max 0 (f_len f - f_pos f))) with size by lia.
  destruct (f_bad f) as [b|]; [|reflexivity].
  replace ((f_pos f <=? b) && (b <? f_pos f + size)) with false; [reflexivity|].
  symmetry. apply andb_false_iff.
  destruct Hbad; [left; apply Z.leb_gt; lia | right; apply Z.ltb_ge; lia].
Qed.

Lemma file_readmem_full (addr size : Z) (mem : list Z) (w : world) (f : FILE) :
  mem_file w = Some f ->
  f_seekable f = true ->
  0 <= addr < 2 ^ 63 -> 0 <= size -> addr + size <= f_len f ->
  readable f addr size ->
  (Z.to_nat size <= length mem)%nat ->
  exists f',
    Guest.file_readmem addr size (mem, w)
    = Ok (0, (image_bytes f addr (Z.to_nat size) ++ drop (Z.to_nat size) mem,
              set_mem_file (Some f') w))
    /\ f_pos f' = addr + size /\ f_eof f' = false.
Proof.
  intros Hf Hseek Haddr Hsize Hlen Hbad Hfit.
  unfold Guest.file_readmem. rewrite Hf.
  unfold Guest.fseek_set. rewrite to_long_small by lia.
  replace (addr <? 0) with false by (symmetry; apply Z.ltb_ge; lia).
  rewrite Hseek. cbn [negb orb Z.eqb].
  unfold Guest.fread.
  replace (Z.of_nat (length mem) <? size) with false
    by (symmetry; apply Z.ltb_ge; lia).
  rewrite fread_count_full by (cbn [f_pos f_len f_bad]; assumption).
  unfold Guest.memcpy. rewrite fread_bytes_length.
  replace (length mem <? 0 + Z.to_nat size)%nat with false
    by (symmetry; apply Nat.ltb_ge; lia).
  rewrite Nat.ltb_irrefl. cbn [orb mbind outcome_bind].
  rewrite Z.eqb_refl. cbn [negb].
  match goal with
  | |- context [take ?n (Guest.fread_bytes ?g ?c)] =>
      replace (take n (Guest.fread_bytes g c)) with (Guest.fread_bytes g c)
        by (symmetry; apply List.firstn_all2; rewrite fread_bytes_length; lia)
  end.
  cbn [take firstn app Nat.add].
  eexists. split; [reflexivity|]. split; [reflexivity|].
  cbn. rewrite Z.ltb_irrefl. reflexivity.
Qed.

(** X18.  [file_readmem] on a range that lies inside the image and that
    the device reads without error returns 0 and stores exactly the
    bytes of the image at offsets [addr .. addr + size); what the buffer
    holds behind them is kept.  Where the stream stood before, and
    whether its end-of-file indicator was set, makes no difference. *)
Theorem file_readmem_reads_image (addr size : Z) (mem : list Z) (w : world)
    (f : FILE) :
  mem_file w = Some f ->
  f_seekable f = true ->
  0 <= addr < 2 ^ 63 -> 0 <= size -> addr + size <= f_len f ->
  readable f addr size ->
  (Z.to_nat size <= length mem)%nat ->
  exists w',
    Guest.file_readmem addr size (mem, w)
    = Ok (0, (image_bytes f addr (Z.to_nat size) ++ drop (Z.to_nat size) mem, w'))
    /\ log w' = log w.
Proof.
  intros Hf Hseek Haddr Hsize Hlen Hbad Hfit.
  destruct (file_readmem_full addr size mem w f Hf Hseek Haddr Hsize Hlen Hbad Hfit)
    as (f' & E & _).
  eexists. split; [exact E | reflexivity].
Qed.

Lemma file_readmem_reads_image_witness :
  exists w',
    Guest.file_readmem 254 4 ([9; 9; 9; 9; 9; 9], file_backend (counting_image 4096))
    = Ok (0, ([254; 255; 0; 1; 9; 9], w'))
    /\ log w' = [].
Proof.
  apply (file_readmem_reads_image 254 4 [9; 9; 9; 9; 9; 9]
           (file_backend (counting_image 4096)) (counting_image 4096));
    try reflexivity; try exact I; cbn; lia.
Defined.

(** X19.  [file_readmem] cannot reach the upper half of the address
    space: an address of 2^63 or more is a negative offset for [fseek],
    so the call logs the seek error and returns -1 without reading, the
    buffer untouched.  The same holds for a stream that cannot seek. *)
Theorem file_readmem_seek_fails (addr size : Z) (mem : list Z) (w : world)
    (f : FILE) :
  mem_file w = Some f ->
  2 ^ 63 <= addr < 2 ^ 64 \/ f_seekable f = false ->
  exists w',
    Guest.file_readmem addr size (mem, w) = Ok (-1, (mem, w'))
    /\ log w' = log w ++ ["fseek error"%string]
    /\ mem_file w' = Some f.
Proof.
  intros Hf Hcause. unfold Guest.file_readmem. rewrite Hf.
  unfold Guest.fseek_set.
  replace ((to_long addr <? 0) || negb (f_seekable f)) with true.
  - cbn [negb Z.eqb]. eexists. split; [reflexivity|]. split; reflexivity.
  - symmetry. apply orb_true_iff. destruct Hcause as [Hhigh | ->].
    + left. apply Z.ltb_lt. apply to_long_high. exact Hhigh.
    + right. reflexivity.
Qed.

Lemma file_readmem_seek_fails_witness :
  exists w',
    Guest.file_readmem (2 ^ 63) 4 ([9; 9; 9; 9], file_backend (counting_image 4096))
    = Ok (-1, ([9; 9; 9; 9], w'))
    /\ log w' = ["fseek error"%string]
    /\ mem_file w' = Some (counting_image 4096).
Proof.
  apply (file_readmem_seek_fails (2 ^ 63) 4 [9; 9; 9; 9]
           (file_backend (counting_image 4096)) (counting_image 4096)).
  - reflexivity.
  - left. lia.
Defined.

(** X20.  The flat-file backend end to end: in a process with no client
    and no stream yet, [guest_client_new] on a path that opens, followed
    by [readmem] of a physical address range inside the image, returns 0
    and delivers the bytes of the image at that range. *)
Theorem readmem_flat_file (kmap page_offset phys_base junk : Z)
    (path : cstring) (addr size : Z) (mem : list Z) (w : world) (f : FILE) :
  guest_client w = None -> mem_file w = None ->
  fopen_rb w path = Some f ->
  f_seekable f = true ->
  0 <= addr < 2 ^ 63 -> 0 <= size < 2 ^ 63 -> addr + size <= f_len f ->
  readable f addr size ->
  (Z.to_nat size <= length mem)%nat ->
  exists w1 w2,
    Guest.guest_client_new path GUEST_MEMORY w = Ok (0, w1)
    /\ Guest.readmem kmap page_offset phys_base junk addr Guest.PHYSADDR size
         (mem, w1)
       = Ok (0, (image_bytes f addr (Z.to_nat size) ++ drop (Z.to_nat size) mem,
                 w2))
    /\ log w2 = log w.
Proof.
  intros Hg Hm Ho Hseek Haddr Hsize Hlen Hbad Hfit.
  destruct (file_readmem_full addr size mem
              (set_guest_client
                 (Some {| ty := GUEST_MEMORY;
                          get_registers := Some file_get_registers_fn;
                          Env.readmem := Some file_readmem_fn |})
                 (set_mem_file (Some f) w)) f)
    as (f' & E & _); try assumption; try reflexivity; try lia.
  unfold Guest.guest_client_new. rewrite Hg. cbn [ty].
  unfold Guest.file_client_init. rewrite Hm.
  cbn [mem_file set_mem_file]. rewrite Ho.
  eexists. eexists. split; [reflexivity|].
  unfold Guest.readmem. cbn [snd guest_client set_guest_client Env.readmem
    Guest.readmem_paddr Guest.call_readmem].
  rewrite u64_small by lia.
  rewrite E. split; reflexivity.
Qed.

Lemma readmem_flat_file_witness :
  exists w1 w2,
    Guest.guest_client_new (lit "a.img") GUEST_MEMORY
      (on_disk (counting_image 4096)) = Ok (0, w1)
    /\ Guest.readmem 0 0 0 0 254 Guest.PHYSADDR 4 ([9; 9; 9; 9; 9; 9], w1)
       = Ok (0, ([254; 255; 0; 1; 9; 9], w2))
    /\ log w2 = [].
Proof.
  apply (readmem_flat_file 0 0 0 0 (lit "a.img") 254 4 [9; 9; 9; 9; 9; 9]
           (on_disk (counting_image 4096)) (counting_image 4096));
    try reflexivity; try exact I; cbn; lia.
Defined.

(** ** Dumps longer than the limit *)

Lemma whole_lines_limit (size : Z) (pos : nat) (lines : list (cstring * list Z)) :
  size <= Z.of_nat pos -> whole_lines size pos lines = [].
Proof.
  intros H. destruct lines as [|ln rest]; cbn [whole_lines]; [reflexivity|].
  replace (Z.of_nat pos <? size) with false
    by (symmetry; apply Z.ltb_ge; exact H).
  reflexivity.
Qed.

Lemma whole_lines_bound (size : Z) (pos : nat) (lines : list (cstring * list Z)) :
  Forall line_ok lines ->
  Z.of_nat (pos + length (whole_lines size pos lines))
  <= Z.max (Z.of_nat pos) (size + 7).
Proof.
  intros Hok. revert pos. induction Hok as [|ln rest Hln Hrest IH]; intros pos.
  - cbn [whole_lines length]. lia.
  - cbn [whole_lines].
    destruct (Z.of_nat pos <? size) eqn:E; [|cbn [length]; lia].
    apply Z.ltb_lt in E. rewrite length_app.
    destruct Hln as (_ & _ & _ & Hcount & _).
    specialize (IH (pos + length (snd ln))%nat). lia.
Qed.

Lemma whole_lines_all (size : Z) (pos : nat) (lines : list (cstring * list Z)) :
  Z.of_nat (pos + length (flat_map snd lines)) <= size ->
  Forall line_ok lines ->
  whole_lines size pos lines = flat_map snd lines.
Proof.
  intros Hsize Hok. revert pos Hsize.
  induction Hok as [|ln rest Hln Hrest IH]; intros pos Hsize; [reflexivity|].
  cbn [whole_lines flat_map] in *. rewrite length_app in Hsize.
  destruct Hln as (_ & _ & _ & Hcount & _).
  replace (Z.of_nat pos <? size) with true by (symmetry; apply Z.ltb_lt; lia).
  rewrite IH by lia. reflexivity.
Qed.

Section DumpWholeLines.
Variable input : cstring.
Variables len size : Z.
Variable off : nat.
Variable tail : cstring.

Lemma dump_loop_whole_lines (lines : list (cstring * list Z)) :
  forall (fuel : nat) (pre : cstring) (values mem : list Z) (pos : nat),
    input = pre ++ dump_text lines ++ dquote :: tail ->
    Forall line_ok lines ->
    Z.of_nat (length (pre ++ dump_text lines)) <= len ->
    (off + pos + length (whole_lines size pos lines) <= length mem)%nat ->
    (length (dump_text lines) < fuel)%nat ->
    exists d,
      Qmp.dump_loop fuel input len size off
        {| Qmp.d_start := length pre; Qmp.d_line := [];
           Qmp.d_values := values; Qmp.d_mem := mem; Qmp.d_pos := pos |}
      = Ok d
      /\ Qmp.d_mem d
         = take (off + pos) mem ++ whole_lines size pos lines
           ++ drop (off + pos + length (whole_lines size pos lines)) mem.
Proof.
  induction lines as [|[label bytes] lines IH];
    intros fuel pre values mem pos Hinput Hok Hlen Hmem Hfuel.
  - destruct fuel as [|fuel]; [cbn in Hfuel; lia|].
    eexists. split.
    + eapply dump_loop_quote; [exact Hinput | reflexivity].
    + cbn [whole_lines Qmp.d_mem length app]. rewrite Nat.add_0_r, take_drop.
      reflexivity.
  - destruct (Z_lt_ge_dec (Z.of_nat pos) size) as [Hpos|Hpos].
    2: { rewrite whole_lines_limit by lia.
         destruct fuel as [|fuel]; [lia|].
         eexists. split.
         - apply dump_loop_limit. cbn [Qmp.d_pos]. lia.
         - cbn [Qmp.d_mem length app]. rewrite Nat.add_0_r, take_drop.
           reflexivity. }
    inversion Hok as [|x l (Hne & Hlabel & Hbytes & Hcount & Hline) Hok'];
      subst x l. cbn [fst snd] in *.
    change (dump_text ((label, bytes) :: lines))
      with ((dump_line label bytes ++ lit "\r\n") ++ dump_text lines) in *.
    cbn [whole_lines snd] in *.
    replace (Z.of_nat pos <? size) with true in *
      by (symmetry; apply Z.ltb_lt; lia).
    change (lit "\r\n") with [backslash; "r"%char; backslash; "n"%char] in *.
    set (run := dump_line label bytes) in *.
    set (more := whole_lines size (pos + length bytes) lines) in *.
    repeat rewrite length_app in Hlen.
    repeat rewrite length_app in Hmem.
    repeat rewrite length_app in Hfuel.
    cbn [length] in Hlen, Hfuel.
    (* the characters of the line *)
    replace fuel with (length run + S (fuel - length run - 1))%nat by lia.
    rewrite (dump_loop_plain input len size off run _ pre
               (backslash :: "r"%char :: backslash :: "n"%char
                  :: dump_text lines ++ dquote :: tail) []);
      [ | rewrite Hinput, <- !app_assoc; reflexivity
        | apply dump_line_chars; assumption
        | cbn [app]; lia
        | rewrite length_app; lia
        | lia ].
    cbn [app].
    (* backslash r *)
    erewrite (dump_loop_cr input len size off _ (pre ++ run)
                (backslash :: "n"%char :: dump_text lines ++ dquote :: tail)
                run values _ mem);
      [ | rewrite Hinput, <- !app_assoc; reflexivity
        | exact Hline
        | rewrite length_app; lia
        | lia
        | apply sscanf_dump_line; assumption
        | rewrite Nat2Z.id, take_app_length; apply copy_values_ok; lia ].
    rewrite Nat2Z.id, take_app_length.
    replace (length (pre ++ run) + 2)%nat
      with (length (pre ++ run ++ [backslash; "r"%char]))
      by (rewrite !length_app; cbn [length]; lia).
    destruct (Z_lt_ge_dec (Z.of_nat (pos + length bytes)) size) as [Hmore|Hfull].
    + (* backslash n, then the lines that follow *)
      replace (fuel - length run - 1)%nat
        with (S (fuel - length run - 2))%nat by lia.
      rewrite (dump_loop_lf input len size off _ (pre ++ run ++ [backslash; "r"%char])
                 (dump_text lines ++ dquote :: tail));
        [ | rewrite Hinput, <- !app_assoc; reflexivity
          | rewrite !length_app; cbn [length]; lia
          | exact Hmore ].
      replace (length (pre ++ run ++ [backslash; "r"%char]) + 2)%nat
        with (length (pre ++ run ++ [backslash; "r"%char; backslash; "n"%char]))
        by (rewrite !length_app; cbn [length]; lia).
      destruct (IH (fuel - length run - 2)%nat
                   (pre ++ run ++ [backslash; "r"%char; backslash; "n"%char])
                   (bytes ++ drop (length bytes) values)
                   (take (off + pos) mem ++ bytes
                      ++ drop (off + pos + length bytes) mem)
                   (pos + length bytes)%nat)
        as (d & Hd & Hdmem).
      * rewrite Hinput, <- !app_assoc. reflexivity.
      * exact Hok'.
      * rewrite !length_app in *. cbn [length]. lia.
      * fold more. rewrite !length_app, length_take, length_drop. lia.
      * lia.
      * exists d. split; [exact Hd|].
        rewrite Hdmem. fold more.
        replace (off + (pos + length bytes))%nat
          with (off + pos + length bytes)%nat by lia.
        rewrite store_twice by lia.
        rewrite length_app, Nat.add_assoc. reflexivity.
    + (* the limit is reached: the loop ends here *)
      assert (Hnil : more = []).
      { apply whole_lines_limit. lia. }
      replace (fuel - length run - 1)%nat
        with (S (fuel - length run - 2))%nat by lia.
      eexists. split.
      * apply dump_loop_limit. cbn [Qmp.d_pos]. lia.
      * cbn [Qmp.d_mem]. rewrite Hnil, app_nil_r. reflexivity.
Qed.
End DumpWholeLines.

Lemma qmp_populate_mem_stores (pre tail : cstring)
    (lines : list (cstring * list Z)) (len size : Z) (mem : list Z)
    (off : nat) (w : world) :
  strstr (pre ++ Qmp.return_start ++ dump_text lines ++ dquote :: tail)
    Qmp.return_start = Some (length pre) ->
  Forall line_ok lines ->
  Z.of_nat (length (pre ++ Qmp.return_start ++ dump_text lines)) <= len ->
  (off + length (whole_lines size 0 lines) <= length mem)%nat ->
  Qmp.qmp_populate_mem
    (pre ++ Qmp.return_start ++ dump_text lines ++ dquote :: tail)
    len mem off size w
  = Ok (0, take off mem ++ whole_lines size 0 lines
           ++ drop (off + length (whole_lines size 0 lines)) mem, w).
Proof.
  intros Hfind Hok Hlen Hmem.
  unfold Qmp.qmp_populate_mem. rewrite Hfind.
  change (strlen Qmp.return_start) with (length Qmp.return_start).
  rewrite <- length_app.
  rewrite app_assoc, length_app in Hlen.
  destruct (dump_loop_whole_lines
              (pre ++ Qmp.return_start ++ dump_text lines ++ dquote :: tail)
              len size off tail lines (S (Z.to_nat len))
              (pre ++ Qmp.return_start) (repeat 0 8) mem 0%nat)
    as (d & Hd & Hdmem).
  - rewrite <- app_assoc. reflexivity.
  - exact Hok.
  - rewrite length_app. lia.
  - rewrite Nat.add_0_r. exact Hmem.
  - lia.
  - rewrite Hd. cbn [mbind outcome_bind]. rewrite Hdmem, Nat.add_0_r.
    reflexivity.
Qed.

(** X21.  The limit of [qmp_populate_mem] is checked between lines, not
    inside them: of a dump of well-formed lines it stores whole lines for
    as long as fewer than [size] bytes are stored, so that a dump longer
    than the limit puts up to seven bytes more than [size] into the
    output buffer. *)
Theorem qmp_populate_mem_whole_lines (pre tail : cstring)
    (lines : list (cstring * list Z)) (len size : Z) (mem : list Z)
    (off : nat) (w : world) :
  strstr (pre ++ Qmp.return_start ++ dump_text lines ++ dquote :: tail)
    Qmp.return_start = Some (length pre) ->
  Forall line_ok lines ->
  Z.of_nat (length (pre ++ Qmp.return_start ++ dump_text lines)) <= len ->
  (off + length (whole_lines size 0 lines) <= length mem)%nat ->
  0 <= size ->
  Qmp.qmp_populate_mem
    (pre ++ Qmp.return_start ++ dump_text lines ++ dquote :: tail)
    len mem off size w
  = Ok (0, take off mem ++ whole_lines size 0 lines
           ++ drop (off + length (whole_lines size 0 lines)) mem, w)
  /\ Z.of_nat (length (whole_lines size 0 lines)) <= size + 7.
Proof.
  intros Hfind Hok Hlen Hmem Hsize. split.
  - apply qmp_populate_mem_stores; assumption.
  - pose proof (whole_lines_bound size 0 lines Hok) as H.
    cbn [Nat.add] in H. change (Z.of_nat 0) with 0 in H. lia.
Qed.

Lemma qmp_populate_mem_whole_lines_witness :
  Qmp.qmp_populate_mem labelled_payload (Z.of_nat (length labelled_payload))
    (repeat 170 10) 0 1 calm
  = Ok (0, [0; 1; 2; 3; 4; 5; 6; 7; 170; 170], calm).
Proof.
  refine (eq_trans
            (proj1 (qmp_populate_mem_whole_lines [] [] labelled_lines
                      (Z.of_nat (length labelled_payload)) 1 (repeat 170 10)
                      0 calm _ _ _ _ _)) _).
  - vm_compute. reflexivity.
  - repeat constructor; try discriminate; vm_compute; try lia; intuition discriminate.
  - vm_compute. discriminate.
  - vm_compute. lia.
  - lia.
  - vm_compute. reflexivity.
Defined.

(** ** One segment over the monitor socket *)

Lemma is_prefix_app (needle s t : cstring) :
  is_prefix needle s = true -> is_prefix needle (s ++ t) = true.
Proof.
  revert s. induction needle as [|a needle IH]; intros s; [reflexivity|].
  destruct s as [|b s]; cbn [is_prefix app]; [discriminate|].
  intros H. apply andb_true_iff in H. destruct H as [-> H].
  cbn [andb]. apply IH. exact H.
Qed.

Lemma is_prefix_length (needle s : cstring) :
  is_prefix needle s = true -> (length needle <= length s)%nat.
Proof.
  revert s. induction needle as [|a needle IH]; intros s; cbn [length]; [lia|].
  destruct s as [|b s]; cbn [is_prefix length]; [discriminate|].
  intros H. apply andb_true_iff in H. destruct H as [_ H].
  apply IH in H. lia.
Qed.

Lemma is_prefix_grows (needle s t : cstring) :
  is_prefix needle s = false -> is_prefix needle (s ++ t) = true ->
  (length s < length needle)%nat.
Proof.
  revert s. induction needle as [|a needle IH]; intros s; [discriminate|].
  destruct s as [|b s]; cbn [is_prefix app length]; [lia|].
  destruct (code a =? code b); cbn [andb]; [|discriminate].
  intros H1 H2. specialize (IH s H1 H2). lia.
Qed.

Lemma find_from_length (needle s : cstring) (off p : nat) :
  find_from needle s off = Some p -> (length needle <= length s)%nat.
Proof.
  revert off. induction s as [|c s IH]; intros off; cbn [find_from].
  - destruct (is_prefix needle []) eqn:E; [|discriminate].
    intros _. apply is_prefix_length. exact E.
  - destruct (is_prefix needle (c :: s)) eqn:E.
    + intros _. apply is_prefix_length. exact E.
    + intros H. apply IH in H. cbn [length]. lia.
Qed.

Lemma find_from_app (needle s t : cstring) (off p : nat) :
  find_from needle s off = Some p -> find_from needle (s ++ t) off = Some p.
Proof.
  revert off. induction s as [|c s IH]; intros off.
  - cbn [find_from app]. destruct (is_prefix needle []) eqn:E; [|discriminate].
    intros H. destruct needle; [|discriminate].
    destruct t; exact H.
  - cbn [find_from app].
    destruct (is_prefix needle (c :: s)) eqn:E.
    + change (c :: s ++ t) with ((c :: s) ++ t).
      rewrite (is_prefix_app _ _ t E). auto.
    + intros H.
      destruct (is_prefix needle (c :: s ++ t)) eqn:E'.
      * pose proof (is_prefix_grows needle (c :: s) t E E') as Hlt.
        pose proof (find_from_length _ _ _ _ H) as Hle.
        cbn [length] in Hlt. lia.
      * apply IH. exact H.
Qed.

Lemma until_nul_app_any (a b : cstring) :
  exists t, until_nul (a ++ b) = until_nul a ++ t.
Proof.
  induction a as [|c a [t IH]]; cbn [app until_nul].
  - exists (until_nul b). reflexivity.
  - destruct (is_nul c); [exists []; reflexivity|].
    exists t. rewrite IH. reflexivity.
Qed.

(** What [strstr] finds in a text it finds at the same place when more
    bytes follow the text. *)
Lemma strstr_app (a b needle : cstring) (p : nat) :
  strstr a needle = Some p -> strstr (a ++ b) needle = Some p.
Proof.
  unfold strstr. intros H.
  destruct (until_nul_app_any a b) as [t ->].
  apply find_from_app. exact H.
Qed.

Lemma buffer_size (size : Z) :
  0 < size < 2 ^ 60 -> u64 (1024 + size * 8) = 1024 + size * 8.
Proof. intros H. apply u64_small. lia. Qed.

Lemma xmalloc_length (n : Z) (w : world) :
  length (Qmp.xmalloc n w) = Z.to_nat n.
Proof. unfold Qmp.xmalloc. rewrite length_map, length_seq. reflexivity. Qed.

(** The call up to the point where the response is handed to
    [qmp_populate_mem]. *)
Lemma qmp_readmem_part_parses (addr size : Z) (off : nat) (mem : list Z)
    (w : world) :
  0 < size < 2 ^ 60 ->
  fst (Qmp.xwrite (Qmp.QMP_COMMAND_XP size addr) w)
    = Z.of_nat (strlen (Qmp.QMP_COMMAND_XP size addr)) ->
  delivered (polls w) <> [] ->
  fst (ending (polls w)) = 0 ->
  Z.of_nat (length (delivered (polls w))) <= 1024 + size * 8 ->
  Qmp.qmp_readmem_part addr off size (mem, w)
  = '(_, mem', w') ←
      Qmp.on_block
        (Qmp.stored (Qmp.xmalloc (u64 (1024 + size * 8)) w)
           (delivered (polls w)))
        (match strstr (Qmp.stored (Qmp.xmalloc (u64 (1024 + size * 8)) w)
                         (delivered (polls w))) Qmp.return_start with
         | None => true
         | Some _ => false
         end)
        (Qmp.qmp_populate_mem
           (Qmp.stored (Qmp.xmalloc (u64 (1024 + size * 8)) w)
              (delivered (polls w)))
           (1024 + size * 8) mem off size
           (set_polls (snd (ending (polls w)))
              (snd (Qmp.xwrite (Qmp.QMP_COMMAND_XP size addr) w))));
    Ok (0, (mem', w')).
Proof.
  intros size_range written answered quiet fits.
  set (cmd := Qmp.QMP_COMMAND_XP size addr) in *.
  set (reply := delivered (polls w)) in *.
  unfold Qmp.qmp_readmem_part.
  replace (size <=? 0) with false by (symmetry; apply Z.leb_gt; lia).
  fold cmd.
  destruct (xwrite_keeps_polls cmd w) as (Hpolls & _).
  destruct (Qmp.xwrite cmd w) as [nwrite w0] eqn:Ew. cbn [fst snd] in *.
  rewrite written, Z.eqb_refl. cbn [negb].
  rewrite buffer_size by exact size_range.
  assert (Hheap : Qmp.xmalloc (1024 + size * 8) w0
                  = Qmp.xmalloc (1024 + size * 8) w).
  { unfold Qmp.xmalloc. f_equal. unfold Qmp.xwrite in Ew.
    destruct (xwrite_rets w); injection Ew as _ <-; reflexivity. }
  rewrite qmp_read_fits
    by (rewrite Hpolls, xmalloc_length; fold reply; lia).
  cbn [mbind outcome_bind]. rewrite Hpolls, quiet. fold reply.
  change (0 =? -1) with false. cbn [orb].
  assert (Hlen : 0 < Z.of_nat (length reply)).
  { destruct reply; [contradiction | cbn [length]; lia]. }
  rewrite u64_small by lia.
  replace (Z.of_nat (length reply) <=? 0) with false
    by (symmetry; apply Z.leb_gt; exact Hlen).
  rewrite Hheap. reflexivity.
Qed.

(** X22.  [qmp_readmem_part] does not notice a response it cannot use.
    The block that holds the response is the response followed by what
    the heap held; when it holds a NUL, so that the search ends inside
    it, and the marker [return_start] does not occur before that NUL,
    the call logs that the start was not found and still returns 0, the
    output buffer as it was. *)
Theorem qmp_readmem_part_unusable_reply (addr size : Z) (off : nat)
    (mem : list Z) (w : world) :
  0 < size < 2 ^ 60 ->
  fst (Qmp.xwrite (Qmp.QMP_COMMAND_XP size addr) w)
    = Z.of_nat (strlen (Qmp.QMP_COMMAND_XP size addr)) ->
  delivered (polls w) <> [] ->
  fst (ending (polls w)) = 0 ->
  Z.of_nat (length (delivered (polls w))) <= 1024 + size * 8 ->
  terminated (Qmp.stored (Qmp.xmalloc (u64 (1024 + size * 8)) w)
                (delivered (polls w))) = true ->
  strstr (Qmp.stored (Qmp.xmalloc (u64 (1024 + size * 8)) w)
            (delivered (polls w))) Qmp.return_start = None ->
  exists w',
    Qmp.qmp_readmem_part addr off size (mem, w) = Ok (0, (mem, w'))
    /\ log w' = log w ++ ["Can not found start"%string]
    /\ sent w' = sent w ++ [Qmp.QMP_COMMAND_XP size addr].
Proof.
  intros Hsize Hwrite Hreply Hquiet Hfit Hnul Hnone.
  rewrite qmp_readmem_part_parses by assumption.
  rewrite on_block_terminated by exact Hnul.
  unfold Qmp.qmp_populate_mem. rewrite Hnone. cbn [mbind outcome_bind].
  eexists. split; [reflexivity|].
  destruct (xwrite_keeps_polls (Qmp.QMP_COMMAND_XP size addr) w)
    as (_ & Hsent & Hlog & _).
  unfold pr_err. cbn [log sent set_log set_polls]. rewrite Hsent, Hlog.
  split; reflexivity.
Qed.

Lemma qmp_readmem_part_unusable_reply_witness :
  exists w',
    Qmp.qmp_readmem_part 4096 0 4 ([9; 9; 9; 9],
      greets (Qmp.q "{'error': {'class': 'GenericError'}}"))
    = Ok (0, ([9; 9; 9; 9], w'))
    /\ log w' = ["Can not found start"%string]
    /\ sent w' = [Qmp.QMP_COMMAND_XP 4 4096].
Proof.
  apply (qmp_readmem_part_unusable_reply 4096 4 0 [9; 9; 9; 9]
           (greets (Qmp.q "{'error': {'class': 'GenericError'}}"))).
  - lia.
  - vm_compute. reflexivity.
  - vm_compute. discriminate.
  - vm_compute. reflexivity.
  - vm_compute. discriminate.
  - vm_compute. reflexivity.
  - vm_compute. reflexivity.
Defined.

(** X23.  One segment, end to end: when the command went out and the
    monitor answered with a dump of well-formed lines behind the marker,
    [qmp_readmem_part] returns 0 and stores the bytes of those lines at
    [buffer], taken whole for as long as fewer than [size] bytes are
    stored. *)
Theorem qmp_readmem_part_reads (addr size : Z) (off : nat) (mem : list Z)
    (w : world) (pre tail : cstring) (lines : list (cstring * list Z)) :
  0 < size < 2 ^ 60 ->
  fst (Qmp.xwrite (Qmp.QMP_COMMAND_XP size addr) w)
    = Z.of_nat (strlen (Qmp.QMP_COMMAND_XP size addr)) ->
  delivered (polls w)
    = pre ++ Qmp.return_start ++ dump_text lines ++ dquote :: tail ->
  strstr (delivered (polls w)) Qmp.return_start = Some (length pre) ->
  fst (ending (polls w)) = 0 ->
  Z.of_nat (length (delivered (polls w))) <= 1024 + size * 8 ->
  Forall line_ok lines ->
  (off + length (whole_lines size 0 lines) <= length mem)%nat ->
  exists w',
    Qmp.qmp_readmem_part addr off size (mem, w)
    = Ok (0, (take off mem ++ whole_lines size 0 lines
              ++ drop (off + length (whole_lines size 0 lines)) mem, w'))
    /\ sent w' = sent w ++ [Qmp.QMP_COMMAND_XP size addr]
    /\ log w' = log w.
Proof.
  intros Hsize Hwrite Hreply Hfind Hquiet Hfit Hok Hmem.
  rewrite qmp_readmem_part_parses;
    try assumption; [|rewrite Hreply; destruct pre; discriminate].
  unfold Qmp.stored.
  set (junk := drop _ _).
  pose proof (strstr_app _ junk _ _ Hfind) as Hfind'.
  rewrite Hfind', on_block_inside.
  rewrite Hreply in Hfind', Hfit |- *.
  repeat rewrite <- app_assoc in Hfind' |- *. cbn [app] in Hfind' |- *.
  rewrite (qmp_populate_mem_stores pre (tail ++ junk) lines);
    [ | exact Hfind' | exact Hok
      | repeat rewrite length_app in Hfit; repeat rewrite length_app;
        cbn [length] in Hfit; lia
      | exact Hmem ].
  cbn [mbind outcome_bind].
  eexists. split; [reflexivity|].
  destruct (xwrite_keeps_polls (Qmp.QMP_COMMAND_XP size addr) w)
    as (_ & Hsent & Hlog & _).
  unfold pr_err. cbn [log sent set_log set_polls]. rewrite Hsent, Hlog.
  split; reflexivity.
Qed.

Lemma qmp_readmem_part_reads_witness :
  exists w',
    Qmp.qmp_readmem_part 4096 0 10 (repeat 170 12,
      greets (lit "{" ++ labelled_payload ++ lit "}"))
    = Ok (0, ([0; 1; 2; 3; 4; 5; 6; 7; 8; 9; 170; 170], w'))
    /\ sent w' = [Qmp.QMP_COMMAND_XP 10 4096]
    /\ log w' = [].
Proof.
  apply (qmp_readmem_part_reads 4096 10 0 (repeat 170 12)
           (greets (lit "{" ++ labelled_payload ++ lit "}"))
           (lit "{") (lit "}") labelled_lines).
  - lia.
  - vm_compute. reflexivity.
  - vm_compute. reflexivity.
  - vm_compute. reflexivity.
  - vm_compute. reflexivity.
  - vm_compute. discriminate.
  - repeat constructor; try discriminate; vm_compute; try lia; intuition discriminate.
  - vm_compute. lia.
Defined.

(** ** Segments tile the buffer *)

Lemma ram_bytes_length (ram : Z -> Z) (addr : Z) (n : nat) :
  length (ram_bytes ram addr n) = n.
Proof. unfold ram_bytes. rewrite length_map, length_seq. reflexivity. Qed.

Lemma map_seq_shift {A : Type} (f : nat -> A) (a n : nat) :
  map f (seq a n) = map (fun k => f (a + k)%nat) (seq 0 n).
Proof.
  rewrite <- (Nat.add_0_r a) at 1. generalize 0%nat as b.
  induction n as [|n IH]; intros b; cbn [seq map]; [reflexivity|].
  f_equal. rewrite <- IH. f_equal. f_equal. lia.
Qed.

Lemma ram_bytes_app (ram : Z -> Z) (addr : Z) (n m : nat) :
  ram_bytes ram addr (n + m)
  = ram_bytes ram addr n ++ ram_bytes ram (u64 (addr + Z.of_nat n)) m.
Proof.
  unfold ram_bytes. rewrite seq_app, map_app. f_equal.
  cbn [Nat.add]. rewrite map_seq_shift. apply map_ext. intros k.
  rewrite u64_add_l. f_equal. f_equal. lia.
Qed.

Lemma ram_reader_reads (ram : Z -> Z) : reads_ram ram (ram_reader ram).
Proof.
  intros a o l mem w _ Hl Hfit. unfold ram_reader, Guest.memcpy. cbn [fst snd].
  rewrite ram_bytes_length, Nat.ltb_irrefl.
  replace (length mem <? o + Z.to_nat l)%nat with false
    by (symmetry; apply Nat.ltb_ge; exact Hfit).
  cbn [orb mbind outcome_bind]. eexists. f_equal. f_equal. f_equal.
  f_equal. f_equal.
  apply List.firstn_all2. rewrite ram_bytes_length. lia.
Qed.

Section Tiling.
Context {W : Type}.
Variable ram : Z -> Z.
Variable part : Z -> nat -> Z -> list Z * W -> outcome (Z * (list Z * W)).
Hypothesis part_reads : reads_ram ram part.
Variable addr : Z.

Lemma run_full_segments (m : nat) :
  forall (k : nat) (mem : list Z) (w : W),
    (Z.to_nat Qmp.step * (k + m) <= length mem)%nat ->
    exists w',
      run_plan part (map (full_segment addr) (seq k m)) (mem, w)
      = Ok (0, (take (Z.to_nat Qmp.step * k) mem
                ++ ram_bytes ram (u64 (addr + Qmp.step * Z.of_nat k))
                     (Z.to_nat Qmp.step * m)
                ++ drop (Z.to_nat Qmp.step * (k + m)) mem, w')).
Proof.
  set (st := Z.to_nat Qmp.step).
  induction m as [|m IH]; intros k mem w Hfit.
  - exists w. cbn [seq map run_plan]. rewrite Nat.mul_0_r, Nat.add_0_r.
    cbn [ram_bytes seq map app]. rewrite take_drop. reflexivity.
  - cbn [seq map run_plan].
    change (seg_addr (full_segment addr k))
      with (u64 (addr + Qmp.step * Z.of_nat k)).
    change (seg_offset (full_segment addr k)) with (st * k)%nat.
    change (seg_length (full_segment addr k)) with Qmp.step.
    assert (Hst : Z.of_nat st = Qmp.step) by reflexivity.
    assert (Hst' : Z.to_nat Qmp.step = st) by reflexivity.
    destruct (part_reads (u64 (addr + Qmp.step * Z.of_nat k)) (st * k)%nat
                Qmp.step mem w) as [w1 E1].
    { apply Z.mod_pos_bound. reflexivity. }
    { reflexivity. }
    { rewrite Hst'. lia. }
    rewrite E1. cbn [mbind outcome_bind]. change (negb (0 =? 0)) with false.
    cbn iota. rewrite Hst'.
    set (B := ram_bytes ram (u64 (addr + Qmp.step * Z.of_nat k)) st) in *.
    assert (HB : length B = st) by apply ram_bytes_length.
    destruct (IH (S k) (take (st * k) mem ++ B ++ drop (st * k + st) mem) w1)
      as [w2 E2].
    { rewrite !length_app, length_take, length_drop, HB. lia. }
    rewrite E2. exists w2. f_equal. f_equal. f_equal.
    set (B' := ram_bytes ram (u64 (addr + Qmp.step * Z.of_nat (S k))) (st * m)).
    assert (HB' : length B' = (st * m)%nat) by apply ram_bytes_length.
    replace (st * S k)%nat with (st * k + length B)%nat by lia.
    replace (st * (S k + m))%nat with (st * k + length B + length B')%nat by lia.
    replace (st * k + st)%nat with (st * k + length B)%nat by lia.
    rewrite store_twice by lia.
    replace (st * k + length B + length B')%nat with (st * (k + S m))%nat by lia.
    f_equal. f_equal.
    replace (st * S m)%nat with (st + st * m)%nat by lia.
    rewrite ram_bytes_app. fold B. f_equal. unfold B'.
    rewrite u64_add_l. f_equal. f_equal. lia.
Qed.

End Tiling.

(** X24.  The segment loop of [qmp_readmem] and [libvirt_readmem] tiles
    the output buffer: with a single-segment reader that delivers guest
    memory, a read of [size] bytes at [addr] returns 0 and leaves in the
    buffer the [size] bytes of guest memory from [addr] on, in order,
    without gap or overlap, whatever [size] is a multiple of. *)
Theorem readmem_chunked_tiles {W : Type} (ram : Z -> Z)
    (part : Z -> nat -> Z -> list Z * W -> outcome (Z * (list Z * W)))
    (addr size : Z) (mem : list Z) (w : W) :
  reads_ram ram part ->
  0 <= addr < 2 ^ 64 ->
  0 <= size ->
  size / Qmp.step <= INT_MAX ->
  (Z.to_nat size <= length mem)%nat ->
  exists w',
    Qmp.readmem_chunked part addr size (mem, w)
    = Ok (0, (ram_bytes ram addr (Z.to_nat size) ++ drop (Z.to_nat size) mem,
              w')).
Proof.
  intros Hpart Haddr Hsize Hint Hfit.
  rewrite readmem_chunked_runs_plan by assumption.
  unfold plan. rewrite run_plan_app.
  set (n := Z.to_nat (size / Qmp.step)).
  set (st := Z.to_nat Qmp.step).
  assert (Hst : Z.of_nat st = Qmp.step) by reflexivity.
  assert (Hstep : Qmp.step = 4096) by reflexivity.
  pose proof (Z.div_mod size Qmp.step ltac:(discriminate)) as Hdm.
  pose proof (Z.mod_pos_bound size Qmp.step ltac:(reflexivity)) as Hmod.
  assert (Hdiv : 0 <= size / Qmp.step)
    by (apply Z.div_pos; [exact Hsize | reflexivity]).
  assert (Hn : Z.of_nat n = size / Qmp.step) by (unfold n; lia).
  destruct (run_full_segments ram part Hpart addr n 0%nat mem w) as [w1 E1].
  { fold st. nia. }
  rewrite E1. cbn [mbind outcome_bind]. rewrite Z.eqb_refl.
  fold st in E1 |- *.
  rewrite Nat.mul_0_r, Z.mul_0_r, Z.add_0_r, (u64_small addr Haddr).
  rewrite take_0. cbn [app Nat.add].
  destruct (0 <? size mod Qmp.step) eqn:Erem.
  - apply Z.ltb_lt in Erem. cbn [run_plan].
    unfold seg_addr, seg_offset, seg_length. cbn [fst snd].
    fold st. fold n.
    set (B := ram_bytes ram addr (st * n)).
    assert (HB : length B = (st * n)%nat) by apply ram_bytes_length.
    destruct (Hpart (u64 (addr + Qmp.step * (size / Qmp.step))) (st * n)%nat
                (size mod Qmp.step) (B ++ drop (st * n) mem) w1) as [w2 E2].
    { apply Z.mod_pos_bound. reflexivity. }
    { exact Erem. }
    { rewrite length_app, length_drop, HB. nia. }
    rewrite E2. cbn [mbind outcome_bind]. change (negb (0 =? 0)) with false.
    cbn iota. exists w2. f_equal. f_equal. f_equal.
    set (B' := ram_bytes _ _ _).
    assert (HB' : length B' = Z.to_nat (size mod Qmp.step))
      by apply ram_bytes_length.
    rewrite <- HB at 1. rewrite take_app_length.
    replace (st * n + Z.to_nat (size mod Qmp.step))%nat
      with (length B + Z.to_nat (size mod Qmp.step))%nat by lia.
    rewrite <- drop_drop, drop_app_length, drop_drop.
    replace (st * n + Z.to_nat (size mod Qmp.step))%nat with (Z.to_nat size)
      by nia.
    rewrite app_assoc. f_equal.
    replace (Z.to_nat size) with (st * n + Z.to_nat (size mod Qmp.step))%nat
      by nia.
    rewrite ram_bytes_app. fold B. f_equal. unfold B'. f_equal. f_equal.
    rewrite <- Hn. lia.
  - apply Z.ltb_ge in Erem. cbn [run_plan].
    exists w1. f_equal. f_equal. f_equal.
    replace (st * n)%nat with (Z.to_nat size) by nia.
    reflexivity.
Qed.

Lemma readmem_chunked_tiles_witness :
  exists w',
    Qmp.readmem_chunked (ram_reader (fun a => a mod 256)) 4090 8200
      (repeat 0 (Z.to_nat 8200), 0%nat)
    = Ok (0, (ram_bytes (fun a => a mod 256) 4090 (Z.to_nat 8200)
              ++ drop (Z.to_nat 8200) (repeat 0 (Z.to_nat 8200)), w')).
Proof.
  apply (readmem_chunked_tiles (fun a => a mod 256)
           (ram_reader (fun a => a mod 256)) 4090 8200
           (repeat 0 (Z.to_nat 8200)) 0%nat).
  - apply ram_reader_reads.
  - lia.
  - lia.
  - vm_compute. discriminate.
  - rewrite repeat_length. lia.
Defined.

(** ** One segment over libvirt *)

Lemma isspace_not_hex (c : ascii) : isspace c = true -> hex_value c = None.
Proof.
  unfold isspace, hex_value. intros H.
  apply orb_true_iff in H.
  destruct H as [H | H].
  - apply Z.eqb_eq in H. rewrite H. reflexivity.
  - apply andb_true_iff in H. destruct H as [H1 H2].
    apply Z.leb_le in H1. apply Z.leb_le in H2.
    replace (48 <=? code c) with false by (symmetry; apply Z.leb_gt; lia).
    replace (97 <=? code c) with false by (symmetry; apply Z.leb_gt; lia).
    replace (65 <=? code c) with false by (symmetry; apply Z.leb_gt; lia).
    reflexivity.
Qed.

Lemma word_tokens_head (ws : list Z) :
  ends_number (word_tokens ws ++ [CR]).
Proof. destruct ws; cbn; reflexivity. Qed.

Lemma scan_hex_items_words (ws : list Z) (n : nat) (assigned : list Z) :
  Forall is_word ws ->
  (length ws <= n)%nat ->
  scan_hex_items u32 n (word_tokens ws ++ [CR]) assigned
  = (if (length ws =? n)%nat then Scanned tt [CR] else InputFail,
     assigned ++ ws).
Proof.
  intros Hws. revert n assigned.
  induction Hws as [|v ws Hv Hws IH]; intros n assigned Hn.
  - rewrite app_nil_r. destruct n; reflexivity.
  - destruct n as [|n]; [cbn in Hn; lia|].
    cbn [length] in Hn.
    change (word_tokens (v :: ws) ++ [CR])
      with (" "%char :: "0"%char :: "x"%char
              :: hex_digits 8 v ++ word_tokens ws ++ [CR]).
    cbn [scan_hex_items].
    change (skip_space (" "%char :: "0"%char :: "x"%char
              :: hex_digits 8 v ++ word_tokens ws ++ [CR]))
      with ("0"%char :: "x"%char :: hex_digits 8 v ++ word_tokens ws ++ [CR]).
    change (scan_char "0" ("0"%char :: "x"%char
              :: hex_digits 8 v ++ word_tokens ws ++ [CR]))
      with (Scanned tt ("x"%char :: hex_digits 8 v ++ word_tokens ws ++ [CR])).
    cbn iota.
    change (scan_char "x" ("x"%char :: hex_digits 8 v ++ word_tokens ws ++ [CR]))
      with (Scanned tt (hex_digits 8 v ++ word_tokens ws ++ [CR])).
    cbn iota.
    pose proof (scan_hex_digits_n [] (word_tokens ws ++ [CR]) 8 v
                  (List.Forall_nil _) ltac:(lia) Hv (word_tokens_head ws)) as H.
    cbn [app] in H. rewrite H.
    rewrite IH by lia.
    unfold u32. rewrite Z.mod_small by exact Hv.
    rewrite <- app_assoc. reflexivity.
Qed.

Lemma word_tokens_no_nul (ws : list Z) :
  Forall is_word ws -> Forall (fun c => is_nul c = false) (word_tokens ws).
Proof.
  induction 1 as [|v ws Hv Hws IH]; [constructor|].
  change (word_tokens (v :: ws))
    with ((" "%char :: "0"%char :: "x"%char :: hex_digits 8 v) ++ word_tokens ws).
  apply Forall_app. split; [|exact IH].
  repeat (constructor; [reflexivity|]).
  apply hex_digits_no_nul. unfold is_word in Hv. lia.
Qed.

Lemma sscanf_word_line (label : cstring) (ws values : list Z) :
  word_line_ok (label, ws) ->
  sscanf_dump u32 4 (word_line label ws ++ [NUL]) values
  = (Z.of_nat (length ws), ws ++ skipn (length ws) values).
Proof.
  intros (Hne & Hlabel & Hws & Hlen). cbn [fst snd] in *.
  assert (Hnonul : Forall (fun c => is_nul c = false) label).
  { eapply List.Forall_impl; [|exact Hlabel]. intros c [_ Hc]. exact Hc. }
  assert (Hnosp : Forall (fun c => isspace c = false) label).
  { eapply List.Forall_impl; [|exact Hlabel]. intros c [Hc _]. exact Hc. }
  unfold sscanf_dump, word_line.
  rewrite <- !app_assoc, until_nul_app by exact Hnonul.
  rewrite until_nul_app by (apply word_tokens_no_nul; exact Hws).
  change (until_nul ([CR] ++ [NUL])) with [CR].
  unfold scan_skip_word.
  destruct label as [|c label]; [contradiction|].
  cbn [app skip_space].
  inversion Hnosp as [|? ? Hc Hrest]; subst. rewrite Hc.
  change (c :: label ++ word_tokens ws ++ [CR])
    with ((c :: label) ++ word_tokens ws ++ [CR]).
  rewrite skip_nonspace_app;
    [| exact Hnosp | destruct ws; [cbn in Hlen; lia | reflexivity]].
  rewrite scan_hex_items_words by (try exact Hws; lia).
  cbn [app]. unfold scanf_return.
  destruct ws as [|v ws]; [cbn in Hlen; lia|].
  destruct (length (v :: ws) =? 4)%nat; reflexivity.
Qed.

Lemma word_bytes_length (v : Z) : length (Guest.word_bytes v) = 4%nat.
Proof. reflexivity. Qed.

Lemma flat_word_bytes_length (ws : list Z) :
  length (flat_map Guest.word_bytes ws) = (4 * length ws)%nat.
Proof.
  induction ws as [|v ws IH]; [reflexivity|].
  cbn [flat_map]. rewrite length_app, IH, word_bytes_length. cbn [length]. lia.
Qed.

Lemma store_words_ok (vals block : list Z) (i : nat) :
  (4 * (i + length vals) <= length block)%nat ->
  Guest.store_words vals block i
  = Ok (take (4 * i) block ++ flat_map Guest.word_bytes vals
        ++ drop (4 * (i + length vals)) block, (i + length vals)%nat).
Proof.
  revert block i. induction vals as [|v vals IH]; intros block i Hfit.
  - cbn [Guest.store_words flat_map length app].
    rewrite Nat.add_0_r, take_drop. reflexivity.
  - cbn [Guest.store_words length] in *. unfold Guest.poke_word.
    rewrite copy_values_ok by (rewrite word_bytes_length; lia).
    cbn [mbind outcome_bind]. rewrite word_bytes_length.
    rewrite IH
      by (rewrite !length_app, length_take, length_drop, word_bytes_length; lia).
    f_equal. f_equal; [|lia].
    cbn [flat_map].
    pose proof (store_twice block (Guest.word_bytes v)
                  (flat_map Guest.word_bytes vals) (4 * i)) as H.
    rewrite word_bytes_length, flat_word_bytes_length in H.
    replace (4 * S i)%nat with (4 * i + 4)%nat by lia.
    replace (4 * (S i + length vals))%nat
      with (4 * i + 4 + 4 * length vals)%nat by lia.
    rewrite H by lia.
    replace (4 * (i + S (length vals)))%nat
      with (4 * i + 4 + 4 * length vals)%nat by lia.
    reflexivity.
Qed.

Lemma dump_lines_words (lines : list (cstring * list Z)) :
  forall (values block : list Z) (i : nat),
    Forall word_line_ok lines ->
    length values = 4%nat ->
    (4 * (i + length (flat_map snd lines)) <= length block)%nat ->
    Guest.dump_lines (map (fun ln => word_line (fst ln) (snd ln)) lines)
      values block i
    = Ok (take (4 * i) block ++ words_bytes lines
          ++ drop (4 * (i + length (flat_map snd lines))) block).
Proof.
  unfold words_bytes.
  induction lines as [|[label ws] lines IH]; intros values block i Hok Hvals Hfit.
  - cbn [map Guest.dump_lines flat_map length app].
    rewrite Nat.add_0_r, take_drop. reflexivity.
  - inversion Hok as [|x l Hln Hok']; subst x l.
    pose proof Hln as (_ & _ & _ & Hcount). cbn [fst snd] in Hcount.
    cbn [map Guest.dump_lines fst snd flat_map] in *.
    rewrite length_app in Hfit.
    rewrite sscanf_word_line by exact Hln.
    rewrite Nat2Z.id.
    assert (Hlen' : length (ws ++ drop (length ws) values) = 4%nat).
    { rewrite length_app, length_drop. lia. }
    rewrite (List.firstn_all2 (n := 4)) by lia.
    rewrite take_app_length.
    rewrite store_words_ok by lia.
    cbn [mbind outcome_bind].
    rewrite IH;
      [ | exact Hok' | exact Hlen'
        | rewrite !length_app, length_take, length_drop,
            flat_word_bytes_length; lia ].
    f_equal.
    pose proof (store_twice block (flat_map Guest.word_bytes ws)
                  (flat_map Guest.word_bytes (flat_map snd lines)) (4 * i)) as H.
    rewrite !flat_word_bytes_length in H.
    replace (4 * (i + length ws))%nat with (4 * i + 4 * length ws)%nat by lia.
    replace (4 * (i + length ws + length (flat_map snd lines)))%nat
      with (4 * i + 4 * length ws + 4 * length (flat_map snd lines))%nat by lia.
    rewrite H by lia.
    rewrite flat_map_app, length_app.
    replace (4 * (i + (length ws + length (flat_map snd lines))))%nat
      with (4 * i + 4 * length ws + 4 * length (flat_map snd lines))%nat by lia.
    reflexivity.
Qed.

Lemma word_line_is_text (ln : cstring * list Z) :
  word_line_ok ln -> text_line (word_line (fst ln) (snd ln)).
Proof.
  intros (Hne & Hlabel & Hws & Hlen). unfold text_line, word_line. split.
  - destruct (fst ln); [contradiction | discriminate].
  - apply Forall_app. split.
    + eapply List.Forall_impl; [|exact Hlabel]. intros c [Hs Hn].
      split; [|exact Hn]. unfold isspace in Hs.
      destruct (code c =? code LF) eqn:E; [|reflexivity].
      apply Z.eqb_eq in E. rewrite E in Hs. discriminate.
    + apply Forall_app. split; [|repeat constructor].
      clear Hlen. induction Hws as [|v ws Hv Hws IH]; [constructor|].
      change (word_tokens (v :: ws))
        with ((" "%char :: "0"%char :: "x"%char :: hex_digits 8 v)
                ++ word_tokens ws).
      apply Forall_app. split; [|exact IH].
      repeat (constructor; [split; reflexivity|]).
      assert (H0 : 0 <= v) by (unfold is_word in Hv; lia).
      generalize 8%nat. intros n.
      induction n as [|n IHn]; cbn [hex_digits]; constructor; [|exact IHn].
      destruct (hex_digit_facts _ (hex_digit_range v n H0))
        as (_ & S1 & _ & _ & _ & N1 & _).
      split; [|exact N1]. unfold isspace in S1.
      destruct (code _ =? code LF) eqn:E; [|reflexivity].
      apply Z.eqb_eq in E. rewrite E in S1. discriminate.
Qed.

(** X25.  One segment over libvirt: the words of the monitor's answer go
    into a scratch block in little-endian byte order, the first [size]
    bytes of the block are copied out and the call returns 0.  Nothing
    checks how many words arrived: where the answer is shorter than
    [size], what is copied behind its words is what [malloc] left in
    the block. *)
Theorem libvirt_readmem_part_copies (addr size : Z) (off : nat)
    (mem : list Z) (w : world) (lines : list (cstring * list Z))
    (more : list (option cstring)) :
  0 < size < 2 ^ 60 ->
  monitor_replies w = Some (word_text lines) :: more ->
  Forall word_line_ok lines ->
  Z.of_nat (length (words_bytes lines)) <= 1024 + Guest.roundup size 4 * 2 ->
  (off + Z.to_nat size <= length mem)%nat ->
  exists w',
    Guest.libvirt_readmem_part addr off size (mem, w)
    = Ok (0, (take off mem
              ++ take (Z.to_nat size)
                   (words_bytes lines
                    ++ drop (length (words_bytes lines))
                         (map code
                            (Qmp.xmalloc (1024 + Guest.roundup size 4 * 2) w)))
              ++ drop (off + Z.to_nat size) mem, w'))
    /\ monitor_sent w'
       = monitor_sent w ++ [Guest.hmp_xp_command (Guest.roundup size 4) addr].
Proof.
  intros Hsize Hreply Hok Hroom Hfit.
  assert (Hround : size <= Guest.roundup size 4 < size + 4).
  { unfold Guest.roundup.
    pose proof (Z.div_mod (size + (4 - 1)) 4 ltac:(discriminate)).
    pose proof (Z.mod_pos_bound (size + (4 - 1)) 4 ltac:(reflexivity)). lia. }
  unfold Guest.libvirt_readmem_part, Guest.libvirt_dump_phy_memory.
  rewrite to_long_small by lia.
  unfold Guest.virDomainQemuMonitorCommand. rewrite Hreply.
  rewrite u64_small by lia.
  set (n := Z.to_nat (1024 + Guest.roundup size 4 * 2)).
  set (block := map code (Qmp.xmalloc (1024 + Guest.roundup size 4 * 2) w)).
  assert (Hblock : length block = n).
  { unfold block. rewrite length_map. apply xmalloc_length. }
  assert (Htext : Forall text_line
                    (map (fun ln => word_line (fst ln) (snd ln)) lines)).
  { apply List.Forall_map. eapply List.Forall_impl; [|exact Hok].
    intros ln. apply word_line_is_text. }
  unfold word_text.
  rewrite monitor_text_no_nul, strtok_lines_text by exact Htext.
  assert (Hwords : length (words_bytes lines)
                   = (4 * length (flat_map snd lines))%nat)
    by apply flat_word_bytes_length.
  rewrite dump_lines_words;
    [ | exact Hok | reflexivity
      | rewrite Hblock; unfold n; lia ].
  cbn [mbind outcome_bind].
  rewrite Nat.mul_0_r, Nat.add_0_l, take_0. cbn [app].
  rewrite <- Hwords.
  unfold Guest.memcpy.
  replace (length mem <? off + Z.to_nat size)%nat with false
    by (symmetry; apply Nat.ltb_ge; exact Hfit).
  replace (length (words_bytes lines
                   ++ drop (length (words_bytes lines)) block)
           <? Z.to_nat size)%nat with false
    by (symmetry; apply Nat.ltb_ge; rewrite length_app, length_drop, Hblock;
        unfold n; lia).
  cbn [orb mbind outcome_bind].
  eexists. split; reflexivity.
Qed.

Lemma libvirt_readmem_part_copies_witness :
  exists w',
    Guest.libvirt_readmem_part 4096 0 18
      (repeat 0 18, set_monitor [Some (word_text word_dump)] [] calm)
    = Ok (0, ([1; 2; 3; 4; 5; 6; 7; 8; 9; 10; 11; 12; 13; 14; 15; 16; 17; 18],
              w'))
    /\ monitor_sent w' = [lit "xp /5xw 0x1000"].
Proof.
  apply (libvirt_readmem_part_copies 4096 18 0 (repeat 0 18)
           (set_monitor [Some (word_text word_dump)] [] calm) word_dump []).
  - lia.
  - reflexivity.
  - repeat constructor; try discriminate; vm_compute; intuition discriminate.
  - vm_compute. discriminate.
  - vm_compute. lia.
Defined.

(** ** The register query over the monitor socket *)







